(** * The affine sampling core of the spatial transformer (src/locnet.py)

    A shallow embedding of [get_pixel_value], [affine_grid_generator],
    [bilinear_sampler], of the two networks of [get_localization_network]
    and [get_affine_params], and of [LocNet], whose [call] chains them.

    Conventions of the embedding.
    - A [float32] tensor entry is an exact rational ([Q]); an [int32] entry is
      an integer ([Z]).  Every statement below is therefore a statement over
      exact arithmetic: rounding and the range of [int32] are not modelled.
      Rationals are compared with [==] ([Qeq]).  Rounding matters most for
      the sum of line 207 when its four products cancel in pairs: the sum is
      0 over the rationals and can be a rounding residue in [float32]; the
      statements about such sums say so.
    - The weights that Keras draws at random and then trains are parameters:
      the kernels and biases of the two convolutions, and the kernel of the
      first dense layer.
    - A tensor of rank three is a list of lists of lists, outermost axis
      first; an image batch (B,H,W,C) is a rank-three tensor of channel
      vectors.
    - TensorFlow operations that can raise return an [option]: [tf.stack] on
      operands of different shapes and [tf.gather_nd] on an index outside the
      image give [None].  The elementwise operations of [bilinear_sampler]
      come after the four gathers, whose [tf.stack] has by then rejected
      coordinate tensors of different shapes
      ([bilinear_sampler_same_shape]), so they are plain zips.
    - The height and width of an image batch are read off its first entries
      ([shape3]); TensorFlow keeps them with the tensor, which differs only
      for a batch without images or an image without rows, where no pixel
      can be sampled. *)

From Stdlib Require Import ZArith QArith Qround Qminmax Lqa Lia.
From stdpp Require Import base option list.

#[local] Open Scope Q_scope.

(** ** Tensors as nested lists *)

Abbreviation tensor3 A := (list (list (list A))).
Abbreviation tensor4 := (list (list (list (list Q)))).

Section tensor_ops.
Context {A B C : Type}.

(** An elementwise unary operation (also: an operation with a scalar). *)
Definition tmap (f : A → B) (t : tensor3 A) : tensor3 B :=
  (λ p : list (list A), (λ r : list A, f <$> r) <$> p) <$> t.

(** An elementwise binary operation on operands of one shape. *)
Definition tzip (f : A → B → C) (s : tensor3 A) (t : tensor3 B) : tensor3 C :=
  zip_with (zip_with (zip_with f)) s t.

(** [t[b, i, j]]. *)
Definition get3 (t : tensor3 A) (b i j : nat) : option A :=
  p ← t !! b; r ← (p : list (list A)) !! i; (r : list A) !! j.

(** [tf.shape(t)[0..2]]; the inner sizes are read off the first entries. *)
Definition shape3 (t : tensor3 A) : nat * nat * nat :=
  (length t,
   length (default [] (head t)),
   length (default [] (head (default [] (head t))))).

(** A zip that fails when the lengths differ. *)
Fixpoint zipS (f : A → B → option C) (l : list A) (k : list B) : option (list C) :=
  match l, k with
  | [], [] => Some []
  | a :: l, b :: k => c ← f a b; r ← zipS f l k; Some (c :: r)
  | _, _ => None
  end.
End tensor_ops.

Definition tzipS {A B C} (f : A → B → C) (s : tensor3 A) (t : tensor3 B)
  : option (tensor3 C) :=
  zipS (zipS (zipS (λ a b, Some (f a b)))) s t.

(** [t] is a (B,H,W) tensor. *)
Definition has_shape3 {A} (B H W : nat) (t : tensor3 A) : Prop :=
  length t = B ∧
  Forall (λ p, length p = H ∧ Forall (λ r : list A, length r = W) p) t.

(** The lengths of the rows of [t]: two tensors have one shape when these
    agree. *)
Definition row_lengths {A} (t : tensor3 A) : list (list nat) :=
  (λ p : list (list A), (λ r : list A, length r) <$> p) <$> t.

(** ** get_pixel_value (lines 55-80) *)

(** [tf.stack([b, y, x], 3)]: the three operands must have one shape. *)
Definition tf_stack3 (b y x : tensor3 Z) : option (tensor3 (list Z)) :=
  by_ ← tzipS (λ p q, [p; q]) b y;
  tzipS (λ pq r, pq ++ [r]) by_ x.

(** One read of [tf.gather_nd(img, indices)]: the index [[b; y; x]] selects
    the channel vector [img[b, y, x, :]]; an index outside the image is an
    error. *)
Definition gather_nd1 (img : tensor4) (idx : list Z) : option (list Q) :=
  match idx with
  | [b; y; x] =>
      if decide (0 ≤ b ∧ 0 ≤ y ∧ 0 ≤ x)%Z
      then get3 img (Z.to_nat b) (Z.to_nat y) (Z.to_nat x)
      else None
  | _ => None
  end.

Definition tf_gather_nd (img : tensor4) (indices : tensor3 (list Z)) : option tensor4 :=
  mapM (mapM (mapM (gather_nd1 img))) indices.

(** Lines 74-76: [tf.range], reshaped to (batch_size, 1, 1) and tiled. *)
Definition batch_tile (batch_size height width : nat) : tensor3 Z :=
  let batch_idx := seqZ 0 (Z.of_nat batch_size) in
  (λ i, replicate height (replicate width i)) <$> batch_idx.

Definition get_pixel_value (img : tensor4) (x y : tensor3 Z) : option tensor4 :=
  let '(batch_size, height, width) := shape3 x in
  let b := batch_tile batch_size height width in
  indices ← tf_stack3 b y x;
  tf_gather_nd img indices.

(** ** affine_grid_generator (lines 82-139) *)

(** One affine matrix: two rows of three entries.  [theta] is a list of
    them, one per batch element (shape (num_batch, 2, 3)). *)
Definition row3 : Type := Q * Q * Q.
Definition theta23 : Type := row3 * row3.

(** [tf.linspace(start, stop, num)]: the two end points are exact, the
    points between them are [start + k * delta]; the result is cut to [num]
    entries, so that [num = 1] gives [[start]]. *)
Definition linspace (start stop : Q) (num : nat) : list Q :=
  let n_steps := Nat.max (num - 1) 1 in
  let delta := (stop - start) / inject_Z (Z.of_nat n_steps) in
  take num
    (start
       :: ((λ k, start + delta * inject_Z (Z.of_nat k)) <$> seq 1 (n_steps - 1))
       ++ [stop]).

(** [tf.meshgrid(x, y)] with the default 'xy' indexing: both results have
    shape (len y, len x). *)
Definition meshgrid (x y : list Q) : list (list Q) * list (list Q) :=
  (replicate (length y) x, (λ v, replicate (length x) v) <$> y).

(** [tf.reshape(t, [height, width])] of a flat tensor, row-major. *)
Fixpoint reshape2 (height width : nat) (l : list Q) : list (list Q) :=
  match height with
  | O => []
  | S h => take width l :: reshape2 h width (drop width l)
  end.

Definition dot3 (r : row3) (x y o : Q) : Q :=
  let '(a, b, c) := r in a * x + b * y + c * o.

(** [tf.matmul] of one (2,3) matrix with the (3, H*W) grid. *)
Definition matmul23 (th : theta23) (grid : list (list Q)) : list (list Q) :=
  match grid with
  | [xs; ys; os] =>
      [zip_with (λ xy o, dot3 th.1 xy.1 xy.2 o) (zip xs ys) os;
       zip_with (λ xy o, dot3 th.2 xy.1 xy.2 o) (zip xs ys) os]
  | _ => []
  end.

(** The result has shape (num_batch, 2, H, W). *)
Definition affine_grid_generator (height width : nat) (theta : list theta23)
  : list (tensor3 Q) :=
  let num_batch := length theta in
  let x := linspace (-1) 1 width in
  let y := linspace (-1) 1 height in
  let '(x_t, y_t) := meshgrid x y in
  let x_t_flat : list Q := concat x_t in
  let y_t_flat : list Q := concat y_t in
  let ones : list Q := (λ _, 1) <$> x_t_flat in
  let sampling_grid := [x_t_flat; y_t_flat; ones] in
  let sampling_grid := replicate num_batch sampling_grid in
  let batch_grids := zip_with matmul23 theta sampling_grid in
  (λ g : list (list Q), reshape2 height width <$> g) <$> batch_grids.

(** ** bilinear_sampler (lines 141-209) *)

Definition dim_H (img : tensor4) : Z := Z.of_nat (shape3 img).1.2.
Definition dim_W (img : tensor4) : Z := Z.of_nat (shape3 img).2.

(** Lines 167-168, on one coordinate: [max_d] is [max_x] or [max_y]. *)
Definition rescale (max_d : Z) (v : Q) : Q :=
  (1 # 2) * ((v + 1) * inject_Z (max_d - 1)).

(** [tf.clip_by_value]: the minimum with the upper bound, then the maximum
    with the lower bound. *)
Definition clip_by_value (v lo hi : Z) : Z := Z.max (Z.min v hi) lo.

(** The coordinate tensors after line 180. *)
Record corners := Corners {
  c_x : tensor3 Q;  c_y : tensor3 Q;
  c_x0 : tensor3 Z; c_x1 : tensor3 Z;
  c_y0 : tensor3 Z; c_y1 : tensor3 Z
}.

Definition sampler_corners (img : tensor4) (x y : tensor3 Q) : corners :=
  let H := dim_H img in
  let W := dim_W img in
  let max_y := (H - 1)%Z in
  let max_x := (W - 1)%Z in
  let zero := 0%Z in
  (* rescale x and y *)
  let x := tmap (rescale max_x) x in
  let y := tmap (rescale max_y) y in
  (* the four nearest corner points *)
  let x0 := tmap Qfloor x in
  let x1 := tmap (λ v, v + 1)%Z x0 in
  let y0 := tmap Qfloor y in
  let y1 := tmap (λ v, v + 1)%Z y0 in
  (* clip *)
  let x0 := tmap (λ v, clip_by_value v zero max_x) x0 in
  let x1 := tmap (λ v, clip_by_value v zero max_x) x1 in
  let y0 := tmap (λ v, clip_by_value v zero max_y) y0 in
  let y1 := tmap (λ v, clip_by_value v zero max_y) y1 in
  Corners x y x0 x1 y0 y1.

(** Lines 189-198: the weights [(wa, wb, wc, wd)]. *)
Definition sampler_weights (c : corners)
  : tensor3 Q * tensor3 Q * tensor3 Q * tensor3 Q :=
  let x := c_x c in
  let y := c_y c in
  let x0 := tmap inject_Z (c_x0 c) in
  let x1 := tmap inject_Z (c_x1 c) in
  let y0 := tmap inject_Z (c_y0 c) in
  let y1 := tmap inject_Z (c_y1 c) in
  let wa := tzip Qmult (tzip Qminus x1 x) (tzip Qminus y1 y) in
  let wb := tzip Qmult (tzip Qminus x1 x) (tzip Qminus y y0) in
  let wc := tzip Qmult (tzip Qminus x x0) (tzip Qminus y1 y) in
  let wd := tzip Qmult (tzip Qminus x x0) (tzip Qminus y y0) in
  (wa, wb, wc, wd).

(** [tf.expand_dims(w, axis=3)]. *)
Definition expand_dims3 (w : tensor3 Q) : tensor4 := tmap (λ v, [v]) w.

(** [w * I] for [w] of shape (B,H,W,1) and [I] of shape (B,H,W,C): the last
    axis of [w] is broadcast over the channels. *)
Definition bcast_mul (ws cs : list Q) : list Q :=
  match ws with
  | [w] => Qmult w <$> cs
  | _ => zip_with Qmult ws cs
  end.

Definition tf_mul4 (w i : tensor4) : tensor4 := tzip bcast_mul w i.

Definition tf_add4 (s t : tensor4) : tensor4 := tzip (zip_with Qplus) s t.

(** [tf.add_n]. *)
Definition add_n (ts : list tensor4) : tensor4 :=
  match ts with
  | [] => []
  | t :: ts => foldl tf_add4 t ts
  end.

Definition bilinear_sampler (img : tensor4) (x y : tensor3 Q) : option tensor4 :=
  let c := sampler_corners img x y in
  Ia ← get_pixel_value img (c_x0 c) (c_y0 c);
  Ib ← get_pixel_value img (c_x0 c) (c_y1 c);
  Ic ← get_pixel_value img (c_x1 c) (c_y0 c);
  Id ← get_pixel_value img (c_x1 c) (c_y1 c);
  let '(wa, wb, wc, wd) := sampler_weights c in
  let wa := expand_dims3 wa in
  let wb := expand_dims3 wb in
  let wc := expand_dims3 wc in
  let wd := expand_dims3 wd in
  Some (add_n [tf_mul4 wa Ia; tf_mul4 wb Ib; tf_mul4 wc Ic; tf_mul4 wd Id]).

(** ** LocNet.call, lines 230-233

    The part of [call] after the localization network has produced [theta]:
    grid generation, the two slices of the grid, and sampling. *)
(** [grid[:, k, :, :]]. *)
Definition grid_slice (k : nat) (grid : list (tensor3 Q)) : tensor3 Q :=
  (λ g, default [] (g !! k)) <$> grid.

Definition locnet_resample (image_height image_width : nat)
    (img : tensor4) (theta : list theta23) : option tensor4 :=
  let grid := affine_grid_generator image_height image_width theta in
  let x_s := grid_slice 0 grid in
  let y_s := grid_slice 1 grid in
  bilinear_sampler img x_s y_s.

(** The grid of one matrix row [r] in closed form: the entry (i, j) is the
    product of [r] with the homogeneous point (x_j, y_i, 1) of the mesh.
    [affine_grid_generator_closed] below proves that the generator computes
    it. *)
Definition grid_of (height width : nat) (r : row3) : list (list Q) :=
  (λ yv, (λ xv, dot3 r xv yv 1) <$> linspace (-1) 1 width)
    <$> linspace (-1) 1 height.

(** ** The sampler at one output pixel

    What [bilinear_sampler] computes at one position of its coordinate
    tensors, written on scalars: [px], [py] are the rescaled coordinates.
    [bilinear_sampler_pixelwise] below proves that the tensor program
    computes exactly this at every position. *)

Definition corner0 (max_d : Z) (p : Q) : Z := clip_by_value (Qfloor p) 0 max_d.
Definition corner1 (max_d : Z) (p : Q) : Z := clip_by_value (Qfloor p + 1) 0 max_d.

Definition weights_at (max_x max_y : Z) (px py : Q) : Q * Q * Q * Q :=
  let x0 := inject_Z (corner0 max_x px) in
  let x1 := inject_Z (corner1 max_x px) in
  let y0 := inject_Z (corner0 max_y py) in
  let y1 := inject_Z (corner1 max_y py) in
  ((x1 - px) * (y1 - py), (x1 - px) * (py - y0),
   (px - x0) * (y1 - py), (px - x0) * (py - y0)).

Definition blend (w : Q * Q * Q * Q) (Ia Ib Ic Id : list Q) : list Q :=
  let '(wa, wb, wc, wd) := w in
  zip_with Qplus
    (zip_with Qplus
       (zip_with Qplus (bcast_mul [wa] Ia) (bcast_mul [wb] Ib))
       (bcast_mul [wc] Ic))
    (bcast_mul [wd] Id).

Definition sample_pixel (img : tensor4) (b : nat) (xn yn : Q) : option (list Q) :=
  let max_x := (dim_W img - 1)%Z in
  let max_y := (dim_H img - 1)%Z in
  let px := rescale max_x xn in
  let py := rescale max_y yn in
  let x0 := corner0 max_x px in
  let x1 := corner1 max_x px in
  let y0 := corner0 max_y py in
  let y1 := corner1 max_y py in
  Ia ← gather_nd1 img [Z.of_nat b; y0; x0];
  Ib ← gather_nd1 img [Z.of_nat b; y1; x0];
  Ic ← gather_nd1 img [Z.of_nat b; y0; x1];
  Id ← gather_nd1 img [Z.of_nat b; y1; x1];
  Some (blend (weights_at max_x max_y px py) Ia Ib Ic Id).

(** ** Concrete data *)

Definition theta_id : theta23 := ((1, 0, 0), (0, 1, 0)).
Definition theta_zero : theta23 := ((0, 0, 0), (0, 0, 0)).

(** The 4x4 single-channel image with the values 0..15 in row-major order. *)
Definition img4x4 : tensor4 :=
  [[ [[0]; [1]; [2]; [3]];
     [[4]; [5]; [6]; [7]];
     [[8]; [9]; [10]; [11]];
     [[12]; [13]; [14]; [15]] ]].

(** A 3x3 single-channel image with the values 1..9 in row-major order. *)
Definition img3x3 : tensor4 :=
  [[ [[1]; [2]; [3]];
     [[4]; [5]; [6]];
     [[7]; [8]; [9]] ]].

(** A batch of two 3x3 images and two matrices. *)
Definition img3x3_rev : tensor4 :=
  [[ [[9]; [8]; [7]];
     [[6]; [5]; [4]];
     [[3]; [2]; [1]] ]].
Definition batch2 : tensor4 := img3x3 ++ img3x3_rev.
Definition theta2 : list theta23 := [theta_id; ((1 # 2, 0, 0), (0, 1 # 2, 0))].

(** The corner tensors of some one-pixel queries, by normalized coordinate:
    in the 4x4 image (0, 1) is rescaled to the grid point (1, 2); in the 3x3
    image (3, -1) is rescaled to (2, 0), on the last column, (-7, 40) to
    (-3, 41/2), (-2, 0) to (-1/2, 1/2), and (-3, -1) to (-1, 0). *)
Definition corners_inner : corners := sampler_corners img4x4 [[[0]]] [[[1]]].
Definition corners_last_column : corners := sampler_corners img3x3 [[[3]]] [[[-1]]].
Definition corners_far : corners := sampler_corners img3x3 [[[-7]]] [[[40]]].
Definition corners_left : corners := sampler_corners img3x3 [[[-2]]] [[[0]]].

(** The corner tensors of the whole 4x4 image under the all-zero matrix. *)
Definition corners_zero_theta : corners :=
  sampler_corners img4x4
    (grid_slice 0 (affine_grid_generator 4 4 [theta_zero]))
    (grid_slice 1 (affine_grid_generator 4 4 [theta_zero])).

(** Entries of a computed tensor in lowest terms, for display. *)
Definition tmap4 (f : Q → Q) (t : tensor4) : tensor4 := tmap (fmap f) t.

(** The four weight tensors, by name. *)
Definition w_a (c : corners) : tensor3 Q := (sampler_weights c).1.1.1.
Definition w_b (c : corners) : tensor3 Q := (sampler_weights c).1.1.2.
Definition w_c (c : corners) : tensor3 Q := (sampler_weights c).1.2.
Definition w_d (c : corners) : tensor3 Q := (sampler_weights c).2.


(** ** get_affine_params (lines 34-52)

    A Keras [Dense] layer on one sample computes
    [activation (x . kernel + bias)], with a kernel of shape
    (input_dim, units). *)

(** [activation='relu']. *)
Definition relu (v : Q) : Q := Qmax 0 v.

Record dense_layer := Dense {
  units : nat;
  kernel : list (list Q);
  bias : list Q;
  activation : Q → Q
}.

(** The product of a row vector with a kernel. *)
Definition vecmat (n_units : nat) (x : list Q) (k : list (list Q)) : list Q :=
  foldl (zip_with Qplus) (replicate n_units 0)
        (zip_with (λ xi row, Qmult xi <$> row) x k).

Definition dense_call (l : dense_layer) (x : list Q) : list Q :=
  activation l <$> zip_with Qplus (vecmat (units l) x (kernel l)) (bias l).

(** The regressor as [get_affine_params] builds it.  The kernel of the first
    layer is drawn by 'he_normal' ([kernel_1], any matrix); its bias is
    Keras' default, zeros; the second layer has a zero kernel and the bias
    [[1, 0, 0, 0, 1, 0]], and no activation. *)
Definition get_affine_params (kernel_1 : list (list Q)) : list dense_layer :=
  let output_bias := [1; 0; 0; 0; 1; 0] in
  [ Dense 32 kernel_1 (replicate 32 0) relu;
    Dense (3 * 2) (replicate 32 (replicate (3 * 2) 0)) output_bias (λ v, v) ].

(** [tf.keras.Sequential] on one sample. *)
Definition sequential (layers : list dense_layer) (x : list Q) : list Q :=
  foldl (λ v l, dense_call l v) x layers.

(** ** get_localization_network (lines 5-32)

    The layers act on the images of a batch one by one; an image is a tensor
    of shape (H,W,C).  The weights of a convolution are drawn by 'he_normal'
    (the kernel) and then trained, so they are parameters of the network,
    given by index: [conv_kernel w di dj c o] is the kernel entry
    [K[di, dj, c, o]] and [conv_bias w o] the bias entry [b[o]]. *)

Record conv_weights := ConvWeights {
  conv_kernel : nat → nat → nat → nat → Q;
  conv_bias : nat → Q
}.

Inductive feature_layer :=
  | Conv2D (filters kernel_size : nat) (act : Q → Q) (w : conv_weights)
  | MaxPool2D (strides : nat).

Definition sumQ (l : list Q) : Q := foldr Qplus 0 l.

(** The entry [img[i, j, c]] of an image padded with zeros on all sides. *)
Definition padded (img : tensor3 Q) (i j : Z) (c : nat) : Q :=
  if decide (0 ≤ i ∧ 0 ≤ j)%Z
  then default 0 (get3 img (Z.to_nat i) (Z.to_nat j) c)
  else 0.

(** [Conv2D(filters, kernel_size, padding='same')] with the default stride 1:
    the output has the height and width of the input; the window of the
    output pixel (i, j) starts [(kernel_size - 1) / 2] pixels before it. *)
Definition conv2d_same (filters kernel_size : nat) (act : Q → Q)
    (w : conv_weights) (img : tensor3 Q) : tensor3 Q :=
  let '(H, W, C) := shape3 img in
  let pad := Z.of_nat ((kernel_size - 1) / 2) in
  (λ i, (λ j, (λ o,
      act (sumQ ((λ di, sumQ ((λ dj, sumQ ((λ c,
             padded img (Z.of_nat i + Z.of_nat di - pad)
                        (Z.of_nat j + Z.of_nat dj - pad) c
             * conv_kernel w di dj c o)
           <$> seq 0 C)) <$> seq 0 kernel_size)) <$> seq 0 kernel_size)
           + conv_bias w o))
    <$> seq 0 filters) <$> seq 0 W) <$> seq 0 H.

(** [MaxPool2D(strides)] with the default 2x2 window and the default
    padding 'valid': the output pixel (i, j) is the maximum over the window
    that starts at (strides * i, strides * j); an image with fewer than two
    rows or two columns has no window and is an error. *)
Definition max_pool2d (strides : nat) (img : tensor3 Q) : option (tensor3 Q) :=
  let '(H, W, C) := shape3 img in
  if decide (2 ≤ H ∧ 2 ≤ W)%nat
  then Some ((λ i, (λ j, (λ c,
          let p (di dj : nat) :=
            default 0 (get3 img (strides * i + di) (strides * j + dj) c) in
          Qmax (Qmax (p 0%nat 0%nat) (p 0%nat 1%nat))
               (Qmax (p 1%nat 0%nat) (p 1%nat 1%nat)))
        <$> seq 0 C) <$> seq 0 ((W - 2) / strides + 1))
        <$> seq 0 ((H - 2) / strides + 1))
  else None.

Definition layer_call (l : feature_layer) (x : tensor4) : option tensor4 :=
  match l with
  | Conv2D filters kernel_size act w =>
      Some (conv2d_same filters kernel_size act w <$> x)
  | MaxPool2D strides => mapM (max_pool2d strides) x
  end.

Definition get_localization_network (w_1 w_2 : conv_weights) : list feature_layer :=
  [ Conv2D 16 7 relu w_1;
    MaxPool2D 2;
    Conv2D 20 5 relu w_2;
    MaxPool2D 2 ].

(** [tf.keras.Sequential] of such layers on a batch. *)
Definition sequential_features (layers : list feature_layer) (x : tensor4)
  : option tensor4 :=
  foldl (λ acc l, acc ≫= layer_call l) (Some x) layers.

(** ** LocNet (lines 211-234) *)

Record LocNet := {
  localization : list feature_layer;
  affine_params : list dense_layer;
  image_width : nat;
  image_height : nat
}.

(** The weights that the layers of a [LocNet] are created with, apart from
    those that [get_affine_params] fixes. *)
Record locnet_weights := {
  conv_1 : conv_weights;
  conv_2 : conv_weights;
  dense_1 : list (list Q)
}.

(** [__init__], lines 212-222. *)
Definition LocNet_init (w : locnet_weights) (width height : nat) : LocNet :=
  {| localization := get_localization_network (conv_1 w) (conv_2 w);
     affine_params := get_affine_params (dense_1 w);
     image_width := width;
     image_height := height |}.

(** One row of [tf.reshape(theta, (-1, 2, 3))]. *)
Definition reshape23 (v : list Q) : option theta23 :=
  match v with
  | [a; b; c; d; e; f] => Some ((a, b, c), (d, e, f))
  | _ => None
  end.

(** [call], lines 224-234.  Line 227 flattens the features of every image,
    row-major. *)
Definition LocNet_call (self : LocNet) (inputs : tensor4) : option tensor4 :=
  let x := inputs in
  xs ← sequential_features (localization self) x;
  let xs := (λ f : tensor3 Q, concat (concat f)) <$> xs in
  let theta := sequential (affine_params self) <$> xs in
  theta ← mapM reshape23 theta;
  locnet_resample (image_height self) (image_width self) x theta.

(** ** Notions used in the statements *)

(** The channel [k] of an image batch, [img[..., k:k+1]]. *)
Definition channel (k : nat) (t : tensor4) : tensor4 :=
  tmap (λ c, take 1 (drop k c)) t.

(** Two matrices with equal entries. *)
Definition theta_eq (s t : theta23) : Prop :=
  let '((a, b, c), (d, e, f)) := s in
  let '((a', b', c'), (d', e', f')) := t in
  a == a' ∧ b == b' ∧ c == c' ∧ d == d' ∧ e == e' ∧ f == f'.

(** [t] is a (B,H,W,C) tensor. *)
Definition has_shape4 (B H W C : nat) (t : tensor4) : Prop :=
  length t = B ∧ Forall (has_shape3 H W C) t.

(** Weights for the examples: kernels that depend on the position in the
    window, so that both signs occur before the activation. *)
Definition conv_example : conv_weights :=
  ConvWeights (λ di dj _ _, inject_Z (Z.of_nat di - Z.of_nat dj)) (λ _, 1 # 2).
Definition weights_example : locnet_weights :=
  {| conv_1 := conv_example; conv_2 := conv_example;
     dense_1 := replicate 20 (replicate 32 (1 # 2)) |}.

(** More concrete data: integer corner indices for the 3x3 image, and a
    3x3 image with two channels. *)
Definition idx_x : tensor3 Z := [[ [0; 2]%Z; [1; 1]%Z ]].
Definition idx_y : tensor3 Z := [[ [2; 0]%Z; [1; 0]%Z ]].
Definition idx_bad : tensor3 Z := [[ [0; 3]%Z; [1; 1]%Z ]].
Definition img3x3_2ch : tensor4 :=
  [[ [[1; 10]; [2; 20]; [3; 30]];
     [[4; 40]; [5; 50]; [6; 60]];
     [[7; 70]; [8; 80]; [9; 90]] ]].

(** * Properties *)

(** ** Lookups in tensors *)

Section tensor_lemmas.
Context {A B C : Type}.
Implicit Types (s : tensor3 A) (t : tensor3 B).

Lemma get3_tmap (f : A → B) s b i j :
  get3 (tmap f s) b i j = f <$> get3 s b i j.
Proof.
  unfold get3, tmap. rewrite list_lookup_fmap.
  destruct (s !! b) as [p|]; simpl; [|done].
  rewrite list_lookup_fmap. destruct (p !! i) as [r|]; simpl; [|done].
  by rewrite list_lookup_fmap.
Qed.

Lemma get3_tzip (f : A → B → C) s t b i j :
  get3 (tzip f s t) b i j = (a ← get3 s b i j; c ← get3 t b i j; Some (f a c)).
Proof.
  unfold get3, tzip. rewrite lookup_zip_with.
  destruct (s !! b) as [p|]; simpl; [|done].
  destruct (t !! b) as [q|]; simpl; [|by destruct (p !! i ≫= _)].
  rewrite lookup_zip_with.
  destruct (p !! i) as [r|]; simpl; [|done].
  destruct (q !! i) as [r'|]; simpl; [|by destruct (r !! j)].
  by rewrite lookup_zip_with.
Qed.

Lemma get3_Some s b i j a :
  get3 s b i j = Some a ↔
  ∃ p r, s !! b = Some p ∧ p !! i = Some r ∧ r !! j = Some a.
Proof.
  unfold get3. split.
  - destruct (s !! b) as [p|]; simpl; [|done].
    destruct (p !! i) as [r|] eqn:?; simpl; [|done]. eauto.
  - intros (p & r & -> & Hr & Ha). simpl. by rewrite Hr.
Qed.

Lemma has_shape3_lookup (nb nh nw : nat) s b i j :
  has_shape3 nb nh nw s →
  is_Some (get3 s b i j) ↔ (b < nb ∧ i < nh ∧ j < nw)%nat.
Proof.
  intros [Hb Hs]. rewrite Forall_lookup in Hs. split.
  - intros [a (p & r & Hp & Hr & Ha)%get3_Some].
    destruct (Hs _ _ Hp) as [Hh Hw]. rewrite Forall_lookup in Hw.
    specialize (Hw _ _ Hr).
    apply lookup_lt_Some in Hp, Hr, Ha. lia.
  - intros (Hlb & Hli & Hlj).
    destruct (lookup_lt_is_Some_2 s b) as [p Hp]; [lia|].
    destruct (Hs _ _ Hp) as [Hh Hw]. rewrite Forall_lookup in Hw.
    destruct (lookup_lt_is_Some_2 p i) as [r Hr]; [lia|].
    specialize (Hw _ _ Hr).
    destruct (lookup_lt_is_Some_2 r j) as [a Ha]; [lia|].
    exists a. apply get3_Some. eauto.
Qed.

Lemma has_shape3_tmap (f : A → B) nb nh nw s :
  has_shape3 nb nh nw s → has_shape3 nb nh nw (tmap f s).
Proof.
  intros [Hb Hs]. unfold tmap. split; [by rewrite length_fmap|].
  rewrite Forall_fmap. eapply Forall_impl; [exact Hs|].
  intros p [Hh Hw]; simpl. split; [by rewrite length_fmap|].
  rewrite Forall_fmap. eapply Forall_impl; [exact Hw|].
  intros r Hr; simpl. by rewrite length_fmap.
Qed.

Lemma has_shape3_tzip (f : A → B → C) nb nh nw s t :
  has_shape3 nb nh nw s → has_shape3 nb nh nw t →
  has_shape3 nb nh nw (tzip f s t).
Proof.
  intros [Hb Hs] [Hb' Ht]. unfold tzip. split.
  { rewrite length_zip_with. lia. }
  rewrite Forall_lookup in Hs. rewrite Forall_lookup in Ht.
  apply Forall_lookup. intros b pq.
  intros (p & q & -> & Hp & Hq)%lookup_zip_with_Some.
  destruct (Hs _ _ Hp) as [Hh Hw]. destruct (Ht _ _ Hq) as [Hh' Hw'].
  split. { rewrite length_zip_with. lia. }
  rewrite Forall_lookup in Hw. rewrite Forall_lookup in Hw'.
  apply Forall_lookup. intros i rr.
  intros (r & r' & -> & Hr & Hr')%lookup_zip_with_Some.
  rewrite length_zip_with. specialize (Hw _ _ Hr). specialize (Hw' _ _ Hr'). lia.
Qed.
End tensor_lemmas.

(** Two tensors of one shape with the same entries are equal. *)
Lemma tensor3_ext {A} (nb nh nw : nat) (s t : tensor3 A) :
  has_shape3 nb nh nw s → has_shape3 nb nh nw t →
  (∀ b i j, get3 s b i j = get3 t b i j) → s = t.
Proof.
  intros Hs Ht Heq. apply list_eq. intros b.
  destruct Hs as [Hsb Hs]. destruct Ht as [Htb Ht].
  rewrite Forall_lookup in Hs. rewrite Forall_lookup in Ht.
  destruct (s !! b) as [p|] eqn:Hp; destruct (t !! b) as [q|] eqn:Hq.
  - f_equal. apply list_eq. intros i.
    destruct (Hs _ _ Hp) as [Hh Hw]. destruct (Ht _ _ Hq) as [Hh' Hw'].
    rewrite Forall_lookup in Hw. rewrite Forall_lookup in Hw'.
    destruct (p !! i) as [r|] eqn:Hr; destruct (q !! i) as [r'|] eqn:Hr'.
    + f_equal. apply list_eq. intros j.
      specialize (Heq b i j). unfold get3 in Heq.
      rewrite Hp, Hq in Heq. simpl in Heq. by rewrite Hr, Hr' in Heq.
    + apply lookup_lt_Some in Hr. apply lookup_ge_None in Hr'. lia.
    + apply lookup_lt_Some in Hr'. apply lookup_ge_None in Hr. lia.
    + done.
  - apply lookup_lt_Some in Hp. apply lookup_ge_None in Hq. lia.
  - apply lookup_lt_Some in Hq. apply lookup_ge_None in Hp. lia.
  - done.
Qed.

(** ** The strict zip and [tf.stack] *)

Lemma zipS_Some_zip_with {A B C} (f : A → B → option C) (g : A → B → C) l k :
  Forall2 (λ a b, f a b = Some (g a b)) l k →
  zipS f l k = Some (zip_with g l k).
Proof.
  induction 1 as [|a b l k Hab _ IH]; simpl; [done|].
  by rewrite Hab, IH.
Qed.

Lemma tzipS_Some {A B C} (f : A → B → C) nb nh nw (s : tensor3 A) (t : tensor3 B) :
  has_shape3 nb nh nw s → has_shape3 nb nh nw t →
  tzipS f s t = Some (tzip f s t).
Proof.
  intros [Hb Hs] [Hb' Ht]. unfold tzipS, tzip.
  rewrite Forall_lookup in Hs. rewrite Forall_lookup in Ht.
  apply zipS_Some_zip_with.
  apply Forall2_same_length_lookup_2; [lia|]. intros b p q Hp Hq.
  destruct (Hs _ _ Hp) as [Hh Hw]. destruct (Ht _ _ Hq) as [Hh' Hw'].
  rewrite Forall_lookup in Hw. rewrite Forall_lookup in Hw'.
  apply zipS_Some_zip_with.
  apply Forall2_same_length_lookup_2; [lia|]. intros i r r' Hr Hr'.
  specialize (Hw _ _ Hr). specialize (Hw' _ _ Hr').
  apply zipS_Some_zip_with.
  apply Forall2_same_length_lookup_2; [lia|]. done.
Qed.

Lemma tf_stack3_Some nb nh nw (b y x : tensor3 Z) :
  has_shape3 nb nh nw b → has_shape3 nb nh nw y → has_shape3 nb nh nw x →
  tf_stack3 b y x
  = Some (tzip (λ pq r, pq ++ [r]) (tzip (λ p q, [p; q]) b y) x).
Proof.
  intros Hb Hy Hx. unfold tf_stack3.
  rewrite (tzipS_Some _ nb nh nw) by done. simpl.
  apply (tzipS_Some _ nb nh nw); [|done]. by apply has_shape3_tzip.
Qed.

(** Conversely, the strict zip succeeds only on operands of one shape: the
    row lengths of the operands and of the result agree. *)
Lemma zipS_shape {A B C N} (f : A → B → option C)
    (m1 : A → N) (m2 : B → N) (m3 : C → N) l k r :
  (∀ a b c, f a b = Some c → m1 a = m2 b ∧ m3 c = m1 a) →
  zipS f l k = Some r →
  m1 <$> l = m2 <$> k ∧ m3 <$> r = m1 <$> l.
Proof.
  intros Hf. revert k r.
  induction l as [|a l IH]; intros [|b k] r; simpl; try done.
  { by intros [= <-]. }
  destruct (f a b) as [c|] eqn:Hc; simpl; [|done].
  destruct (zipS f l k) as [r'|] eqn:Hr; simpl; [|done].
  intros [= <-]. destruct (Hf _ _ _ Hc) as [E1 E2].
  destruct (IH _ _ Hr) as [E3 E4]. rewrite !fmap_cons.
  split; f_equal; assumption.
Qed.

Lemma tzipS_shape {A B C} (f : A → B → C) (s : tensor3 A) (t : tensor3 B) r :
  tzipS f s t = Some r →
  row_lengths s = row_lengths t ∧ row_lengths r = row_lengths s.
Proof.
  apply zipS_shape. intros p q pq.
  apply zipS_shape. intros a b c Hc.
  destruct (zipS_shape (λ a b, Some (f a b))
              (λ _, ()) (λ _, ()) (λ _, ()) a b c) as [H1 H2];
    [done|exact Hc|].
  apply (f_equal length) in H1, H2.
  repeat rewrite length_fmap in H1. repeat rewrite length_fmap in H2. done.
Qed.

Lemma tf_stack3_shape (b y x : tensor3 Z) r :
  tf_stack3 b y x = Some r → row_lengths y = row_lengths x.
Proof.
  unfold tf_stack3. intros Hr.
  destruct (tzipS _ b y) as [by_|] eqn:Hby; simpl in Hr; [|done].
  apply tzipS_shape in Hby as [Hby1 Hby2]. apply tzipS_shape in Hr as [Hr1 _].
  congruence.
Qed.

Lemma row_lengths_tmap {A B} (f : A → B) (t : tensor3 A) :
  row_lengths (tmap f t) = row_lengths t.
Proof.
  unfold row_lengths, tmap. rewrite <-list_fmap_compose.
  apply list_fmap_ext. intros _ p _. simpl.
  rewrite <-list_fmap_compose. apply list_fmap_ext. intros _ r _. simpl.
  by rewrite length_fmap.
Qed.

(** ** [tf.gather_nd] *)

Lemma tf_gather_nd_Some (img : tensor4) nb nh nw (idx : tensor3 (list Z)) :
  has_shape3 nb nh nw idx →
  (∀ b i j v, get3 idx b i j = Some v → is_Some (gather_nd1 img v)) →
  ∃ out, tf_gather_nd img idx = Some out ∧ has_shape3 nb nh nw out ∧
         ∀ b i j, get3 out b i j = get3 idx b i j ≫= gather_nd1 img.
Proof.
  intros [Hb Hs] Hin. unfold tf_gather_nd.
  destruct (mapM (mapM (mapM (gather_nd1 img))) idx) as [out|] eqn:Hout.
  - exists out. split; [done|].
    apply mapM_Some in Hout. rewrite Forall_lookup in Hs.
    pose proof (Forall2_length _ _ _ Hout) as Hlen.
    split; [split; [lia|]|].
    + apply Forall_lookup. intros b q Hq.
      destruct (Forall2_lookup_r _ _ _ _ _ Hout Hq) as (p & Hp & Hpq).
      apply mapM_Some in Hpq. destruct (Hs _ _ Hp) as [Hh Hw].
      pose proof (Forall2_length _ _ _ Hpq) as Hlen'.
      split; [lia|].
      rewrite Forall_lookup in Hw. apply Forall_lookup. intros i r' Hr'.
      destruct (Forall2_lookup_r _ _ _ _ _ Hpq Hr') as (r & Hr & Hrr).
      apply mapM_Some in Hrr. pose proof (Forall2_length _ _ _ Hrr) as Hlen''.
      specialize (Hw _ _ Hr). lia.
    + intros b i j. unfold get3.
      destruct (idx !! b) as [p|] eqn:Hp; simpl.
      2:{ rewrite (lookup_ge_None_2 out b); [done|].
          apply lookup_ge_None in Hp. lia. }
      destruct (Forall2_lookup_l _ _ _ _ _ Hout Hp) as (q & -> & Hpq). simpl.
      apply mapM_Some in Hpq.
      pose proof (Forall2_length _ _ _ Hpq) as Hlen'.
      destruct (p !! i) as [r|] eqn:Hr; simpl.
      2:{ rewrite (lookup_ge_None_2 q i); [done|].
          apply lookup_ge_None in Hr. lia. }
      destruct (Forall2_lookup_l _ _ _ _ _ Hpq Hr) as (r' & -> & Hrr). simpl.
      apply mapM_Some in Hrr.
      pose proof (Forall2_length _ _ _ Hrr) as Hlen''.
      destruct (r !! j) as [v|] eqn:Hv; simpl.
      2:{ apply lookup_ge_None. apply lookup_ge_None in Hv. lia. }
      destruct (Forall2_lookup_l _ _ _ _ _ Hrr Hv) as (c & -> & Hc). done.
  - exfalso. apply mapM_None in Hout. apply Exists_exists in Hout.
    destruct Hout as (p & [b Hp]%list_elem_of_lookup & Hnone).
    apply mapM_None in Hnone. apply Exists_exists in Hnone.
    destruct Hnone as (r & [i Hr]%list_elem_of_lookup & Hnone).
    apply mapM_None in Hnone. apply Exists_exists in Hnone.
    destruct Hnone as (v & [j Hv]%list_elem_of_lookup & Hnone).
    destruct (Hin b i j v) as [c Hc]; [|congruence].
    apply get3_Some. eauto.
Qed.

(** ** get_pixel_value *)

Lemma get3_batch_tile bs h w b i j v :
  get3 (batch_tile bs h w) b i j = Some v → v = Z.of_nat b.
Proof.
  intros (p & r & Hp & Hr & Hv)%get3_Some. unfold batch_tile in Hp.
  apply list_lookup_fmap_Some in Hp as (k & -> & Hk).
  apply lookup_seqZ in Hk as [-> _].
  apply lookup_replicate in Hr as [-> _].
  apply lookup_replicate in Hv as [-> _]. lia.
Qed.

Lemma shape3_has_shape3 {A} nb nh nw (x : tensor3 A) :
  has_shape3 nb nh nw x →
  ∃ h w, shape3 x = (nb, h, w) ∧
         ((0 < nb)%nat → h = nh) ∧ ((0 < nb)%nat → (0 < nh)%nat → w = nw).
Proof.
  intros [Hb Hs]. unfold shape3. rewrite Hb.
  destruct x as [|p x]; simpl in *.
  { eexists _, _. split; [done|]. split; intros; lia. }
  apply Forall_cons in Hs as [[Hh Hw] _].
  eexists _, _. split; [done|]. split; [done|]. intros _ Hnh.
  destruct p as [|r p]; simpl in *; [lia|].
  by apply Forall_cons in Hw as [Hr _].
Qed.

Lemma batch_tile_has_shape3 {A} nb nh nw (x : tensor3 A) :
  has_shape3 nb nh nw x →
  has_shape3 nb nh nw
    (batch_tile (shape3 x).1.1 (shape3 x).1.2 (shape3 x).2).
Proof.
  intros Hx. destruct (shape3_has_shape3 _ _ _ _ Hx) as (h & w & -> & Hh & Hw).
  simpl. unfold batch_tile. split.
  { rewrite length_fmap, length_seqZ. lia. }
  rewrite Forall_fmap. apply Forall_forall. intros k Hk. simpl.
  apply list_elem_of_lookup in Hk as [b Hb%lookup_seqZ].
  assert (0 < nb)%nat by lia.
  rewrite length_replicate. split; [by apply Hh|].
  apply Forall_forall. intros r [-> Hne]%elem_of_replicate.
  rewrite length_replicate. apply Hw; [done|]. rewrite <-Hh by done. lia.
Qed.

Lemma get_pixel_value_Some (img : tensor4) nb nh nw (x y : tensor3 Z) :
  has_shape3 nb nh nw x → has_shape3 nb nh nw y →
  (∀ b i j xv yv, get3 x b i j = Some xv → get3 y b i j = Some yv →
                  is_Some (gather_nd1 img [Z.of_nat b; yv; xv])) →
  ∃ out, get_pixel_value img x y = Some out ∧ has_shape3 nb nh nw out ∧
         ∀ b i j xv yv, get3 x b i j = Some xv → get3 y b i j = Some yv →
                        get3 out b i j = gather_nd1 img [Z.of_nat b; yv; xv].
Proof.
  intros Hx Hy Hin. unfold get_pixel_value.
  pose proof (batch_tile_has_shape3 _ _ _ _ Hx) as Hb.
  destruct (shape3 x) as [[bs h] w]; simpl in Hb.
  rewrite (tf_stack3_Some nb nh nw) by done. simpl.
  set (idx := tzip _ _ x).
  assert (∀ b i j v, get3 idx b i j = Some v →
            ∃ xv yv, get3 x b i j = Some xv ∧ get3 y b i j = Some yv ∧
                     v = [Z.of_nat b; yv; xv]) as Hidx.
  { intros b i j v. unfold idx. rewrite !get3_tzip.
    destruct (get3 (batch_tile bs h w) b i j) as [bv|] eqn:Hbv; simpl; [|done].
    apply get3_batch_tile in Hbv as ->.
    destruct (get3 y b i j) as [yv|]; simpl; [|done].
    destruct (get3 x b i j) as [xv|]; simpl; [|done].
    intros [= <-]. eauto. }
  destruct (tf_gather_nd_Some img nb nh nw idx) as (out & Hout & Hshape & Hget).
  { unfold idx. repeat apply has_shape3_tzip; done. }
  { intros b i j v (xv & yv & Hxv & Hyv & ->)%Hidx. eauto. }
  exists out. split; [done|]. split; [done|].
  intros b i j xv yv Hxv Hyv. rewrite Hget.
  destruct (get3 idx b i j) as [v|] eqn:Hv; simpl.
  - apply Hidx in Hv as (xv' & yv' & Hxv' & Hyv' & ->). simpl.
    by simplify_eq.
  - exfalso. destruct (has_shape3_lookup nb nh nw idx b i j) as [_ [? Hs]].
    { unfold idx. repeat apply has_shape3_tzip; done. }
    { apply (has_shape3_lookup nb nh nw x b i j); [done|]. eauto. }
    congruence.
Qed.

(** ** bilinear_sampler, position by position *)

Section sampler_lookup.
Variables (img : tensor4) (x y : tensor3 Q).

Lemma get3_c_x b i j :
  get3 (c_x (sampler_corners img x y)) b i j
  = rescale (dim_W img - 1) <$> get3 x b i j.
Proof. apply get3_tmap. Qed.

Lemma get3_c_y b i j :
  get3 (c_y (sampler_corners img x y)) b i j
  = rescale (dim_H img - 1) <$> get3 y b i j.
Proof. apply get3_tmap. Qed.

Lemma get3_c_x0 b i j :
  get3 (c_x0 (sampler_corners img x y)) b i j
  = (λ v, corner0 (dim_W img - 1) (rescale (dim_W img - 1) v)) <$> get3 x b i j.
Proof. simpl. rewrite !get3_tmap. by destruct (get3 x b i j). Qed.

Lemma get3_c_x1 b i j :
  get3 (c_x1 (sampler_corners img x y)) b i j
  = (λ v, corner1 (dim_W img - 1) (rescale (dim_W img - 1) v)) <$> get3 x b i j.
Proof. simpl. rewrite !get3_tmap. by destruct (get3 x b i j). Qed.

Lemma get3_c_y0 b i j :
  get3 (c_y0 (sampler_corners img x y)) b i j
  = (λ v, corner0 (dim_H img - 1) (rescale (dim_H img - 1) v)) <$> get3 y b i j.
Proof. simpl. rewrite !get3_tmap. by destruct (get3 y b i j). Qed.

Lemma get3_c_y1 b i j :
  get3 (c_y1 (sampler_corners img x y)) b i j
  = (λ v, corner1 (dim_H img - 1) (rescale (dim_H img - 1) v)) <$> get3 y b i j.
Proof. simpl. rewrite !get3_tmap. by destruct (get3 y b i j). Qed.

(** The four weight tensors hold [weights_at] at every position. *)
Lemma get3_sampler_weights b i j xn yn :
  get3 x b i j = Some xn → get3 y b i j = Some yn →
  let '(wa, wb, wc, wd) := sampler_weights (sampler_corners img x y) in
  let '(a, b', c', d) :=
    weights_at (dim_W img - 1) (dim_H img - 1)
      (rescale (dim_W img - 1) xn) (rescale (dim_H img - 1) yn) in
  get3 wa b i j = Some a ∧ get3 wb b i j = Some b' ∧
  get3 wc b i j = Some c' ∧ get3 wd b i j = Some d.
Proof.
  intros Hx Hy. unfold sampler_weights, weights_at.
  rewrite !get3_tzip, !get3_tmap.
  rewrite get3_c_x, get3_c_y, get3_c_x0, get3_c_x1, get3_c_y0, get3_c_y1.
  rewrite Hx, Hy. simpl. done.
Qed.
End sampler_lookup.

Lemma sampler_corners_shape img nb nh nw (x y : tensor3 Q) :
  has_shape3 nb nh nw x → has_shape3 nb nh nw y →
  let c := sampler_corners img x y in
  has_shape3 nb nh nw (c_x c) ∧ has_shape3 nb nh nw (c_y c) ∧
  has_shape3 nb nh nw (c_x0 c) ∧ has_shape3 nb nh nw (c_x1 c) ∧
  has_shape3 nb nh nw (c_y0 c) ∧ has_shape3 nb nh nw (c_y1 c).
Proof. intros Hx Hy. simpl. split_and!; by repeat apply has_shape3_tmap. Qed.

Lemma sample_pixel_Some img b xn yn v :
  sample_pixel img b xn yn = Some v ↔
  let max_x := (dim_W img - 1)%Z in
  let max_y := (dim_H img - 1)%Z in
  let px := rescale max_x xn in
  let py := rescale max_y yn in
  ∃ Ia Ib Ic Id,
    gather_nd1 img [Z.of_nat b; corner0 max_y py; corner0 max_x px] = Some Ia ∧
    gather_nd1 img [Z.of_nat b; corner1 max_y py; corner0 max_x px] = Some Ib ∧
    gather_nd1 img [Z.of_nat b; corner0 max_y py; corner1 max_x px] = Some Ic ∧
    gather_nd1 img [Z.of_nat b; corner1 max_y py; corner1 max_x px] = Some Id ∧
    v = blend (weights_at max_x max_y px py) Ia Ib Ic Id.
Proof.
  unfold sample_pixel. cbv zeta. split.
  - intros H.
    repeat match type of H with
           | (?o ≫= _) = Some _ => destruct o eqn:?; simpl in H; [|done]
           end.
    injection H as <-. by eexists _, _, _, _.
  - intros (Ia & Ib & Ic & Id & -> & -> & -> & -> & ->). done.
Qed.

(** The tensor program computes [sample_pixel] at every position, and it
    succeeds as soon as every position can be sampled. *)
Lemma bilinear_sampler_pixelwise img nb nh nw (x y : tensor3 Q) :
  has_shape3 nb nh nw x → has_shape3 nb nh nw y →
  (∀ b i j xn yn, get3 x b i j = Some xn → get3 y b i j = Some yn →
                  is_Some (sample_pixel img b xn yn)) →
  ∃ out, bilinear_sampler img x y = Some out ∧ has_shape3 nb nh nw out ∧
         ∀ b i j xn yn, get3 x b i j = Some xn → get3 y b i j = Some yn →
                        get3 out b i j = sample_pixel img b xn yn.
Proof.
  intros Hx Hy Hin. unfold bilinear_sampler.
  destruct (sampler_corners_shape img _ _ _ _ _ Hx Hy)
    as (Hcx & Hcy & Hx0 & Hx1 & Hy0 & Hy1).
  set (c := sampler_corners img x y) in *.
  assert (∀ b i j xn yn, get3 x b i j = Some xn → get3 y b i j = Some yn →
            ∃ v, sample_pixel img b xn yn = Some v) as Hin'.
  { intros. by eapply Hin. }
  destruct (get_pixel_value_Some img nb nh nw (c_x0 c) (c_y0 c))
    as (Ia & -> & HIa & Ha); [done..| |].
  { intros b i j xv yv. unfold c. rewrite get3_c_x0, get3_c_y0.
    intros (xn & Hxn & ->)%fmap_Some (yn & Hyn & ->)%fmap_Some.
    destruct (Hin' _ _ _ _ _ Hxn Hyn) as [v Hv].
    apply sample_pixel_Some in Hv as (? & ? & ? & ? & ? & ? & ? & ? & _). eauto. }
  destruct (get_pixel_value_Some img nb nh nw (c_x0 c) (c_y1 c))
    as (Ib & -> & HIb & Hb); [done..| |].
  { intros b i j xv yv. unfold c. rewrite get3_c_x0, get3_c_y1.
    intros (xn & Hxn & ->)%fmap_Some (yn & Hyn & ->)%fmap_Some.
    destruct (Hin' _ _ _ _ _ Hxn Hyn) as [v Hv].
    apply sample_pixel_Some in Hv as (? & ? & ? & ? & ? & ? & ? & ? & _). eauto. }
  destruct (get_pixel_value_Some img nb nh nw (c_x1 c) (c_y0 c))
    as (Ic & -> & HIc & Hc); [done..| |].
  { intros b i j xv yv. unfold c. rewrite get3_c_x1, get3_c_y0.
    intros (xn & Hxn & ->)%fmap_Some (yn & Hyn & ->)%fmap_Some.
    destruct (Hin' _ _ _ _ _ Hxn Hyn) as [v Hv].
    apply sample_pixel_Some in Hv as (? & ? & ? & ? & ? & ? & ? & ? & _). eauto. }
  destruct (get_pixel_value_Some img nb nh nw (c_x1 c) (c_y1 c))
    as (Id & -> & HId & Hd); [done..| |].
  { intros b i j xv yv. unfold c. rewrite get3_c_x1, get3_c_y1.
    intros (xn & Hxn & ->)%fmap_Some (yn & Hyn & ->)%fmap_Some.
    destruct (Hin' _ _ _ _ _ Hxn Hyn) as [v Hv].
    apply sample_pixel_Some in Hv as (? & ? & ? & ? & ? & ? & ? & ? & _). eauto. }
  assert (∃ WA WB WC WD, sampler_weights c = (WA, WB, WC, WD) ∧
            has_shape3 nb nh nw WA ∧ has_shape3 nb nh nw WB ∧
            has_shape3 nb nh nw WC ∧ has_shape3 nb nh nw WD)
    as (WA & WB & WC & WD & HW & HWA & HWB & HWC & HWD).
  { eexists _, _, _, _. split; [done|].
    split_and!; repeat (apply has_shape3_tzip || apply has_shape3_tmap); done. }
  pose proof (get3_sampler_weights img x y) as Hw. fold c in Hw.
  rewrite HW in Hw |- *. simpl. eexists. split; [done|].
  split.
  { unfold tf_add4, tf_mul4, expand_dims3.
    repeat (apply has_shape3_tzip || apply has_shape3_tmap); done. }
  intros b i j xn yn Hxn Hyn. specialize (Hw b i j xn yn Hxn Hyn).
  destruct (weights_at _ _ _ _) as [[[wa wb] wc] wd] eqn:Hweights.
  destruct Hw as (Hwa & Hwb & Hwc & Hwd).
  destruct (Hin' _ _ _ _ _ Hxn Hyn) as [v Hv]. rewrite Hv.
  apply sample_pixel_Some in Hv as (va & vb & vc & vd & Hva & Hvb & Hvc & Hvd & ->).
  cbv zeta in *. rewrite Hweights.
  unfold tf_add4, tf_mul4, expand_dims3.
  rewrite !get3_tzip, !get3_tmap, Hwa, Hwb, Hwc, Hwd.
  rewrite (Ha b i j (corner0 (dim_W img - 1) (rescale (dim_W img - 1) xn))
                    (corner0 (dim_H img - 1) (rescale (dim_H img - 1) yn)));
    [|unfold c; rewrite ?get3_c_x0, ?get3_c_y0, ?Hxn, ?Hyn; done..].
  rewrite (Hb b i j (corner0 (dim_W img - 1) (rescale (dim_W img - 1) xn))
                    (corner1 (dim_H img - 1) (rescale (dim_H img - 1) yn)));
    [|unfold c; rewrite ?get3_c_x0, ?get3_c_y1, ?Hxn, ?Hyn; done..].
  rewrite (Hc b i j (corner1 (dim_W img - 1) (rescale (dim_W img - 1) xn))
                    (corner0 (dim_H img - 1) (rescale (dim_H img - 1) yn)));
    [|unfold c; rewrite ?get3_c_x1, ?get3_c_y0, ?Hxn, ?Hyn; done..].
  rewrite (Hd b i j (corner1 (dim_W img - 1) (rescale (dim_W img - 1) xn))
                    (corner1 (dim_H img - 1) (rescale (dim_H img - 1) yn)));
    [|unfold c; rewrite ?get3_c_x1, ?get3_c_y1, ?Hxn, ?Hyn; done..].
  rewrite Hva, Hvb, Hvc, Hvd. done.
Qed.

(** ** Clipping and the two corners of a coordinate *)

Lemma Qfloor_neg p : p < 0 → (Qfloor p < 0)%Z.
Proof.
  intros Hp. pose proof (Qfloor_le p) as Hle.
  destruct (Z_lt_le_dec (Qfloor p) 0) as [|Hge]; [done|].
  exfalso. assert (0 <= inject_Z (Qfloor p)) as H0.
  { change 0 with (inject_Z 0). by rewrite <-Zle_Qle. }
  lra.
Qed.

Lemma Qfloor_ge (n : Z) p : inject_Z n <= p → (n ≤ Qfloor p)%Z.
Proof.
  intros Hn. rewrite <-(Qfloor_Z n). by apply Qfloor_resp_le.
Qed.

Lemma Qfloor_lt (n : Z) p : p < inject_Z n → (Qfloor p < n)%Z.
Proof.
  intros Hn. pose proof (Qfloor_le p) as Hle.
  rewrite Zlt_Qlt. lra.
Qed.

(** Outside [0, max_d) the two corners coincide after the clip. *)
Lemma corners_coincide max_d p :
  p < 0 ∨ inject_Z max_d <= p → corner0 max_d p = corner1 max_d p.
Proof.
  unfold corner0, corner1, clip_by_value. intros [Hneg|Hge].
  - apply Qfloor_neg in Hneg. lia.
  - apply Qfloor_ge in Hge. lia.
Qed.

(** Inside [0, max_d) the clip changes neither corner. *)
Lemma corners_inside max_d p :
  0 <= p → p < inject_Z max_d →
  corner0 max_d p = Qfloor p ∧ corner1 max_d p = (Qfloor p + 1)%Z.
Proof.
  intros H0 Hlt. unfold corner0, corner1, clip_by_value.
  apply (Qfloor_ge 0) in H0. apply Qfloor_lt in Hlt. lia.
Qed.

(** The corners differ exactly when the coordinate is inside [0, max_d). *)
Lemma corners_differ max_d p :
  corner0 max_d p ≠ corner1 max_d p →
  corner0 max_d p = Qfloor p ∧ corner1 max_d p = (Qfloor p + 1)%Z.
Proof.
  intros Hne. apply corners_inside.
  - destruct (Qlt_le_dec p 0) as [Hlt|]; [|done].
    destruct Hne. apply corners_coincide. by left.
  - destruct (Qlt_le_dec p (inject_Z max_d)) as [|Hge]; [done|].
    destruct Hne. apply corners_coincide. by right.
Qed.

(** ** Reads inside the image *)

Lemma dims_has_shape3 (img : tensor4) nb nh nw :
  has_shape3 nb nh nw img → (0 < nb)%nat → (0 < nh)%nat →
  dim_H img = Z.of_nat nh ∧ dim_W img = Z.of_nat nw.
Proof.
  intros Himg Hb Hh. unfold dim_H, dim_W.
  destruct (shape3_has_shape3 _ _ _ _ Himg) as (h & w & -> & Hh' & Hw').
  simpl. rewrite Hh', Hw' by done. done.
Qed.

Lemma gather_nd1_get3 (img : tensor4) (b : nat) (yv xv : Z) :
  (0 ≤ yv)%Z → (0 ≤ xv)%Z →
  gather_nd1 img [Z.of_nat b; yv; xv] = get3 img b (Z.to_nat yv) (Z.to_nat xv).
Proof.
  intros Hy Hx. unfold gather_nd1.
  rewrite decide_True by lia. by rewrite Nat2Z.id.
Qed.

Lemma gather_nd1_is_Some (img : tensor4) nb nh nw (b : nat) (yv xv : Z) :
  has_shape3 nb nh nw img → (b < nb)%nat →
  (0 ≤ yv < Z.of_nat nh)%Z → (0 ≤ xv < Z.of_nat nw)%Z →
  is_Some (gather_nd1 img [Z.of_nat b; yv; xv]).
Proof.
  intros Himg Hb Hy Hx. rewrite gather_nd1_get3 by lia.
  apply (has_shape3_lookup nb nh nw); [done|]. lia.
Qed.

(** The corner indices of the sampler are inside a (nh, nw) image, whatever
    the coordinate. *)
Lemma corner_in_image (img : tensor4) nb nh nw :
  has_shape3 nb nh nw img → (0 < nh)%nat → (0 < nw)%nat →
  ∀ p,
    (0 ≤ corner0 (dim_W img - 1) p < Z.of_nat nw)%Z ∧
    (0 ≤ corner1 (dim_W img - 1) p < Z.of_nat nw)%Z ∧
    (0 ≤ corner0 (dim_H img - 1) p < Z.of_nat nh)%Z ∧
    (0 ≤ corner1 (dim_H img - 1) p < Z.of_nat nh)%Z.
Proof.
  intros Himg Hh Hw p.
  destruct (decide (0 < nb)%nat) as [Hb|Hb].
  - destruct (dims_has_shape3 img nb nh nw) as [-> ->]; [done..|].
    unfold corner0, corner1, clip_by_value. lia.
  - assert (img = []) as ->.
    { destruct Himg as [Hlen _]. apply length_zero_iff_nil. lia. }
    unfold corner0, corner1, clip_by_value, dim_W, dim_H. simpl. lia.
Qed.

Lemma sample_pixel_is_Some (img : tensor4) nb nh nw b xn yn :
  has_shape3 nb nh nw img → (0 < nh)%nat → (0 < nw)%nat → (b < nb)%nat →
  is_Some (sample_pixel img b xn yn).
Proof.
  intros Himg Hh Hw Hb.
  pose proof (corner_in_image img nb nh nw Himg Hh Hw) as Hc.
  unfold sample_pixel. cbv zeta.
  destruct (Hc (rescale (dim_W img - 1) xn)) as (Hx0 & Hx1 & _ & _).
  destruct (Hc (rescale (dim_H img - 1) yn)) as (_ & _ & Hy0 & Hy1).
  destruct (gather_nd1_is_Some img nb nh nw b _ _ Himg Hb Hy0 Hx0) as [Ia ->].
  destruct (gather_nd1_is_Some img nb nh nw b _ _ Himg Hb Hy1 Hx0) as [Ib ->].
  destruct (gather_nd1_is_Some img nb nh nw b _ _ Himg Hb Hy0 Hx1) as [Ic ->].
  destruct (gather_nd1_is_Some img nb nh nw b _ _ Himg Hb Hy1 Hx1) as [Id ->].
  simpl. eauto.
Qed.

(** The sampler rejects coordinate tensors of different shapes, at its first
    gather: this is why its elementwise operations are modelled as zips. *)
Lemma bilinear_sampler_same_shape (img : tensor4) (x y : tensor3 Q) out :
  bilinear_sampler img x y = Some out → row_lengths x = row_lengths y.
Proof.
  unfold bilinear_sampler. intros Hout.
  destruct (get_pixel_value img (c_x0 (sampler_corners img x y))
              (c_y0 (sampler_corners img x y))) as [Ia|] eqn:HIa; [|done].
  clear Hout. unfold get_pixel_value in HIa.
  destruct (shape3 _) as [[bs h] w].
  destruct (tf_stack3 _ _ _) as [idx|] eqn:Hidx; simpl in HIa; [|done].
  apply tf_stack3_shape in Hidx. simpl in Hidx.
  by rewrite !row_lengths_tmap in Hidx.
Qed.

(** The sampler is total on an image with at least one row and one column
    and coordinate tensors of one shape over the same batch. *)
Lemma bilinear_sampler_total (img : tensor4) nb nh nw oh ow (x y : tensor3 Q) :
  has_shape3 nb nh nw img → (0 < nh)%nat → (0 < nw)%nat →
  has_shape3 nb oh ow x → has_shape3 nb oh ow y →
  ∃ out, bilinear_sampler img x y = Some out ∧ has_shape3 nb oh ow out ∧
         ∀ b i j xn yn, get3 x b i j = Some xn → get3 y b i j = Some yn →
                        get3 out b i j = sample_pixel img b xn yn.
Proof.
  intros Himg Hh Hw Hx Hy. apply bilinear_sampler_pixelwise; [done..|].
  intros b i j xn yn Hxn Hyn.
  apply (sample_pixel_is_Some img nb nh nw); [done..|].
  apply (has_shape3_lookup nb oh ow x b i j); [done|]. eauto.
Qed.

(** ** The bilinear weights *)

Lemma weights_at_cancel_x max_x max_y px py :
  corner0 max_x px = corner1 max_x px →
  let '(wa, wb, wc, wd) := weights_at max_x max_y px py in
  wa + wc == 0 ∧ wb + wd == 0.
Proof. intros Heq. unfold weights_at. cbv zeta. rewrite Heq. split; ring. Qed.

Lemma weights_at_cancel_y max_x max_y px py :
  corner0 max_y py = corner1 max_y py →
  let '(wa, wb, wc, wd) := weights_at max_x max_y px py in
  wa + wb == 0 ∧ wc + wd == 0.
Proof. intros Heq. unfold weights_at. cbv zeta. rewrite Heq. split; ring. Qed.

Lemma blend_lookup wa wb wc wd (Ia Ib Ic Id : list Q) k v :
  blend (wa, wb, wc, wd) Ia Ib Ic Id !! k = Some v →
  ∃ a b c d, Ia !! k = Some a ∧ Ib !! k = Some b ∧
             Ic !! k = Some c ∧ Id !! k = Some d ∧
             v = wa * a + wb * b + wc * c + wd * d.
Proof.
  unfold blend, bcast_mul.
  intros (vabc & vd & -> & (vab & vc & -> & Hab & Hc)%lookup_zip_with_Some
                & Hd)%lookup_zip_with_Some.
  apply lookup_zip_with_Some in Hab as (va & vb & -> & Ha & Hb).
  apply list_lookup_fmap_Some in Ha as (a & -> & Ha).
  apply list_lookup_fmap_Some in Hb as (b & -> & Hb).
  apply list_lookup_fmap_Some in Hc as (c & -> & Hc).
  apply list_lookup_fmap_Some in Hd as (d & -> & Hd).
  by exists a, b, c, d.
Qed.

(** A sample whose rescaled x coordinate is outside [0, max_x) is 0 in every
    channel: both x corners are the same edge column, and the weights of
    the two columns cancel. *)
Lemma sample_pixel_zero_x img b xn yn v :
  let max_x := (dim_W img - 1)%Z in
  rescale max_x xn < 0 ∨ inject_Z max_x <= rescale max_x xn →
  sample_pixel img b xn yn = Some v →
  Forall (λ q, q == 0) v.
Proof.
  intros max_x Hout%corners_coincide
    (Ia & Ib & Ic & Id & HIa & HIb & HIc & HId & ->)%sample_pixel_Some.
  cbv zeta in *. fold max_x in HIa, HIb, HIc, HId |- *.
  rewrite <-Hout in HIc, HId.
  assert (Ic = Ia) as -> by congruence. assert (Id = Ib) as -> by congruence.
  pose proof (weights_at_cancel_x max_x (dim_H img - 1) (rescale max_x xn)
                (rescale (dim_H img - 1) yn) Hout) as Hw.
  destruct (weights_at _ _ _ _) as [[[wa wb] wc] wd]. destruct Hw as [Hac Hbd].
  apply Forall_lookup. intros k q (a & c & a' & c' & Ha & Hc & Ha' & Hc' & ->)%blend_lookup.
  simplify_eq.
  transitivity ((wa + wc) * a + (wb + wd) * c); [ring|].
  rewrite Hac, Hbd. ring.
Qed.

Lemma sample_pixel_zero_y img b xn yn v :
  let max_y := (dim_H img - 1)%Z in
  rescale max_y yn < 0 ∨ inject_Z max_y <= rescale max_y yn →
  sample_pixel img b xn yn = Some v →
  Forall (λ q, q == 0) v.
Proof.
  intros max_y Hout%corners_coincide
    (Ia & Ib & Ic & Id & HIa & HIb & HIc & HId & ->)%sample_pixel_Some.
  cbv zeta in *. fold max_y in HIa, HIb, HIc, HId |- *.
  rewrite <-Hout in HIb, HId.
  assert (Ib = Ia) as -> by congruence. assert (Id = Ic) as -> by congruence.
  pose proof (weights_at_cancel_y (dim_W img - 1) max_y
                (rescale (dim_W img - 1) xn) (rescale max_y yn) Hout) as Hw.
  destruct (weights_at _ _ _ _) as [[[wa wb] wc] wd]. destruct Hw as [Hab Hcd].
  apply Forall_lookup. intros k q (a & a' & c & c' & Ha & Ha' & Hc & Hc' & ->)%blend_lookup.
  simplify_eq.
  transitivity ((wa + wb) * a + (wc + wd) * c); [ring|].
  rewrite Hab, Hcd. ring.
Qed.

(** The weight tensors at one position, with the coordinate read back from
    the corner tensors. *)
Lemma get3_weights img (x y : tensor3 Q) b i j xn yn :
  get3 x b i j = Some xn → get3 y b i j = Some yn →
  let c := sampler_corners img x y in
  let max_x := (dim_W img - 1)%Z in
  let max_y := (dim_H img - 1)%Z in
  let w := weights_at max_x max_y (rescale max_x xn) (rescale max_y yn) in
  get3 (w_a c) b i j = Some w.1.1.1 ∧ get3 (w_b c) b i j = Some w.1.1.2 ∧
  get3 (w_c c) b i j = Some w.1.2 ∧ get3 (w_d c) b i j = Some w.2.
Proof.
  intros Hx Hy c max_x max_y w.
  pose proof (get3_sampler_weights img x y b i j xn yn Hx Hy) as Hw.
  unfold w_a, w_b, w_c, w_d, w, max_x, max_y, c.
  destruct (sampler_weights _) as [[[WA WB] WC] WD].
  destruct (weights_at _ _ _ _) as [[[wa wb] wc] wd]. done.
Qed.

(** ** Samples outside the image *)

Lemma sampler_zero_outside (img : tensor4) nb nh nw oh ow (x y : tensor3 Q)
    out b i j xn yn :
  has_shape3 nb nh nw img → (0 < nh)%nat → (0 < nw)%nat →
  has_shape3 nb oh ow x → has_shape3 nb oh ow y →
  bilinear_sampler img x y = Some out →
  get3 x b i j = Some xn → get3 y b i j = Some yn →
  let px := rescale (Z.of_nat nw - 1) xn in
  let py := rescale (Z.of_nat nh - 1) yn in
  px < 0 ∨ inject_Z (Z.of_nat nw - 1) <= px ∨
  py < 0 ∨ inject_Z (Z.of_nat nh - 1) <= py →
  ∃ v, get3 out b i j = Some v ∧ Forall (λ q, q == 0) v.
Proof.
  intros Himg Hh Hw Hx Hy Hout Hxn Hyn px py Hoff.
  destruct (bilinear_sampler_total img nb nh nw oh ow x y)
    as (out' & Hout' & _ & Hget); [done..|].
  assert (out' = out) as -> by congruence.
  assert (b < nb)%nat as Hb.
  { apply (has_shape3_lookup nb oh ow x b i j); [done|]. eauto. }
  destruct (dims_has_shape3 img nb nh nw) as [HH HW]; [done|lia|done|].
  destruct (sample_pixel_is_Some img nb nh nw b xn yn) as [v Hv]; [done..|].
  exists v. split; [by rewrite (Hget b i j xn yn)|].
  unfold px, py in Hoff. rewrite <-HH, <-HW in Hoff.
  destruct Hoff as [Hoff|[Hoff|[Hoff|Hoff]]].
  - eapply sample_pixel_zero_x; [|done]. by left.
  - eapply sample_pixel_zero_x; [|done]. by right.
  - eapply sample_pixel_zero_y; [|done]. by left.
  - eapply sample_pixel_zero_y; [|done]. by right.
Qed.

(** The output at one position is the sum of four products, as line 207
    writes it: the four weights at that position with the four pixels read
    at the clipped corners. *)
Lemma sampler_four_terms (img : tensor4) nb nh nw oh ow (x y : tensor3 Q)
    out b i j xn yn :
  has_shape3 nb nh nw img → (0 < nh)%nat → (0 < nw)%nat →
  has_shape3 nb oh ow x → has_shape3 nb oh ow y →
  bilinear_sampler img x y = Some out →
  get3 x b i j = Some xn → get3 y b i j = Some yn →
  let c := sampler_corners img x y in
  let max_x := (Z.of_nat nw - 1)%Z in
  let max_y := (Z.of_nat nh - 1)%Z in
  let px := rescale max_x xn in
  let py := rescale max_y yn in
  let w := weights_at max_x max_y px py in
  get3 (w_a c) b i j = Some w.1.1.1 ∧ get3 (w_b c) b i j = Some w.1.1.2 ∧
  get3 (w_c c) b i j = Some w.1.2 ∧ get3 (w_d c) b i j = Some w.2 ∧
  get3 (c_x0 c) b i j = Some (corner0 max_x px) ∧
  get3 (c_x1 c) b i j = Some (corner1 max_x px) ∧
  get3 (c_y0 c) b i j = Some (corner0 max_y py) ∧
  get3 (c_y1 c) b i j = Some (corner1 max_y py) ∧
  ∃ pa pb pc pd,
    gather_nd1 img [Z.of_nat b; corner0 max_y py; corner0 max_x px] = Some pa ∧
    gather_nd1 img [Z.of_nat b; corner1 max_y py; corner0 max_x px] = Some pb ∧
    gather_nd1 img [Z.of_nat b; corner0 max_y py; corner1 max_x px] = Some pc ∧
    gather_nd1 img [Z.of_nat b; corner1 max_y py; corner1 max_x px] = Some pd ∧
    get3 out b i j = Some (blend w pa pb pc pd).
Proof.
  intros Himg Hh Hw Hx Hy Hout Hxn Hyn c max_x max_y px py w.
  destruct (bilinear_sampler_total img nb nh nw oh ow x y)
    as (out' & Hout' & _ & Hget); [done..|].
  assert (out' = out) as -> by congruence.
  assert (b < nb)%nat as Hb.
  { apply (has_shape3_lookup nb oh ow x b i j); [done|]. eauto. }
  destruct (dims_has_shape3 img nb nh nw) as [HH HW]; [done|lia|done|].
  destruct (get3_weights img x y b i j xn yn Hxn Hyn) as (Ha & Hb' & Hc & Hd).
  fold c in Ha, Hb', Hc, Hd. rewrite HH, HW in Ha, Hb', Hc, Hd.
  fold max_x max_y px py w in Ha, Hb', Hc, Hd.
  split_and!; [done|done|done|done|..].
  - unfold c. rewrite get3_c_x0, Hxn, HW. done.
  - unfold c. rewrite get3_c_x1, Hxn, HW. done.
  - unfold c. rewrite get3_c_y0, Hyn, HH. done.
  - unfold c. rewrite get3_c_y1, Hyn, HH. done.
  - destruct (sample_pixel_is_Some img nb nh nw b xn yn) as [v Hv]; [done..|].
    pose proof Hv as Hv'.
    apply sample_pixel_Some in Hv' as (pa & pb & pc & pd & Hpa & Hpb & Hpc & Hpd & ->).
    cbv zeta in *. rewrite HH, HW in Hpa, Hpb, Hpc, Hpd, Hv.
    exists pa, pb, pc, pd. split_and!; [done..|].
    by rewrite (Hget b i j xn yn).
Qed.

(** Where the two corners of an axis coincide the four products cancel in
    pairs, so that their sum is 0 over the rationals. *)
Lemma blend_cancel_x wa wb wc wd (pa pb : list Q) :
  wa + wc == 0 → wb + wd == 0 →
  Forall (λ q, q == 0) (blend (wa, wb, wc, wd) pa pb pa pb).
Proof.
  intros Hac Hbd. apply Forall_lookup.
  intros k q (a & c & a' & c' & Ha & Hc & Ha' & Hc' & ->)%blend_lookup.
  simplify_eq.
  transitivity ((wa + wc) * a + (wb + wd) * c); [ring|].
  rewrite Hac, Hbd. ring.
Qed.

Lemma blend_cancel_y wa wb wc wd (pa pc : list Q) :
  wa + wb == 0 → wc + wd == 0 →
  Forall (λ q, q == 0) (blend (wa, wb, wc, wd) pa pa pc pc).
Proof.
  intros Hab Hcd. apply Forall_lookup.
  intros k q (a & a' & c & c' & Ha & Ha' & Hc & Hc' & ->)%blend_lookup.
  simplify_eq.
  transitivity ((wa + wb) * a + (wc + wd) * c); [ring|].
  rewrite Hab, Hcd. ring.
Qed.

(** The same, with everything that the sampler computes at a position whose
    rescaled x (or y) is outside the image: the corner indices, the pixels
    read, the weights and the output. *)
Lemma sampler_pairs_outside (img : tensor4) nb nh nw oh ow (x y : tensor3 Q)
    out b i j xn yn :
  has_shape3 nb nh nw img → (0 < nh)%nat → (0 < nw)%nat →
  has_shape3 nb oh ow x → has_shape3 nb oh ow y →
  bilinear_sampler img x y = Some out →
  get3 x b i j = Some xn → get3 y b i j = Some yn →
  let c := sampler_corners img x y in
  let max_x := (Z.of_nat nw - 1)%Z in
  let max_y := (Z.of_nat nh - 1)%Z in
  let px := rescale max_x xn in
  let py := rescale max_y yn in
  ∃ wa wb wc wd x0 x1 y0 y1 pa pb pc pd v,
    get3 (w_a c) b i j = Some wa ∧ get3 (w_b c) b i j = Some wb ∧
    get3 (w_c c) b i j = Some wc ∧ get3 (w_d c) b i j = Some wd ∧
    get3 (c_x0 c) b i j = Some x0 ∧ get3 (c_x1 c) b i j = Some x1 ∧
    get3 (c_y0 c) b i j = Some y0 ∧ get3 (c_y1 c) b i j = Some y1 ∧
    gather_nd1 img [Z.of_nat b; y0; x0] = Some pa ∧
    gather_nd1 img [Z.of_nat b; y1; x0] = Some pb ∧
    gather_nd1 img [Z.of_nat b; y0; x1] = Some pc ∧
    gather_nd1 img [Z.of_nat b; y1; x1] = Some pd ∧
    get3 out b i j = Some v ∧ v = blend (wa, wb, wc, wd) pa pb pc pd ∧
    (px < 0 ∨ inject_Z max_x <= px →
       x0 = x1 ∧ pa = pc ∧ pb = pd ∧ wa + wc == 0 ∧ wb + wd == 0 ∧
       Forall (λ q, q == 0) v) ∧
    (py < 0 ∨ inject_Z max_y <= py →
       y0 = y1 ∧ pa = pb ∧ pc = pd ∧ wa + wb == 0 ∧ wc + wd == 0 ∧
       Forall (λ q, q == 0) v).
Proof.
  intros Himg Hh Hw Hx Hy Hout Hxn Hyn c max_x max_y px py.
  destruct (sampler_four_terms img nb nh nw oh ow x y out b i j xn yn)
    as (Ha & Hb & Hc & Hd & Hx0 & Hx1 & Hy0 & Hy1
        & pa & pb & pc & pd & Hpa & Hpb & Hpc & Hpd & Hv); [done..|].
  fold c max_x max_y px py in Ha, Hb, Hc, Hd, Hx0, Hx1, Hy0, Hy1,
    Hpa, Hpb, Hpc, Hpd, Hv.
  pose proof (weights_at_cancel_x max_x max_y px py) as Hcx.
  pose proof (weights_at_cancel_y max_x max_y px py) as Hcy.
  destruct (weights_at max_x max_y px py) as [[[wa wb] wc] wd].
  cbn [fst snd] in Ha, Hb, Hc, Hd.
  exists wa, wb, wc, wd, (corner0 max_x px), (corner1 max_x px),
    (corner0 max_y py), (corner1 max_y py), pa, pb, pc, pd,
    (blend (wa, wb, wc, wd) pa pb pc pd).
  split_and!; [done..| |].
  - intros Hco%corners_coincide. destruct (Hcx Hco) as [Hac Hbd].
    rewrite <-Hco in Hpc, Hpd.
    assert (pc = pa) as -> by congruence. assert (pd = pb) as -> by congruence.
    split_and!; [done..|]. by apply blend_cancel_x.
  - intros Hco%corners_coincide. destruct (Hcy Hco) as [Hab Hcd].
    rewrite <-Hco in Hpb, Hpd.
    assert (pb = pa) as -> by congruence. assert (pd = pc) as -> by congruence.
    split_and!; [done..|]. by apply blend_cancel_y.
Qed.

(** ** Shapes of the concrete data *)

Lemma has_shape3_img3x3 : has_shape3 1 3 3 img3x3.
Proof. split; [reflexivity|]. repeat constructor. Qed.

Lemma has_shape3_img4x4 : has_shape3 1 4 4 img4x4.
Proof. split; [reflexivity|]. repeat constructor. Qed.

Lemma has_shape3_pixel {A} (v : A) : has_shape3 1 1 1 [[[v]]].
Proof. split; [reflexivity|]. repeat constructor. Qed.

(** ** affine_grid_generator in closed form *)

Lemma linspace_length start stop num : length (linspace start stop num) = num.
Proof.
  unfold linspace. rewrite length_take. simpl.
  rewrite length_app, length_fmap, length_seq. simpl. lia.
Qed.

(** With two points or more, the last point is [stop] itself. *)
Lemma linspace_last start stop num :
  (2 ≤ num)%nat → linspace start stop num !! (num - 1)%nat = Some stop.
Proof.
  intros Hn. unfold linspace. rewrite lookup_take_lt by lia.
  replace (Nat.max (num - 1) 1) with (num - 1)%nat by lia.
  destruct num as [|[|n]]; [lia..|]. simpl.
  rewrite lookup_app_r; rewrite length_fmap, length_seq; [|lia].
  by replace (n - (n - 0))%nat with 0%nat by lia.
Qed.

Lemma zip_row (f : Q * Q → Q → Q) (xs : list Q) (yv : Q) :
  zip_with f (zip xs (replicate (length xs) yv)) ((λ _, 1) <$> xs)
  = (λ xv, f (xv, yv) 1) <$> xs.
Proof. induction xs as [|xv xs IH]; simpl; [done|]. by f_equal. Qed.

Lemma reshape2_meshgrid (f : Q * Q → Q → Q) (xs ys : list Q) :
  reshape2 (length ys) (length xs)
    (zip_with f
       (zip (concat (replicate (length ys) xs))
            (concat ((λ v, replicate (length xs) v) <$> ys)))
       ((λ _, 1) <$> concat (replicate (length ys) xs)))
  = (λ yv, (λ xv, f (xv, yv) 1) <$> xs) <$> ys.
Proof.
  induction ys as [|yv ys IH]; [done|].
  cbn [length replicate concat fmap list_fmap reshape2].
  rewrite fmap_app.
  rewrite (zip_with_app pair) by by rewrite length_replicate.
  rewrite (zip_with_app f)
    by by rewrite length_zip_with, length_replicate, length_fmap, Nat.min_id.
  rewrite zip_row.
  rewrite take_app_length', drop_app_length' by by rewrite length_fmap.
  f_equal. exact IH.
Qed.

Lemma affine_grid_generator_closed height width theta :
  affine_grid_generator height width theta
  = (λ th, [grid_of height width th.1; grid_of height width th.2]) <$> theta.
Proof.
  unfold affine_grid_generator, meshgrid.
  rewrite zip_with_replicate_r_eq by done.
  rewrite <-list_fmap_compose. apply list_fmap_ext. intros _ th _.
  unfold flip, compose, matmul23, grid_of.
  cbn [fmap list_fmap].
  pose proof (reshape2_meshgrid (λ xy o, dot3 th.1 xy.1 xy.2 o)
                (linspace (-1) 1 width) (linspace (-1) 1 height)) as H1.
  pose proof (reshape2_meshgrid (λ xy o, dot3 th.2 xy.1 xy.2 o)
                (linspace (-1) 1 width) (linspace (-1) 1 height)) as H2.
  rewrite !linspace_length in H1, H2. rewrite !linspace_length.
  by rewrite H1, H2.
Qed.

Lemma grid_slices_closed height width theta :
  grid_slice 0 (affine_grid_generator height width theta)
  = (λ th, grid_of height width th.1) <$> theta ∧
  grid_slice 1 (affine_grid_generator height width theta)
  = (λ th, grid_of height width th.2) <$> theta.
Proof.
  rewrite affine_grid_generator_closed. unfold grid_slice.
  by rewrite <-!list_fmap_compose.
Qed.

Lemma grid_of_shape height width r :
  length (grid_of height width r) = height ∧
  Forall (λ row, length row = width) (grid_of height width r).
Proof.
  unfold grid_of. split; [by rewrite length_fmap, linspace_length|].
  rewrite Forall_fmap. apply Forall_forall. intros yv _. simpl.
  by rewrite length_fmap, linspace_length.
Qed.

Lemma grid_slices_shape height width theta :
  has_shape3 (length theta) height width
    (grid_slice 0 (affine_grid_generator height width theta)) ∧
  has_shape3 (length theta) height width
    (grid_slice 1 (affine_grid_generator height width theta)).
Proof.
  destruct (grid_slices_closed height width theta) as [-> ->].
  split; (split; [by rewrite length_fmap|]);
    rewrite Forall_fmap; apply Forall_forall; intros th _; apply grid_of_shape.
Qed.

Lemma get3_grid_of height width (f : theta23 → row3) theta b i j v :
  get3 ((λ th, grid_of height width (f th)) <$> theta) b i j = Some v ↔
  ∃ th xv yv, theta !! b = Some th ∧
              linspace (-1) 1 height !! i = Some yv ∧
              linspace (-1) 1 width !! j = Some xv ∧
              v = dot3 (f th) xv yv 1.
Proof.
  rewrite get3_Some. unfold grid_of. split.
  - intros (p & r & Hp & Hr & Hv).
    apply list_lookup_fmap_Some in Hp as (th & -> & Hth).
    apply list_lookup_fmap_Some in Hr as (yv & -> & Hyv).
    apply list_lookup_fmap_Some in Hv as (xv & -> & Hxv).
    by exists th, xv, yv.
  - intros (th & xv & yv & Hth & Hyv & Hxv & ->).
    exists (grid_of height width (f th)),
           ((λ xv, dot3 (f th) xv yv 1) <$> linspace (-1) 1 width).
    rewrite list_lookup_fmap, Hth. split; [done|]. unfold grid_of.
    rewrite !list_lookup_fmap, Hyv, Hxv. done.
Qed.

(** ** The pipeline of LocNet.call *)

(** Grid generation followed by sampling is total on an image with at least
    one row and one column and one matrix per image; the output pixel
    (b, i, j) is the sample of image [b] at the image of the mesh point
    (x_j, y_i) under the matrix [b]. *)
Lemma locnet_resample_total height width (img : tensor4) nb nh nw theta :
  has_shape3 nb nh nw img → (0 < nh)%nat → (0 < nw)%nat → length theta = nb →
  ∃ out, locnet_resample height width img theta = Some out ∧
         has_shape3 nb height width out ∧
         ∀ b i j th xv yv,
           theta !! b = Some th →
           linspace (-1) 1 height !! i = Some yv →
           linspace (-1) 1 width !! j = Some xv →
           get3 out b i j
           = sample_pixel img b (dot3 th.1 xv yv 1) (dot3 th.2 xv yv 1).
Proof.
  intros Himg Hh Hw Hlen. unfold locnet_resample.
  destruct (grid_slices_shape height width theta) as [Hx Hy].
  rewrite Hlen in Hx, Hy.
  destruct (bilinear_sampler_total img nb nh nw height width _ _
              Himg Hh Hw Hx Hy) as (out & Hout & Hshape & Hget).
  exists out. split; [done|]. split; [done|].
  intros b i j th xv yv Hth Hyv Hxv. apply Hget.
  - destruct (grid_slices_closed height width theta) as [-> _].
    apply (get3_grid_of height width fst). by exists th, xv, yv.
  - destruct (grid_slices_closed height width theta) as [_ ->].
    apply (get3_grid_of height width snd). by exists th, xv, yv.
Qed.

(** ** Coordinates that are equal as rationals *)

Lemma rescale_Qeq max_d v v' : v == v' → rescale max_d v == rescale max_d v'.
Proof. intros Hv. unfold rescale. by rewrite Hv. Qed.

Lemma corner0_Qeq max_d p p' : p == p' → corner0 max_d p = corner0 max_d p'.
Proof. intros Hp. unfold corner0. by rewrite Hp. Qed.

Lemma corner1_Qeq max_d p p' : p == p' → corner1 max_d p = corner1 max_d p'.
Proof. intros Hp. unfold corner1. by rewrite Hp. Qed.

Lemma blend_length w (Ia Ib Ic Id : list Q) :
  length (blend w Ia Ib Ic Id)
  = Nat.min (Nat.min (Nat.min (length Ia) (length Ib)) (length Ic)) (length Id).
Proof.
  destruct w as [[[wa wb] wc] wd]. unfold blend, bcast_mul.
  by rewrite !length_zip_with, !length_fmap.
Qed.

Lemma blend_Qeq wa wb wc wd wa' wb' wc' wd' (Ia Ib Ic Id : list Q) :
  wa == wa' → wb == wb' → wc == wc' → wd == wd' →
  Forall2 Qeq (blend (wa, wb, wc, wd) Ia Ib Ic Id)
              (blend (wa', wb', wc', wd') Ia Ib Ic Id).
Proof.
  intros Ha Hb Hc Hd. apply Forall2_same_length_lookup_2.
  { by rewrite !blend_length. }
  intros k v v' (a & b & c & d & Ha1 & Hb1 & Hc1 & Hd1 & ->)%blend_lookup
                (a' & b' & c' & d' & Ha2 & Hb2 & Hc2 & Hd2 & ->)%blend_lookup.
  simplify_eq. by rewrite Ha, Hb, Hc, Hd.
Qed.

Lemma sample_pixel_Qeq img b xn yn xn' yn' v :
  xn == xn' → yn == yn' →
  sample_pixel img b xn yn = Some v →
  ∃ v', sample_pixel img b xn' yn' = Some v' ∧ Forall2 Qeq v v'.
Proof.
  intros Hx Hy (Ia & Ib & Ic & Id & HIa & HIb & HIc & HId & ->)%sample_pixel_Some.
  cbv zeta in *.
  pose proof (rescale_Qeq (dim_W img - 1) _ _ Hx) as Hpx.
  pose proof (rescale_Qeq (dim_H img - 1) _ _ Hy) as Hpy.
  rewrite (corner0_Qeq _ _ _ Hpx), (corner0_Qeq _ _ _ Hpy) in HIa.
  rewrite (corner0_Qeq _ _ _ Hpx), (corner1_Qeq _ _ _ Hpy) in HIb.
  rewrite (corner1_Qeq _ _ _ Hpx), (corner0_Qeq _ _ _ Hpy) in HIc.
  rewrite (corner1_Qeq _ _ _ Hpx), (corner1_Qeq _ _ _ Hpy) in HId.
  eexists. split.
  { apply sample_pixel_Some. cbv zeta. by eexists _, _, _, _. }
  unfold weights_at.
  apply blend_Qeq;
    rewrite ?(corner0_Qeq _ _ _ Hpx), ?(corner0_Qeq _ _ _ Hpy),
            ?(corner1_Qeq _ _ _ Hpx), ?(corner1_Qeq _ _ _ Hpy), Hpx, Hpy;
    reflexivity.
Qed.

Lemma dot3_zero x y o : dot3 (0, 0, 0) x y o == 0.
Proof. unfold dot3. ring. Qed.

Lemma rescale_formula max_d v :
  rescale max_d v == (1 # 2) * (v + 1) * inject_Z (max_d + 1 - 2).
Proof.
  unfold rescale. replace (max_d + 1 - 2)%Z with (max_d - 1)%Z by lia. ring.
Qed.

(** ** Restacking a batch *)

Lemma gather_nd1_local (img img' : tensor4) (b b' : nat) yv xv :
  img !! b = img' !! b' →
  gather_nd1 img [Z.of_nat b; yv; xv] = gather_nd1 img' [Z.of_nat b'; yv; xv].
Proof.
  intros Heq. unfold gather_nd1.
  destruct (decide (0 ≤ Z.of_nat b ∧ 0 ≤ yv ∧ 0 ≤ xv)%Z) as [H|H];
    destruct (decide (0 ≤ Z.of_nat b' ∧ 0 ≤ yv ∧ 0 ≤ xv)%Z) as [H'|H'];
    try done; try lia.
  unfold get3. by rewrite !Nat2Z.id, Heq.
Qed.

(** A sample reads the image only through its own batch entry (and the
    height and width, which all entries share). *)
Lemma sample_pixel_local (img img' : tensor4) (b b' : nat) xn yn :
  dim_W img = dim_W img' → dim_H img = dim_H img' → img !! b = img' !! b' →
  sample_pixel img b xn yn = sample_pixel img' b' xn yn.
Proof.
  intros HW HH Heq. unfold sample_pixel. cbv zeta. rewrite HW, HH.
  by rewrite !(gather_nd1_local img img' b b').
Qed.

Lemma get3_singleton {A} (t : tensor3 A) k (o : list (list A)) i j :
  t !! k = Some o → get3 [o] 0 i j = get3 t k i j.
Proof. intros Hk. unfold get3. by rewrite Hk. Qed.

(** Restacking the batch along a list [σ] of batch indices restacks the
    output along [σ]. *)
Lemma locnet_resample_restack height width (img : tensor4) nb nh nw theta out
    (σ : list nat) (img' : tensor4) (theta' : list theta23) :
  has_shape3 nb nh nw img → (0 < nh)%nat → (0 < nw)%nat → length theta = nb →
  locnet_resample height width img theta = Some out →
  Forall2 (λ k im, img !! k = Some im) σ img' →
  Forall2 (λ k th, theta !! k = Some th) σ theta' →
  ∃ out', locnet_resample height width img' theta' = Some out' ∧
          Forall2 (λ k o, out !! k = Some o) σ out'.
Proof.
  intros Himg Hh Hw Hlen Hout Himg' Htheta'.
  assert (has_shape3 (length σ) nh nw img') as Hshape_img'.
  { split; [by rewrite (Forall2_length _ _ _ Himg')|].
    apply Forall_lookup. intros k' im Him.
    destruct (Forall2_lookup_r _ _ _ _ _ Himg' Him) as (k & _ & Hk).
    destruct Himg as [_ Hall]. rewrite Forall_lookup in Hall. by eapply Hall. }
  destruct (locnet_resample_total height width img nb nh nw theta)
    as (out0 & Hout0 & Hshape & Hget); [done..|].
  assert (out0 = out) as -> by congruence.
  destruct (locnet_resample_total height width img' (length σ) nh nw theta')
    as (out' & Hout' & Hshape' & Hget'); [done..| |].
  { by rewrite <-(Forall2_length _ _ _ Htheta'). }
  exists out'. split; [done|].
  apply Forall2_same_length_lookup_2; [by destruct Hshape' as [-> _]|].
  intros k' k o' Hk Ho'.
  destruct (Forall2_lookup_l _ _ _ _ _ Himg' Hk) as (im & Him' & Him).
  destruct (Forall2_lookup_l _ _ _ _ _ Htheta' Hk) as (th & Hth' & Hth).
  assert (k < nb)%nat as Hknb.
  { apply lookup_lt_Some in Him. destruct Himg as [<- _]. done. }
  destruct (lookup_lt_is_Some_2 out k) as [o Ho].
  { by destruct Hshape as [-> _]. }
  rewrite Ho. f_equal.
  assert (has_shape3 1 height width [o]) as Hso.
  { split; [done|]. apply Forall_singleton.
    destruct Hshape as [_ Hall]. rewrite Forall_lookup in Hall. by eapply Hall. }
  assert (has_shape3 1 height width [o']) as Hso'.
  { split; [done|]. apply Forall_singleton.
    destruct Hshape' as [_ Hall]. rewrite Forall_lookup in Hall. by eapply Hall. }
  assert ([o] = [o']) as Heq; [|by injection Heq].
  apply (tensor3_ext 1 height width); [done..|].
  intros [|b] i j; [|done].
  rewrite (get3_singleton out k o), (get3_singleton out' k' o') by done.
  destruct (decide (i < height ∧ j < width)%nat) as [[Hi Hj]|Hij].
  - destruct (lookup_lt_is_Some_2 (linspace (-1) 1 height) i) as [yv Hyv].
    { by rewrite linspace_length. }
    destruct (lookup_lt_is_Some_2 (linspace (-1) 1 width) j) as [xv Hxv].
    { by rewrite linspace_length. }
    rewrite (Hget k i j th xv yv), (Hget' k' i j th xv yv) by done.
    assert (0 < length σ)%nat by (apply lookup_lt_Some in Hk; lia).
    destruct (dims_has_shape3 img nb nh nw) as [HH HW]; [done|lia|done|].
    destruct (dims_has_shape3 img' (length σ) nh nw) as [HH' HW']; [done..|].
    apply sample_pixel_local; congruence.
  - transitivity (@None (list Q)); [|symmetry]; apply eq_None_not_Some.
    + intros [_ [? ?]]%(has_shape3_lookup nb height width); [lia|done].
    + intros [_ [? ?]]%(has_shape3_lookup (length σ) height width); [lia|done].
Qed.

(** * The claims *)

(** ** C1: the identity transform *)

(** C1.  The 4x4 image with the values 0..15, the identity matrix and a 4x4
    output: the pipeline returns the image below, not the input.  The output
    pixel (0, 1) is 2/3 where the input has 1, and the last pixel is 10
    where the input has 15. *)
Theorem identity_4x4_output :
  tmap4 Qred <$> locnet_resample 4 4 img4x4 [theta_id]
  = Some [[ [[0]; [2 # 3]; [4 # 3]; [2]];
            [[8 # 3]; [10 # 3]; [4]; [14 # 3]];
            [[16 # 3]; [6]; [20 # 3]; [22 # 3]];
            [[8]; [26 # 3]; [28 # 3]; [10]] ]] ∧
  tmap4 Qred <$> locnet_resample 4 4 img4x4 [theta_id] ≠ Some img4x4 ∧
  ∃ out v, locnet_resample 4 4 img4x4 [theta_id] = Some out ∧
           get3 out 0 0 1 = Some [v] ∧ get3 img4x4 0 0 1 = Some [1] ∧
           v == 2 # 3 ∧ ¬ v == 1.
Proof.
  split; [vm_compute; reflexivity|]. split.
  { vm_compute. discriminate. }
  destruct (locnet_resample 4 4 img4x4 [theta_id]) as [out|] eqn:Hout;
    [|vm_compute in Hout; discriminate].
  vm_compute in Hout. injection Hout as <-.
  eexists _, _. split; [reflexivity|]. split; [reflexivity|].
  split; [reflexivity|]. split; [vm_compute; reflexivity|].
  intros H. vm_compute in H. discriminate.
Qed.

(** ** C2: the end points of the rescale *)

(** C2.  On the 4x4 image the normalized end points -1 and +1 are rescaled
    to the pixels 0 and 2, in x and in y: the upper end point is not
    dim - 1 = 3. *)
Theorem rescale_end_points_4x4 :
  tmap Qred (c_x (sampler_corners img4x4 [[[-1; 1]]] [[[-1; 1]]])) = [[[0; 2]]] ∧
  tmap Qred (c_y (sampler_corners img4x4 [[[-1; 1]]] [[[-1; 1]]])) = [[[0; 2]]] ∧
  rescale (4 - 1) 1 == 2 ∧ ¬ rescale (4 - 1) 1 == inject_Z (4 - 1).
Proof.
  split_and!; [vm_compute; reflexivity..|].
  intros H. vm_compute in H. discriminate.
Qed.

(** ** C3: coordinates far outside the image *)

(** C3, as the code has it.  On an image with at least one row and one
    column the sampler does not fail, however far outside the image the
    coordinates are, and its output has the shape of the coordinate tensors.
    But a sample whose rescaled x is outside [0, W_in-1) or whose rescaled y
    is outside [0, H_in-1) does not take the value of the nearest edge
    pixel.  The two corners of that axis are clipped to one index, so the
    four pixels read are equal in pairs and their weights are opposite in
    pairs: the four products that line 207 sums cancel, and over exact
    arithmetic the output is 0 in every channel.  Rounding is not modelled:
    in float32 the sum of the four cancelling products can leave a rounding
    residue in the place of an exact 0. *)
Theorem sampler_total_zero_outside (img : tensor4) nb nh nw oh ow (x y : tensor3 Q) :
  has_shape3 nb nh nw img → (0 < nh)%nat → (0 < nw)%nat →
  has_shape3 nb oh ow x → has_shape3 nb oh ow y →
  ∃ out, bilinear_sampler img x y = Some out ∧ has_shape3 nb oh ow out ∧
    ∀ b i j xn yn,
      get3 x b i j = Some xn → get3 y b i j = Some yn →
      rescale (Z.of_nat nw - 1) xn < 0 ∨
      inject_Z (Z.of_nat nw - 1) <= rescale (Z.of_nat nw - 1) xn ∨
      rescale (Z.of_nat nh - 1) yn < 0 ∨
      inject_Z (Z.of_nat nh - 1) <= rescale (Z.of_nat nh - 1) yn →
      let c := sampler_corners img x y in
      ∃ wa wb wc wd x0 x1 y0 y1 pa pb pc pd v,
        get3 (w_a c) b i j = Some wa ∧ get3 (w_b c) b i j = Some wb ∧
        get3 (w_c c) b i j = Some wc ∧ get3 (w_d c) b i j = Some wd ∧
        get3 (c_x0 c) b i j = Some x0 ∧ get3 (c_x1 c) b i j = Some x1 ∧
        get3 (c_y0 c) b i j = Some y0 ∧ get3 (c_y1 c) b i j = Some y1 ∧
        gather_nd1 img [Z.of_nat b; y0; x0] = Some pa ∧
        gather_nd1 img [Z.of_nat b; y1; x0] = Some pb ∧
        gather_nd1 img [Z.of_nat b; y0; x1] = Some pc ∧
        gather_nd1 img [Z.of_nat b; y1; x1] = Some pd ∧
        get3 out b i j = Some v ∧ v = blend (wa, wb, wc, wd) pa pb pc pd ∧
        (x0 = x1 ∧ pa = pc ∧ pb = pd ∧ wa + wc == 0 ∧ wb + wd == 0 ∨
         y0 = y1 ∧ pa = pb ∧ pc = pd ∧ wa + wb == 0 ∧ wc + wd == 0) ∧
        Forall (λ q, q == 0) v.
Proof.
  intros Himg Hh Hw Hx Hy.
  destruct (bilinear_sampler_total img nb nh nw oh ow x y)
    as (out & Hout & Hshape & _); [done..|].
  exists out. split; [done|]. split; [done|].
  intros b i j xn yn Hxn Hyn Hoff c.
  destruct (sampler_pairs_outside img nb nh nw oh ow x y out b i j xn yn)
    as (wa & wb & wc & wd & x0 & x1 & y0 & y1 & pa & pb & pc & pd & v
        & Ha & Hb & Hc & Hd & Hx0 & Hx1 & Hy0 & Hy1 & Hpa & Hpb & Hpc & Hpd
        & Hv & Hblend & Hxoff & Hyoff); [done..|].
  exists wa, wb, wc, wd, x0, x1, y0, y1, pa, pb, pc, pd, v.
  split_and!; [done..| |].
  - destruct Hoff as [Hoff|[Hoff|[Hoff|Hoff]]].
    + left. destruct Hxoff as (? & ? & ? & ? & ? & _); [by left|done].
    + left. destruct Hxoff as (? & ? & ? & ? & ? & _); [by right|done].
    + right. destruct Hyoff as (? & ? & ? & ? & ? & _); [by left|done].
    + right. destruct Hyoff as (? & ? & ? & ? & ? & _); [by right|done].
  - destruct Hoff as [Hoff|[Hoff|[Hoff|Hoff]]].
    + apply Hxoff. by left.
    + apply Hxoff. by right.
    + apply Hyoff. by left.
    + apply Hyoff. by right.
Qed.

Lemma sampler_total_zero_outside_witness :
  ∃ out v, bilinear_sampler img3x3 [[[-7]]] [[[40]]] = Some out ∧
           get3 out 0 0 0 = Some v ∧ Forall (λ q, q == 0) v.
Proof.
  destruct (sampler_total_zero_outside img3x3 1 3 3 1 1 [[[-7]]] [[[40]]]
              has_shape3_img3x3 ltac:(lia) ltac:(lia)
              (has_shape3_pixel _) (has_shape3_pixel _)) as (out & Hout & _ & Hzero).
  destruct (Hzero 0%nat 0%nat 0%nat (-7) 40 eq_refl eq_refl)
    as (wa & wb & wc & wd & x0 & x1 & y0 & y1 & pa & pb & pc & pd & v
        & _ & _ & _ & _ & _ & _ & _ & _ & _ & _ & _ & _ & Hv & _ & _ & Hv0).
  { left. reflexivity. }
  exists out, v. split; [exact Hout|]. split; [exact Hv|exact Hv0].
Defined.

(** C3 fails as stated: it is not true that a sample outside the image has
    the value of the sample at the nearest point of the image.  In the 3x3
    image the normalized (-3, -1) is rescaled to (-1, 0), left of the pixel
    (0, 0), which is the rescaled (-1, -1); the sampler returns 0 for the
    first and the edge pixel's 1 for the second. *)
Lemma edge_replication_fails :
  ¬ (∀ (img : tensor4) (nh nw : nat) (xn yn xc yc : Q),
       has_shape3 1 nh nw img → (0 < nh)%nat → (0 < nw)%nat →
       rescale (Z.of_nat nw - 1) xc
         == Qmax 0 (Qmin (rescale (Z.of_nat nw - 1) xn) (inject_Z (Z.of_nat nw - 1))) →
       rescale (Z.of_nat nh - 1) yc
         == Qmax 0 (Qmin (rescale (Z.of_nat nh - 1) yn) (inject_Z (Z.of_nat nh - 1))) →
       ∃ v vc, bilinear_sampler img [[[xn]]] [[[yn]]] = Some [[[v]]] ∧
               bilinear_sampler img [[[xc]]] [[[yc]]] = Some [[[vc]]] ∧
               Forall2 Qeq v vc).
Proof.
  intros Hclaim.
  destruct (Hclaim img3x3 3%nat 3%nat (-3) (-1) (-1) (-1))
    as (v & vc & Hv & Hvc & Heq);
    [apply has_shape3_img3x3|lia|lia|by vm_compute..|].
  vm_compute in Hv, Hvc. simplify_eq.
  apply Forall2_cons in Heq as [Heq _]. vm_compute in Heq. discriminate.
Qed.

(** The two values of the counterexample. *)
Example edge_replication_values :
  tmap4 Qred <$> bilinear_sampler img3x3 [[[-3]]] [[[-1]]] = Some [[[[0]]]] ∧
  tmap4 Qred <$> bilinear_sampler img3x3 [[[-1]]] [[[-1]]] = Some [[[[1]]]].
Proof. split; vm_compute; reflexivity. Qed.

(** ** C4: partition of unity *)

(** C4.  At a position where the clip left two distinct x corners and two
    distinct y corners, the four weights computed by [bilinear_sampler] add
    up to 1 (over exact arithmetic), whatever the coordinates. *)
Theorem weights_partition_of_unity img (x y : tensor3 Q) b i j
    (x0 x1 y0 y1 : Z) (wa wb wc wd : Q) :
  let c := sampler_corners img x y in
  get3 (c_x0 c) b i j = Some x0 → get3 (c_x1 c) b i j = Some x1 →
  get3 (c_y0 c) b i j = Some y0 → get3 (c_y1 c) b i j = Some y1 →
  get3 (w_a c) b i j = Some wa → get3 (w_b c) b i j = Some wb →
  get3 (w_c c) b i j = Some wc → get3 (w_d c) b i j = Some wd →
  x0 ≠ x1 → y0 ≠ y1 →
  wa + wb + wc + wd == 1.
Proof.
  intros c. unfold c. rewrite get3_c_x0, get3_c_x1, get3_c_y0, get3_c_y1.
  intros (xn & Hxn & ->)%fmap_Some (xn' & Hxn' & ->)%fmap_Some
         (yn & Hyn & ->)%fmap_Some (yn' & Hyn' & ->)%fmap_Some.
  assert (xn' = xn) as -> by congruence. assert (yn' = yn) as -> by congruence.
  destruct (get3_weights img x y b i j xn yn Hxn Hyn) as (-> & -> & -> & ->).
  intros [= <-] [= <-] [= <-] [= <-] Hx Hy.
  apply corners_differ in Hx as [Hx0 Hx1]. apply corners_differ in Hy as [Hy0 Hy1].
  rewrite Hx0, Hx1, Hy0, Hy1, !inject_Z_plus. ring.
Qed.

Lemma weights_partition_of_unity_witness :
  ∃ wa wb wc wd,
    get3 (w_a corners_inner) 0 0 0 = Some wa ∧
    get3 (w_b corners_inner) 0 0 0 = Some wb ∧
    get3 (w_c corners_inner) 0 0 0 = Some wc ∧
    get3 (w_d corners_inner) 0 0 0 = Some wd ∧
    wa + wb + wc + wd == 1.
Proof.
  eexists _, _, _, _. split_and!; [reflexivity..|].
  apply (weights_partition_of_unity img4x4 [[[0]]] [[[1]]] 0 0 0 1 2 2 3);
    first [reflexivity | discriminate].
Defined.

(** ** C5: the rescale subtracts one unit more *)

(** C5.  The rescale of [bilinear_sampler] multiplies by (dim - 1) - 1: the
    rescaled coordinate is 0.5 * (coord + 1) * (dim - 2), with dim the width
    of the image for x and its height for y.  Hence, under the identity
    matrix and with the output size equal to the input size, the last column
    of the output is sampled at x = W_in - 2 and the last row at
    y = H_in - 2, one pixel short of the last column and row of the image. *)
Theorem rescale_one_pixel_short (img : tensor4) nb nh nw :
  has_shape3 nb nh nw img →
  (∀ (x y : tensor3 Q) b i j px py,
     get3 (c_x (sampler_corners img x y)) b i j = Some px →
     get3 (c_y (sampler_corners img x y)) b i j = Some py →
     ∃ xn yn, get3 x b i j = Some xn ∧ get3 y b i j = Some yn ∧
              px == (1 # 2) * (xn + 1) * inject_Z (dim_W img - 2) ∧
              py == (1 # 2) * (yn + 1) * inject_Z (dim_H img - 2)) ∧
  (∀ b i j, (2 ≤ nh)%nat → (2 ≤ nw)%nat →
            (b < nb)%nat → (i < nh)%nat → (j < nw)%nat →
     ∃ px py,
       get3 (c_x (sampler_corners img
                    (grid_slice 0 (affine_grid_generator nh nw (replicate nb theta_id)))
                    (grid_slice 1 (affine_grid_generator nh nw (replicate nb theta_id)))))
            b i (nw - 1) = Some px ∧
       get3 (c_y (sampler_corners img
                    (grid_slice 0 (affine_grid_generator nh nw (replicate nb theta_id)))
                    (grid_slice 1 (affine_grid_generator nh nw (replicate nb theta_id)))))
            b (nh - 1) j = Some py ∧
       px == inject_Z (Z.of_nat nw - 2) ∧ py == inject_Z (Z.of_nat nh - 2)).
Proof.
  intros Himg. split.
  - intros x y b i j px py. rewrite get3_c_x, get3_c_y.
    intros (xn & Hxn & ->)%fmap_Some (yn & Hyn & ->)%fmap_Some.
    exists xn, yn. split; [done|]. split; [done|].
    rewrite !rescale_formula.
    replace (dim_W img - 1 + 1 - 2)%Z with (dim_W img - 2)%Z by lia.
    replace (dim_H img - 1 + 1 - 2)%Z with (dim_H img - 2)%Z by lia. done.
  - intros b i j Hh Hw Hb Hi Hj.
    destruct (dims_has_shape3 img nb nh nw) as [HH HW]; [done|lia|lia|].
    destruct (grid_slices_closed nh nw (replicate nb theta_id)) as [-> ->].
    destruct (lookup_lt_is_Some_2 (linspace (-1) 1 nh) i) as [yv Hyv].
    { by rewrite linspace_length. }
    destruct (lookup_lt_is_Some_2 (linspace (-1) 1 nw) j) as [xv Hxv].
    { by rewrite linspace_length. }
    pose proof (linspace_last (-1) 1 nw Hw) as Hxl.
    pose proof (linspace_last (-1) 1 nh Hh) as Hyl.
    assert (replicate nb theta_id !! b = Some theta_id) as Hth
      by by apply lookup_replicate_2.
    exists (rescale (dim_W img - 1) (dot3 theta_id.1 1 yv 1)),
           (rescale (dim_H img - 1) (dot3 theta_id.2 xv 1 1)).
    split_and!.
    + rewrite get3_c_x.
      match goal with |- _ <$> ?g = _ =>
        assert (g = Some (dot3 theta_id.1 1 yv 1)) as ->; [|done] end.
      apply (get3_grid_of nh nw fst). by exists theta_id, 1, yv.
    + rewrite get3_c_y.
      match goal with |- _ <$> ?g = _ =>
        assert (g = Some (dot3 theta_id.2 xv 1 1)) as ->; [|done] end.
      apply (get3_grid_of nh nw snd). by exists theta_id, xv, 1.
    + rewrite rescale_formula, HW. unfold dot3, theta_id. cbn [fst snd].
      replace (Z.of_nat nw - 1 + 1 - 2)%Z with (Z.of_nat nw - 2)%Z by lia. ring.
    + rewrite rescale_formula, HH. unfold dot3, theta_id. cbn [fst snd].
      replace (Z.of_nat nh - 1 + 1 - 2)%Z with (Z.of_nat nh - 2)%Z by lia. ring.
Qed.

Lemma rescale_one_pixel_short_witness :
  ∃ px py,
    get3 (c_x (sampler_corners img4x4
                 (grid_slice 0 (affine_grid_generator 4 4 (replicate 1 theta_id)))
                 (grid_slice 1 (affine_grid_generator 4 4 (replicate 1 theta_id)))))
         0 0 (4 - 1) = Some px ∧
    get3 (c_y (sampler_corners img4x4
                 (grid_slice 0 (affine_grid_generator 4 4 (replicate 1 theta_id)))
                 (grid_slice 1 (affine_grid_generator 4 4 (replicate 1 theta_id)))))
         0 (4 - 1) 0 = Some py ∧
    px == inject_Z (Z.of_nat 4 - 2) ∧ py == inject_Z (Z.of_nat 4 - 2).
Proof.
  destruct (rescale_one_pixel_short img4x4 1 4 4 has_shape3_img4x4) as [_ Hid].
  exact (Hid 0%nat 0%nat 0%nat ltac:(lia) ltac:(lia)
           ltac:(lia) ltac:(lia) ltac:(lia)).
Defined.

(** ** C6: the gathers read inside the image *)

(** C6.  For an image with at least one row and one column and any
    coordinate tensors (of one shape, over the batch of the image), every
    entry of the four corner index tensors handed to [get_pixel_value] lies
    in [0, W_in-1] (x) or [0, H_in-1] (y), and each of the four gathers
    succeeds: no read is out of range. *)
Theorem corner_indices_in_bounds (img : tensor4) nb nh nw oh ow (x y : tensor3 Q) :
  has_shape3 nb nh nw img → (0 < nh)%nat → (0 < nw)%nat →
  has_shape3 nb oh ow x → has_shape3 nb oh ow y →
  let c := sampler_corners img x y in
  (∀ b i j v, get3 (c_x0 c) b i j = Some v ∨ get3 (c_x1 c) b i j = Some v →
              (0 ≤ v ≤ Z.of_nat nw - 1)%Z) ∧
  (∀ b i j v, get3 (c_y0 c) b i j = Some v ∨ get3 (c_y1 c) b i j = Some v →
              (0 ≤ v ≤ Z.of_nat nh - 1)%Z) ∧
  is_Some (get_pixel_value img (c_x0 c) (c_y0 c)) ∧
  is_Some (get_pixel_value img (c_x0 c) (c_y1 c)) ∧
  is_Some (get_pixel_value img (c_x1 c) (c_y0 c)) ∧
  is_Some (get_pixel_value img (c_x1 c) (c_y1 c)).
Proof.
  intros Himg Hh Hw Hx Hy c.
  pose proof (corner_in_image img nb nh nw Himg Hh Hw) as Hc.
  assert (∀ b i j v, get3 (c_x0 c) b i j = Some v ∨ get3 (c_x1 c) b i j = Some v →
                     (0 ≤ v < Z.of_nat nw)%Z) as Hxs.
  { intros b i j v. unfold c. rewrite get3_c_x0, get3_c_x1.
    intros [(xn & _ & ->)%fmap_Some|(xn & _ & ->)%fmap_Some];
      destruct (Hc (rescale (dim_W img - 1) xn)) as (? & ? & _); done. }
  assert (∀ b i j v, get3 (c_y0 c) b i j = Some v ∨ get3 (c_y1 c) b i j = Some v →
                     (0 ≤ v < Z.of_nat nh)%Z) as Hys.
  { intros b i j v. unfold c. rewrite get3_c_y0, get3_c_y1.
    intros [(yn & _ & ->)%fmap_Some|(yn & _ & ->)%fmap_Some];
      destruct (Hc (rescale (dim_H img - 1) yn)) as (_ & _ & ? & ?); done. }
  split; [intros b i j v Hv; specialize (Hxs b i j v Hv); lia|].
  split; [intros b i j v Hv; specialize (Hys b i j v Hv); lia|].
  destruct (sampler_corners_shape img _ _ _ _ _ Hx Hy)
    as (_ & _ & Hx0 & Hx1 & Hy0 & Hy1). fold c in Hx0, Hx1, Hy0, Hy1.
  assert (∀ cx cy : tensor3 Z,
            has_shape3 nb oh ow cx → has_shape3 nb oh ow cy →
            (∀ b i j v, get3 cx b i j = Some v → (0 ≤ v < Z.of_nat nw)%Z) →
            (∀ b i j v, get3 cy b i j = Some v → (0 ≤ v < Z.of_nat nh)%Z) →
            is_Some (get_pixel_value img cx cy)) as Hgather.
  { intros cx cy Hcx Hcy Hbx Hby.
    destruct (get_pixel_value_Some img nb oh ow cx cy) as (out & -> & _); [done..| |done].
    intros b i j xv yv Hxv Hyv.
    apply (gather_nd1_is_Some img nb nh nw); [done| |by eauto..].
    apply (has_shape3_lookup nb oh ow cx b i j); [done|]. eauto. }
  split_and!; apply Hgather; by eauto.
Qed.

Lemma corner_indices_in_bounds_witness :
  c_x0 corners_far = [[[0%Z]]] ∧ c_x1 corners_far = [[[0%Z]]] ∧
  c_y0 corners_far = [[[2%Z]]] ∧ c_y1 corners_far = [[[2%Z]]] ∧
  is_Some (get_pixel_value img3x3 (c_x0 corners_far) (c_y0 corners_far)) ∧
  is_Some (get_pixel_value img3x3 (c_x1 corners_far) (c_y1 corners_far)).
Proof.
  assert (has_shape3 1 3 3 img3x3) as Himg.
  { split; [reflexivity|]. repeat constructor. }
  assert (∀ v : Q, has_shape3 1 1 1 [[[v]]]) as Hv.
  { intros v. split; [reflexivity|]. repeat constructor. }
  destruct (corner_indices_in_bounds img3x3 1 3 3 1 1 [[[-7]]] [[[40]]]
              Himg ltac:(lia) ltac:(lia) (Hv _) (Hv _))
    as (_ & _ & H00 & _ & _ & H11).
  split_and!; [reflexivity..|exact H00|exact H11].
Defined.

(** ** C7: the weights at integer grid points *)

(** C7, as the code has it.  When the rescaled coordinates are an integer
    grid point (m, n) that is not on the last column or the last row
    (0 <= m < W_in-1 and 0 <= n < H_in-1), the corner (x0, y0) is (m, n)
    itself and the weights are wa = 1, wb = wc = wd = 0. *)
Theorem weights_at_interior_grid_point img (x y : tensor3 Q) b i j
    (px py : Q) (m n : Z) :
  let c := sampler_corners img x y in
  get3 (c_x c) b i j = Some px → get3 (c_y c) b i j = Some py →
  px == inject_Z m → py == inject_Z n →
  (0 ≤ m < dim_W img - 1)%Z → (0 ≤ n < dim_H img - 1)%Z →
  get3 (c_x0 c) b i j = Some m ∧ get3 (c_y0 c) b i j = Some n ∧
  ∃ wa wb wc wd,
    get3 (w_a c) b i j = Some wa ∧ get3 (w_b c) b i j = Some wb ∧
    get3 (w_c c) b i j = Some wc ∧ get3 (w_d c) b i j = Some wd ∧
    wa == 1 ∧ wb == 0 ∧ wc == 0 ∧ wd == 0.
Proof.
  intros c. unfold c. rewrite get3_c_x, get3_c_y, get3_c_x0, get3_c_y0.
  intros (xn & Hxn & ->)%fmap_Some (yn & Hyn & ->)%fmap_Some Hpx Hpy Hm Hn.
  rewrite Hxn, Hyn. simpl.
  assert (Qfloor (rescale (dim_W img - 1) xn) = m) as Hfx.
  { rewrite Hpx. apply Qfloor_Z. }
  assert (Qfloor (rescale (dim_H img - 1) yn) = n) as Hfy.
  { rewrite Hpy. apply Qfloor_Z. }
  assert (corner0 (dim_W img - 1) (rescale (dim_W img - 1) xn) = m ∧
          corner1 (dim_W img - 1) (rescale (dim_W img - 1) xn) = (m + 1)%Z)
    as [Hx0 Hx1].
  { unfold corner0, corner1, clip_by_value. rewrite Hfx. lia. }
  assert (corner0 (dim_H img - 1) (rescale (dim_H img - 1) yn) = n ∧
          corner1 (dim_H img - 1) (rescale (dim_H img - 1) yn) = (n + 1)%Z)
    as [Hy0 Hy1].
  { unfold corner0, corner1, clip_by_value. rewrite Hfy. lia. }
  rewrite Hx0, Hy0. split; [done|]. split; [done|].
  destruct (get3_weights img x y b i j xn yn Hxn Hyn) as (Ha & Hb & Hc & Hd).
  eexists _, _, _, _. split_and!; [exact Ha|exact Hb|exact Hc|exact Hd|..];
    unfold weights_at; cbn [fst snd];
    rewrite ?Hx0, ?Hx1, ?Hy0, ?Hy1, ?inject_Z_plus, Hpx, Hpy; ring.
Qed.

Lemma weights_at_interior_grid_point_witness :
  get3 (c_x0 corners_inner) 0 0 0 = Some 1%Z ∧
  get3 (c_y0 corners_inner) 0 0 0 = Some 2%Z ∧
  ∃ wa wb wc wd,
    get3 (w_a corners_inner) 0 0 0 = Some wa ∧
    get3 (w_b corners_inner) 0 0 0 = Some wb ∧
    get3 (w_c corners_inner) 0 0 0 = Some wc ∧
    get3 (w_d corners_inner) 0 0 0 = Some wd ∧
    wa == 1 ∧ wb == 0 ∧ wc == 0 ∧ wd == 0.
Proof.
  unfold corners_inner.
  eapply (weights_at_interior_grid_point img4x4 [[[0]]] [[[1]]] 0 0 0 _ _ 1 2);
    [reflexivity|reflexivity|reflexivity|reflexivity|vm_compute; done..].
Defined.

(** C7 fails on the last column: in the 3x3 image the rescaled coordinates
    (2, 0) are an integer grid point, both x corners are clipped to column
    2, and all four weights are 0, so no corner has weight 1. *)
Lemma weights_at_last_column_grid_point :
  ∃ px py wa wb wc wd,
    get3 (c_x corners_last_column) 0 0 0 = Some px ∧
    get3 (c_y corners_last_column) 0 0 0 = Some py ∧
    px == inject_Z 2 ∧ py == inject_Z 0 ∧
    get3 (w_a corners_last_column) 0 0 0 = Some wa ∧
    get3 (w_b corners_last_column) 0 0 0 = Some wb ∧
    get3 (w_c corners_last_column) 0 0 0 = Some wc ∧
    get3 (w_d corners_last_column) 0 0 0 = Some wd ∧
    wa == 0 ∧ wb == 0 ∧ wc == 0 ∧ wd == 0 ∧
    ¬ (wa == 1 ∨ wb == 1 ∨ wc == 1 ∨ wd == 1).
Proof.
  eexists _, _, _, _, _, _.
  split_and!; [reflexivity..| | | | | | |]; try (vm_compute; reflexivity).
  intros [H|[H|[H|H]]]; vm_compute in H; discriminate.
Qed.

(** ** C8: singular matrices *)

(** C8, as the code has it.  For every list of matrices, singular or not,
    grid generation and sampling complete without error (image with at
    least one row and one column, one matrix per image); no matrix is
    rejected.  Under the all-zero matrix every output pixel of that batch
    element samples the same source position, so the output image is
    constant. *)
Theorem degenerate_theta_total height width (img : tensor4) nb nh nw theta :
  has_shape3 nb nh nw img → (0 < nh)%nat → (0 < nw)%nat → length theta = nb →
  ∃ out, locnet_resample height width img theta = Some out ∧
         has_shape3 nb height width out ∧
         ∀ b, theta !! b = Some theta_zero →
              ∀ i j i' j', (i < height)%nat → (j < width)%nat →
                           (i' < height)%nat → (j' < width)%nat →
                ∃ v v', get3 out b i j = Some v ∧ get3 out b i' j' = Some v' ∧
                        Forall2 Qeq v v'.
Proof.
  intros Himg Hh Hw Hlen.
  destruct (locnet_resample_total height width img nb nh nw theta)
    as (out & Hout & Hshape & Hget); [done..|].
  exists out. split; [done|]. split; [done|].
  intros b Hth i j i' j' Hi Hj Hi' Hj'.
  assert (b < nb)%nat as Hb by (apply lookup_lt_Some in Hth; lia).
  assert (∀ i j, (i < height)%nat → (j < width)%nat →
            ∃ xv yv, get3 out b i j
                     = sample_pixel img b (dot3 (0, 0, 0) xv yv 1)
                                          (dot3 (0, 0, 0) xv yv 1)) as Hget0.
  { intros k l Hk Hl.
    destruct (lookup_lt_is_Some_2 (linspace (-1) 1 height) k) as [yv Hyv].
    { by rewrite linspace_length. }
    destruct (lookup_lt_is_Some_2 (linspace (-1) 1 width) l) as [xv Hxv].
    { by rewrite linspace_length. }
    exists xv, yv. by rewrite (Hget b k l theta_zero xv yv). }
  destruct (Hget0 i j Hi Hj) as (xv & yv & ->).
  destruct (Hget0 i' j' Hi' Hj') as (xv' & yv' & ->).
  destruct (sample_pixel_is_Some img nb nh nw b
              (dot3 (0, 0, 0) xv yv 1) (dot3 (0, 0, 0) xv yv 1)) as [v Hv]; [done..|].
  destruct (sample_pixel_Qeq img b
              (dot3 (0, 0, 0) xv yv 1) (dot3 (0, 0, 0) xv yv 1)
              (dot3 (0, 0, 0) xv' yv' 1) (dot3 (0, 0, 0) xv' yv' 1) v)
    as (v' & Hv' & Heq); [..|done|].
  { by rewrite !dot3_zero. }
  { by rewrite !dot3_zero. }
  by exists v, v'.
Qed.

Lemma degenerate_theta_total_witness :
  ∃ out v v', locnet_resample 4 4 img4x4 [theta_zero] = Some out ∧
              get3 out 0 0 0 = Some v ∧ get3 out 0 3 2 = Some v' ∧
              Forall2 Qeq v v'.
Proof.
  destruct (degenerate_theta_total 4 4 img4x4 1 4 4 [theta_zero]
              has_shape3_img4x4 ltac:(lia) ltac:(lia) eq_refl)
    as (out & Hout & _ & Hconst).
  destruct (Hconst 0%nat eq_refl 0%nat 0%nat 3%nat 2%nat
              ltac:(lia) ltac:(lia) ltac:(lia) ltac:(lia))
    as (v & v' & Hv & Hv' & Heq).
  exists out, v, v'. split; [exact Hout|]. split; [exact Hv|].
  split; [exact Hv'|exact Heq].
Defined.

(** C8 fails where it says that under the all-zero matrix the sampled
    coordinates all clamp to edge pixels.  On the 4x4 image every output
    pixel samples the rescaled position (1, 1): the corners are the columns
    and rows 1 and 2, the clip changes none of them, and the output is the
    value 5 of the inner pixel (1, 1) everywhere. *)
Lemma zero_theta_not_clamped :
  c_x0 corners_zero_theta = [replicate 4 (replicate 4 1%Z)] ∧
  c_x1 corners_zero_theta = [replicate 4 (replicate 4 2%Z)] ∧
  c_y0 corners_zero_theta = [replicate 4 (replicate 4 1%Z)] ∧
  c_y1 corners_zero_theta = [replicate 4 (replicate 4 2%Z)] ∧
  tmap Qfloor (c_x corners_zero_theta) = c_x0 corners_zero_theta ∧
  tmap Qfloor (c_y corners_zero_theta) = c_y0 corners_zero_theta ∧
  tmap4 Qred <$> locnet_resample 4 4 img4x4 [theta_zero]
  = Some [replicate 4 (replicate 4 [5])] ∧
  get3 img4x4 0 1 1 = Some [5].
Proof. split_and!; vm_compute; reflexivity. Qed.

(** ** C9: batch independence *)

(** C9.  If a batch of (image, matrix) pairs is restacked along a
    permutation [σ] of its indices, the output of grid generation followed
    by sampling is the output of the original batch restacked along [σ];
    and the output for the batch element [b] is the output of the pipeline
    on the batch that holds image [b] and matrix [b] alone. *)
Theorem batch_independence height width (img : tensor4) nb nh nw theta out :
  has_shape3 nb nh nw img → (0 < nh)%nat → (0 < nw)%nat → length theta = nb →
  locnet_resample height width img theta = Some out →
  (∀ (σ : list nat) (img' : tensor4) (theta' : list theta23),
     σ ≡ₚ seq 0 nb →
     Forall2 (λ k im, img !! k = Some im) σ img' →
     Forall2 (λ k th, theta !! k = Some th) σ theta' →
     ∃ out', locnet_resample height width img' theta' = Some out' ∧
             Forall2 (λ k o, out !! k = Some o) σ out') ∧
  (∀ b im th,
     img !! b = Some im → theta !! b = Some th →
     ∃ o, out !! b = Some o ∧
          locnet_resample height width [im] [th] = Some [o]).
Proof.
  intros Himg Hh Hw Hlen Hout. split.
  - intros σ img' theta' _ Himg' Htheta'.
    by eapply (locnet_resample_restack height width img).
  - intros b im th Him Hth.
    destruct (locnet_resample_restack height width img nb nh nw theta out
                [b] [im] [th]) as (out' & Hout' & Hall); [done..| | |].
    { by repeat constructor. }
    { by repeat constructor. }
    apply Forall2_cons_inv_l in Hall as (o & rest & Ho & Hnil & ->).
    apply Forall2_nil_inv_l in Hnil as ->. by exists o.
Qed.

Lemma batch_independence_witness :
  ∃ out out',
    locnet_resample 3 3 batch2 theta2 = Some out ∧
    locnet_resample 3 3 (img3x3_rev ++ img3x3)
      [((1 # 2, 0, 0), (0, 1 # 2, 0)); theta_id] = Some out' ∧
    Forall2 (λ k o, out !! k = Some o) [1; 0]%nat out'.
Proof.
  assert (has_shape3 2 3 3 batch2) as Hshape.
  { split; [reflexivity|]. repeat constructor. }
  destruct (locnet_resample_total 3 3 batch2 2 3 3 theta2 Hshape
              ltac:(lia) ltac:(lia) eq_refl) as (out & Hout & _).
  destruct (batch_independence 3 3 batch2 2 3 3 theta2 out Hshape
              ltac:(lia) ltac:(lia) eq_refl Hout) as [Hperm _].
  destruct (Hperm [1; 0]%nat (img3x3_rev ++ img3x3)
              [((1 # 2, 0, 0), (0, 1 # 2, 0)); theta_id])
    as (out' & Hout' & Hall).
  { apply perm_swap. }
  { repeat constructor. }
  { repeat constructor. }
  exists out, out'. split; [exact Hout|]. split; [exact Hout'|exact Hall].
Defined.

(** ** C10: samples outside [0, W_in-1) x [0, H_in-1) *)

(** C10, as the code has it.  At an output pixel whose rescaled x lies
    outside [0, W_in-1) (the last column W_in-1 included) the two x corner
    indices coincide after the clip, so the pixels are read in equal pairs
    (Ia = Ic, Ib = Id), and the weights cancel in pairs, wa + wc = 0 and
    wb + wd = 0; the four weights are all 0 when x is exactly W_in-1, but
    not in general.  The four products that line 207 sums therefore cancel
    in pairs, and over exact arithmetic the sampler returns 0 in every
    channel.  The same holds for y outside [0, H_in-1), with Ia = Ib,
    Ic = Id, wa + wb = 0 and wc + wd = 0.  Rounding is not modelled: in
    float32 the sum of the four cancelling products can leave a rounding
    residue in the place of an exact 0. *)
Theorem out_of_range_sample_is_zero (img : tensor4) nb nh nw oh ow
    (x y : tensor3 Q) out b i j xn yn :
  has_shape3 nb nh nw img → (0 < nh)%nat → (0 < nw)%nat →
  has_shape3 nb oh ow x → has_shape3 nb oh ow y →
  bilinear_sampler img x y = Some out →
  get3 x b i j = Some xn → get3 y b i j = Some yn →
  let c := sampler_corners img x y in
  let max_x := (Z.of_nat nw - 1)%Z in
  let max_y := (Z.of_nat nh - 1)%Z in
  let px := rescale max_x xn in
  let py := rescale max_y yn in
  ∃ wa wb wc wd x0 x1 y0 y1 pa pb pc pd v,
    get3 (w_a c) b i j = Some wa ∧ get3 (w_b c) b i j = Some wb ∧
    get3 (w_c c) b i j = Some wc ∧ get3 (w_d c) b i j = Some wd ∧
    get3 (c_x0 c) b i j = Some x0 ∧ get3 (c_x1 c) b i j = Some x1 ∧
    get3 (c_y0 c) b i j = Some y0 ∧ get3 (c_y1 c) b i j = Some y1 ∧
    gather_nd1 img [Z.of_nat b; y0; x0] = Some pa ∧
    gather_nd1 img [Z.of_nat b; y1; x0] = Some pb ∧
    gather_nd1 img [Z.of_nat b; y0; x1] = Some pc ∧
    gather_nd1 img [Z.of_nat b; y1; x1] = Some pd ∧
    get3 out b i j = Some v ∧ v = blend (wa, wb, wc, wd) pa pb pc pd ∧
    (px < 0 ∨ inject_Z max_x <= px →
       x0 = x1 ∧ pa = pc ∧ pb = pd ∧ wa + wc == 0 ∧ wb + wd == 0 ∧
       Forall (λ q, q == 0) v) ∧
    (py < 0 ∨ inject_Z max_y <= py →
       y0 = y1 ∧ pa = pb ∧ pc = pd ∧ wa + wb == 0 ∧ wc + wd == 0 ∧
       Forall (λ q, q == 0) v) ∧
    (px == inject_Z max_x ∨ py == inject_Z max_y →
       wa == 0 ∧ wb == 0 ∧ wc == 0 ∧ wd == 0).
Proof.
  intros Himg Hh Hw Hx Hy Hout Hxn Hyn c max_x max_y px py.
  destruct (sampler_pairs_outside img nb nh nw oh ow x y out b i j xn yn)
    as (wa & wb & wc & wd & x0 & x1 & y0 & y1 & pa & pb & pc & pd & v
        & Ha & Hb & Hc & Hd & Hx0 & Hx1 & Hy0 & Hy1 & Hpa & Hpb & Hpc & Hpd
        & Hv & Hblend & Hxoff & Hyoff); [done..|].
  exists wa, wb, wc, wd, x0, x1, y0, y1, pa, pb, pc, pd, v.
  split_and!; [done..|].
  assert (b < nb)%nat as Hlt.
  { apply (has_shape3_lookup nb oh ow x b i j); [done|]. eauto. }
  destruct (dims_has_shape3 img nb nh nw) as [HH HW]; [done|lia|done|].
  destruct (get3_weights img x y b i j xn yn Hxn Hyn) as (Ha' & Hb' & Hc' & Hd').
  fold c in Ha', Hb', Hc', Hd'. rewrite HH, HW in Ha', Hb', Hc', Hd'.
  fold max_x max_y px py in Ha', Hb', Hc', Hd'.
  assert (weights_at max_x max_y px py = (wa, wb, wc, wd)) as Hweights.
  { destruct (weights_at max_x max_y px py) as [[[wa' wb'] wc'] wd'].
    cbn [fst snd] in Ha', Hb', Hc', Hd'. unfold c in Ha', Hb', Hc', Hd'.
    congruence. }
  assert (∀ m p, (0 ≤ m)%Z → p == inject_Z m →
            corner0 m p = m ∧ corner1 m p = m) as Hlast.
  { intros m p Hm Hp. unfold corner0, corner1, clip_by_value.
    rewrite Hp, Qfloor_Z. lia. }
  unfold weights_at in Hweights. injection Hweights as <- <- <- <-.
  intros [Hp|Hp].
  + destruct (Hlast max_x px) as [-> ->]; [unfold max_x; lia|done|].
    rewrite Hp. split_and!; ring.
  + destruct (Hlast max_y py) as [-> ->]; [unfold max_y; lia|done|].
    rewrite Hp. split_and!; ring.
Qed.

Lemma out_of_range_sample_is_zero_witness :
  ∃ out v,
    bilinear_sampler img3x3 [[[-7]]] [[[40]]] = Some out ∧
    get3 (c_x0 corners_far) 0 0 0 = get3 (c_x1 corners_far) 0 0 0 ∧
    get3 out 0 0 0 = Some v ∧ Forall (λ q, q == 0) v.
Proof.
  destruct (bilinear_sampler_total img3x3 1 3 3 1 1 [[[-7]]] [[[40]]]
              has_shape3_img3x3 ltac:(lia) ltac:(lia)
              (has_shape3_pixel _) (has_shape3_pixel _)) as (out & Hout & _).
  destruct (out_of_range_sample_is_zero img3x3 1 3 3 1 1 [[[-7]]] [[[40]]]
              _ 0 0 0 (-7) 40 has_shape3_img3x3 ltac:(lia) ltac:(lia)
              (has_shape3_pixel _) (has_shape3_pixel _) Hout eq_refl eq_refl)
    as (wa & wb & wc & wd & x0 & x1 & y0 & y1 & pa & pb & pc & pd & v
        & _ & _ & _ & _ & Hx0 & Hx1 & _ & _ & _ & _ & _ & _ & Hv & _
        & Hxoff & _ & _).
  destruct Hxoff as (Hco & _ & _ & _ & _ & Hzero); [left; reflexivity|].
  exists out, v.
  split; [exact Hout|]. split; [|split; [exact Hv|exact Hzero]].
  change (get3 (c_x0 (sampler_corners img3x3 [[[-7]]] [[[40]]])) 0 0 0
          = get3 (c_x1 (sampler_corners img3x3 [[[-7]]] [[[40]]])) 0 0 0).
  rewrite Hx0, Hx1, Hco. reflexivity.
Defined.

(** C10 fails where it says that the four weights are 0: in the 3x3 image
    the normalized (-2, 0) is rescaled to (-1/2, 1/2); x is outside [0, 2),
    both x corners are column 0, and wa = 1/4. *)
Lemma out_of_range_weight_not_zero :
  ∃ px wa,
    get3 (c_x corners_left) 0 0 0 = Some px ∧ px < 0 ∧
    get3 (c_x0 corners_left) 0 0 0 = get3 (c_x1 corners_left) 0 0 0 ∧
    get3 (w_a corners_left) 0 0 0 = Some wa ∧
    wa == 1 # 4 ∧ ¬ wa == 0.
Proof.
  eexists _, _. split_and!; [reflexivity|reflexivity|reflexivity|reflexivity|..].
  - vm_compute. reflexivity.
  - intros H. vm_compute in H. discriminate.
Qed.

(** * Further properties of the code *)

(** ** get_pixel_value *)

Lemma tf_gather_nd_None (img : tensor4) (idx : tensor3 (list Z)) b i j v :
  get3 idx b i j = Some v → gather_nd1 img v = None →
  tf_gather_nd img idx = None.
Proof.
  intros (p & r & Hp & Hr & Hv)%get3_Some Hnone. unfold tf_gather_nd.
  apply mapM_None. apply Exists_exists. exists p.
  split; [by eapply list_elem_of_lookup_2|].
  apply mapM_None. apply Exists_exists. exists r.
  split; [by eapply list_elem_of_lookup_2|].
  apply mapM_None. apply Exists_exists. exists v.
  split; [by eapply list_elem_of_lookup_2|done].
Qed.

Lemma get3_batch_tile_Some {A} nb nh nw (x : tensor3 A) b i j :
  has_shape3 nb nh nw x → is_Some (get3 x b i j) →
  get3 (batch_tile (shape3 x).1.1 (shape3 x).1.2 (shape3 x).2) b i j
  = Some (Z.of_nat b).
Proof.
  intros Hx Hsome.
  pose proof (batch_tile_has_shape3 _ _ _ _ Hx) as Hb.
  apply (has_shape3_lookup nb nh nw x b i j Hx) in Hsome.
  apply (has_shape3_lookup nb nh nw _ b i j Hb) in Hsome as [v Hv].
  rewrite Hv. f_equal. by eapply get3_batch_tile.
Qed.

(** X1.  [get_pixel_value] is a gather along the batch: for index tensors
    [x], [y] of one shape (B, H, W) over the batch of the image, with every
    entry inside the image, the result has that shape and its entry
    (b, i, j) is the channel vector [img[b, y[b,i,j], x[b,i,j], :]], read
    from the image [b] itself. *)
Theorem get_pixel_value_gathers (img : tensor4) nb nh nw oh ow (x y : tensor3 Z) :
  has_shape3 nb nh nw img → has_shape3 nb oh ow x → has_shape3 nb oh ow y →
  (∀ b i j v, get3 x b i j = Some v → (0 ≤ v < Z.of_nat nw)%Z) →
  (∀ b i j v, get3 y b i j = Some v → (0 ≤ v < Z.of_nat nh)%Z) →
  ∃ out, get_pixel_value img x y = Some out ∧ has_shape3 nb oh ow out ∧
    ∀ b i j xv yv, get3 x b i j = Some xv → get3 y b i j = Some yv →
      is_Some (get3 out b i j) ∧
      get3 out b i j = get3 img b (Z.to_nat yv) (Z.to_nat xv).
Proof.
  intros Himg Hx Hy Hxr Hyr.
  assert (∀ b i j xv yv, get3 x b i j = Some xv → get3 y b i j = Some yv →
            is_Some (gather_nd1 img [Z.of_nat b; yv; xv])) as Hin.
  { intros b i j xv yv Hxv Hyv.
    apply (gather_nd1_is_Some img nb nh nw); [done| |by eauto..].
    apply (has_shape3_lookup nb oh ow x b i j); [done|]. eauto. }
  destruct (get_pixel_value_Some img nb oh ow x y Hx Hy Hin)
    as (out & Hout & Hshape & Hget).
  exists out. split; [done|]. split; [done|].
  intros b i j xv yv Hxv Hyv. rewrite (Hget b i j xv yv) by done.
  split; [by eapply Hin|].
  apply gather_nd1_get3; [apply (Hyr b i j yv Hyv)|apply (Hxr b i j xv Hxv)].
Qed.

Lemma has_shape3_idx : has_shape3 1 2 2 idx_x ∧ has_shape3 1 2 2 idx_y
                       ∧ has_shape3 1 2 2 idx_bad.
Proof. split_and!; (split; [reflexivity|]); repeat constructor. Qed.

Lemma idx_in_range (t : tensor3 Z) :
  t = idx_x ∨ t = idx_y →
  ∀ b i j v, get3 t b i j = Some v → (0 ≤ v < Z.of_nat 3)%Z.
Proof.
  intros Ht b i j v Hv.
  assert (is_Some (get3 t b i j)) as Hs by eauto.
  apply (has_shape3_lookup 1 2 2 t b i j) in Hs;
    [|destruct Ht as [-> | ->]; apply has_shape3_idx].
  destruct Hs as (Hb & Hi & Hj).
  destruct b as [|b]; [|lia]. destruct i as [|[|i]]; [| |lia];
    (destruct j as [|[|j]]; [| |lia]);
    destruct Ht as [-> | ->]; vm_compute in Hv; injection Hv as <-; lia.
Qed.

Lemma get_pixel_value_gathers_witness :
  ∃ out, get_pixel_value img3x3 idx_x idx_y = Some out ∧
         get3 out 0 0 1 = get3 img3x3 0 (Z.to_nat 0) (Z.to_nat 2).
Proof.
  destruct (get_pixel_value_gathers img3x3 1 3 3 2 2 idx_x idx_y
              has_shape3_img3x3 (proj1 has_shape3_idx)
              (proj1 (proj2 has_shape3_idx))
              (idx_in_range idx_x (or_introl eq_refl))
              (idx_in_range idx_y (or_intror eq_refl)))
    as (out & Hout & _ & Hget).
  exists out. split; [exact Hout|].
  exact (proj2 (Hget 0%nat 0%nat 1%nat 2%Z 0%Z eq_refl eq_refl)).
Defined.

Lemma get_pixel_value_None (img : tensor4) nb nh nw nb' oh ow
    (x y : tensor3 Z) b i j xv yv :
  has_shape3 nb nh nw img → has_shape3 nb' oh ow x → has_shape3 nb' oh ow y →
  get3 x b i j = Some xv → get3 y b i j = Some yv →
  ¬ ((b < nb)%nat ∧ (0 ≤ yv < Z.of_nat nh)%Z ∧ (0 ≤ xv < Z.of_nat nw)%Z) →
  get_pixel_value img x y = None.
Proof.
  intros Himg Hx Hy Hxv Hyv Hout. unfold get_pixel_value.
  pose proof (batch_tile_has_shape3 _ _ _ _ Hx) as Hb.
  pose proof (get3_batch_tile_Some nb' oh ow x b i j Hx ltac:(eauto)) as Hbv.
  destruct (shape3 x) as [[bs h] w]; simpl in Hb, Hbv.
  rewrite (tf_stack3_Some nb' oh ow) by done. simpl.
  apply (tf_gather_nd_None img _ b i j [Z.of_nat b; yv; xv]).
  { rewrite !get3_tzip, Hbv, Hyv, Hxv. done. }
  unfold gather_nd1. case_decide as Hnn; [|done].
  apply eq_None_not_Some.
  intros Hs%(has_shape3_lookup nb nh nw img); [|done]. lia.
Qed.

(** X2.  [get_pixel_value] raises as soon as one index is outside the image:
    a negative or too large row or column, or a batch position the image
    does not have. *)
Theorem get_pixel_value_out_of_range (img : tensor4) nb nh nw nb' oh ow
    (x y : tensor3 Z) b i j xv yv :
  has_shape3 nb nh nw img → has_shape3 nb' oh ow x → has_shape3 nb' oh ow y →
  get3 x b i j = Some xv → get3 y b i j = Some yv →
  ¬ ((b < nb)%nat ∧ (0 ≤ yv < Z.of_nat nh)%Z ∧ (0 ≤ xv < Z.of_nat nw)%Z) →
  get_pixel_value img x y = None.
Proof. apply get_pixel_value_None. Qed.

Lemma get_pixel_value_out_of_range_witness :
  get_pixel_value img3x3 idx_bad idx_y = None.
Proof.
  apply (get_pixel_value_out_of_range img3x3 1 3 3 1 2 2 idx_bad idx_y
           0 0 1 3%Z 0%Z has_shape3_img3x3
           (proj2 (proj2 has_shape3_idx)) (proj1 (proj2 has_shape3_idx))
           eq_refl eq_refl).
  lia.
Defined.

(** X3.  [get_pixel_value] raises when [x] and [y] do not have the same
    shape ([tf.stack] needs operands of one shape). *)
Theorem get_pixel_value_shape_mismatch (img : tensor4) (x y : tensor3 Z) :
  row_lengths x ≠ row_lengths y → get_pixel_value img x y = None.
Proof.
  intros Hne. unfold get_pixel_value.
  destruct (shape3 x) as [[bs h] w].
  destruct (tf_stack3 _ y x) as [idx|] eqn:Hidx; [|done].
  apply tf_stack3_shape in Hidx. congruence.
Qed.

Lemma get_pixel_value_shape_mismatch_witness :
  get_pixel_value img3x3 [[[0%Z; 1%Z]]] [[[0%Z]]] = None.
Proof.
  apply get_pixel_value_shape_mismatch. vm_compute. discriminate.
Defined.

(** ** affine_grid_generator *)

(** The mesh points are evenly spaced from [start] to [stop]. *)
Lemma linspace_lookup start stop num j :
  (2 ≤ num)%nat → (j < num)%nat →
  ∃ v, linspace start stop num !! j = Some v ∧
       v == start + (stop - start) * inject_Z (Z.of_nat j)
                    / inject_Z (Z.of_nat num - 1).
Proof.
  intros Hn Hj. unfold linspace. rewrite lookup_take_lt by lia.
  replace (Nat.max (num - 1) 1) with (num - 1)%nat by lia.
  replace (Z.of_nat (num - 1)) with (Z.of_nat num - 1)%Z by lia.
  assert (¬ inject_Z (Z.of_nat num - 1) == 0) as Hnz.
  { change 0 with (inject_Z 0). rewrite inject_Z_injective. lia. }
  destruct j as [|j].
  { eexists. split; [done|]. simpl. field. done. }
  rewrite lookup_cons. cbn [Nat.pred].
  destruct (decide (j < num - 1 - 1)%nat) as [Hlt|Hge].
  - rewrite lookup_app_l by (rewrite length_fmap, length_seq; lia).
    rewrite list_lookup_fmap, lookup_seq_lt by lia. simpl.
    eexists. split; [done|].
    replace (Z.of_nat (1 + j)) with (Z.of_nat (S j)) by lia. field. done.
  - rewrite lookup_app_r by (rewrite length_fmap, length_seq; lia).
    rewrite length_fmap, length_seq.
    replace (j - (num - 1 - 1))%nat with 0%nat by lia.
    eexists. split; [done|].
    replace (Z.of_nat (S j)) with (Z.of_nat num - 1)%Z by lia. field. done.
Qed.

(** X4.  The sampling grid has one entry per matrix, each made of an x part
    and a y part of shape (height, width): the result has shape
    (num_batch, 2, H, W), also for an empty batch and for H or W zero. *)
Theorem affine_grid_generator_shape height width theta :
  length (affine_grid_generator height width theta) = length theta ∧
  Forall (λ g, ∃ gx gy : list (list Q),
                 g = [gx; gy] ∧
                 length gx = height ∧ Forall (λ r, length r = width) gx ∧
                 length gy = height ∧ Forall (λ r, length r = width) gy)
         (affine_grid_generator height width theta).
Proof.
  rewrite affine_grid_generator_closed. split; [by rewrite length_fmap|].
  rewrite Forall_fmap. apply Forall_forall. intros th _. simpl.
  exists (grid_of height width th.1), (grid_of height width th.2).
  pose proof (grid_of_shape height width th.1) as [? ?].
  pose proof (grid_of_shape height width th.2) as [? ?]. done.
Qed.

(** X5.  The grid is the affine image of an evenly spaced mesh: with two
    rows and two columns or more, the entry (b, i, j) of the x part is
    t11 * x_j + t12 * y_i + t13 and that of the y part is
    t21 * x_j + t22 * y_i + t23, where (t11 .. t23) is the matrix [b],
    x_j = -1 + 2 j / (W - 1) and y_i = -1 + 2 i / (H - 1). *)
Theorem affine_grid_generator_affine height width theta b i j
    (t11 t12 t13 t21 t22 t23 : Q) :
  (2 ≤ height)%nat → (2 ≤ width)%nat →
  theta !! b = Some ((t11, t12, t13), (t21, t22, t23)) →
  (i < height)%nat → (j < width)%nat →
  ∃ gx gy,
    get3 (grid_slice 0 (affine_grid_generator height width theta)) b i j = Some gx ∧
    get3 (grid_slice 1 (affine_grid_generator height width theta)) b i j = Some gy ∧
    gx == t11 * (-1 + 2 * inject_Z (Z.of_nat j) / inject_Z (Z.of_nat width - 1))
          + t12 * (-1 + 2 * inject_Z (Z.of_nat i) / inject_Z (Z.of_nat height - 1))
          + t13 ∧
    gy == t21 * (-1 + 2 * inject_Z (Z.of_nat j) / inject_Z (Z.of_nat width - 1))
          + t22 * (-1 + 2 * inject_Z (Z.of_nat i) / inject_Z (Z.of_nat height - 1))
          + t23.
Proof.
  intros Hh Hw Hth Hi Hj.
  destruct (linspace_lookup (-1) 1 height i Hh Hi) as (yv & Hyv & Hy).
  destruct (linspace_lookup (-1) 1 width j Hw Hj) as (xv & Hxv & Hx).
  destruct (grid_slices_closed height width theta) as [-> ->].
  exists (dot3 (t11, t12, t13) xv yv 1), (dot3 (t21, t22, t23) xv yv 1).
  assert (¬ inject_Z (Z.of_nat width - 1) == 0) as Hwz.
  { change 0 with (inject_Z 0). rewrite inject_Z_injective. lia. }
  assert (¬ inject_Z (Z.of_nat height - 1) == 0) as Hhz.
  { change 0 with (inject_Z 0). rewrite inject_Z_injective. lia. }
  split_and!.
  - apply (get3_grid_of height width fst). by eexists _, xv, yv.
  - apply (get3_grid_of height width snd). by eexists _, xv, yv.
  - unfold dot3. rewrite Hx, Hy. field. done.
  - unfold dot3. rewrite Hx, Hy. field. done.
Qed.

Lemma affine_grid_generator_affine_witness :
  ∃ gx gy,
    get3 (grid_slice 0 (affine_grid_generator 3 3 theta2)) 1 0 2 = Some gx ∧
    get3 (grid_slice 1 (affine_grid_generator 3 3 theta2)) 1 0 2 = Some gy ∧
    gx == 1 # 2 ∧ gy == - (1 # 2).
Proof.
  destruct (affine_grid_generator_affine 3 3 theta2 1 0 2
              (1 # 2) 0 0 0 (1 # 2) 0 ltac:(lia) ltac:(lia) eq_refl
              ltac:(lia) ltac:(lia)) as (gx & gy & Hgx & Hgy & Hx & Hy).
  exists gx, gy. split; [exact Hgx|]. split; [exact Hgy|].
  split; [rewrite Hx|rewrite Hy]; reflexivity.
Defined.

(** X6.  With a single column (image_width = 1) the mesh has the one
    abscissa -1, the left border, not the centre 0: every entry of the grid
    is t11 * (-1) + t12 * y_i + t13 (x part) and t21 * (-1) + t22 * y_i + t23
    (y part).  The same holds for a single row and the ordinate -1. *)
Theorem affine_grid_generator_single_column height theta b i
    (t11 t12 t13 t21 t22 t23 : Q) yv :
  theta !! b = Some ((t11, t12, t13), (t21, t22, t23)) →
  linspace (-1) 1 height !! i = Some yv →
  get3 (grid_slice 0 (affine_grid_generator height 1 theta)) b i 0
  = Some (t11 * -1 + t12 * yv + t13 * 1) ∧
  get3 (grid_slice 1 (affine_grid_generator height 1 theta)) b i 0
  = Some (t21 * -1 + t22 * yv + t23 * 1) ∧
  get3 (grid_slice 0 (affine_grid_generator 1 height theta)) b 0 i
  = Some (t11 * yv + t12 * -1 + t13 * 1) ∧
  get3 (grid_slice 1 (affine_grid_generator 1 height theta)) b 0 i
  = Some (t21 * yv + t22 * -1 + t23 * 1).
Proof.
  intros Hth Hyv.
  destruct (grid_slices_closed height 1 theta) as [-> ->].
  destruct (grid_slices_closed 1 height theta) as [-> ->].
  split_and!.
  - apply (get3_grid_of height 1 fst). by eexists _, (-1), yv.
  - apply (get3_grid_of height 1 snd). by eexists _, (-1), yv.
  - apply (get3_grid_of 1 height fst). by eexists _, yv, (-1).
  - apply (get3_grid_of 1 height snd). by eexists _, yv, (-1).
Qed.

Lemma affine_grid_generator_single_column_witness :
  get3 (grid_slice 0 (affine_grid_generator 1 1 [theta_id])) 0 0 0
  = Some (1 * -1 + 0 * -1 + 0 * 1).
Proof.
  exact (proj1 (affine_grid_generator_single_column 1 [theta_id] 0 0
                  1 0 0 0 1 0 (-1) eq_refl eq_refl)).
Defined.

(** ** bilinear_sampler *)

(** One output pixel of a successful call, in terms of the four pixels it
    reads. *)
Lemma bilinear_sampler_pixel (img : tensor4) nb nh nw oh ow (x y : tensor3 Q)
    out b i j xn yn :
  has_shape3 nb nh nw img → (0 < nh)%nat → (0 < nw)%nat →
  has_shape3 nb oh ow x → has_shape3 nb oh ow y →
  bilinear_sampler img x y = Some out →
  get3 x b i j = Some xn → get3 y b i j = Some yn →
  let max_x := (Z.of_nat nw - 1)%Z in
  let max_y := (Z.of_nat nh - 1)%Z in
  let px := rescale max_x xn in
  let py := rescale max_y yn in
  ∃ Ia Ib Ic Id,
    get3 img b (Z.to_nat (corner0 max_y py)) (Z.to_nat (corner0 max_x px)) = Some Ia ∧
    get3 img b (Z.to_nat (corner1 max_y py)) (Z.to_nat (corner0 max_x px)) = Some Ib ∧
    get3 img b (Z.to_nat (corner0 max_y py)) (Z.to_nat (corner1 max_x px)) = Some Ic ∧
    get3 img b (Z.to_nat (corner1 max_y py)) (Z.to_nat (corner1 max_x px)) = Some Id ∧
    get3 out b i j = Some (blend (weights_at max_x max_y px py) Ia Ib Ic Id).
Proof.
  intros Himg Hh Hw Hx Hy Hout Hxn Hyn max_x max_y px py.
  destruct (bilinear_sampler_total img nb nh nw oh ow x y)
    as (out' & Hout' & _ & Hget); [done..|].
  assert (out' = out) as -> by congruence.
  assert (b < nb)%nat as Hb.
  { apply (has_shape3_lookup nb oh ow x b i j); [done|]. eauto. }
  destruct (dims_has_shape3 img nb nh nw) as [HH HW]; [done|lia|done|].
  destruct (sample_pixel_is_Some img nb nh nw b xn yn) as [v Hv]; [done..|].
  rewrite (Hget b i j xn yn Hxn Hyn), Hv.
  apply sample_pixel_Some in Hv. cbv zeta in Hv. rewrite HH, HW in Hv.
  fold max_x max_y in Hv. fold px py in Hv.
  destruct Hv as (Ia & Ib & Ic & Id & HIa & HIb & HIc & HId & ->).
  pose proof (corner_in_image img nb nh nw Himg Hh Hw) as Hc.
  destruct (Hc px) as (Hx0 & Hx1 & _ & _).
  destruct (Hc py) as (_ & _ & Hy0 & Hy1).
  rewrite HW in Hx0, Hx1. rewrite HH in Hy0, Hy1.
  fold max_x in Hx0, Hx1. fold max_y in Hy0, Hy1.
  rewrite gather_nd1_get3 in HIa, HIb, HIc, HId by lia.
  by exists Ia, Ib, Ic, Id.
Qed.

Lemma bilinear_sampler_channels (img : tensor4) nb nh nw nc oh ow (x y : tensor3 Q) :
  has_shape3 nb nh nw img → (0 < nh)%nat → (0 < nw)%nat →
  (∀ b i j c, get3 img b i j = Some c → length c = nc) →
  has_shape3 nb oh ow x → has_shape3 nb oh ow y →
  ∃ out, bilinear_sampler img x y = Some out ∧ has_shape3 nb oh ow out ∧
         ∀ b i j c, get3 out b i j = Some c → length c = nc.
Proof.
  intros Himg Hh Hw Hnc Hx Hy.
  destruct (bilinear_sampler_total img nb nh nw oh ow x y)
    as (out & Hout & Hshape & _); [done..|].
  exists out. split; [done|]. split; [done|].
  intros b i j c Hc.
  assert (is_Some (get3 out b i j)) as Hs by eauto.
  apply (has_shape3_lookup nb oh ow out b i j Hshape) in Hs.
  destruct (proj2 (has_shape3_lookup nb oh ow x b i j Hx) Hs) as [xn Hxn].
  destruct (proj2 (has_shape3_lookup nb oh ow y b i j Hy) Hs) as [yn Hyn].
  destruct (bilinear_sampler_pixel img nb nh nw oh ow x y out b i j xn yn)
    as (Ia & Ib & Ic & Id & HIa & HIb & HIc & HId & Hget); [done..|].
  rewrite Hget in Hc. simplify_eq. rewrite blend_length.
  rewrite (Hnc _ _ _ _ HIa), (Hnc _ _ _ _ HIb), (Hnc _ _ _ _ HIc),
          (Hnc _ _ _ _ HId). lia.
Qed.

(** X7.  The output of [bilinear_sampler] has the size of the coordinate
    tensors and the channels of the image: for an image batch (B, H, W, C)
    with H, W >= 1 and coordinates of shape (B, H', W'), the output has
    shape (B, H', W', C), whatever H and W are. *)
Theorem bilinear_sampler_shape (img : tensor4) nb nh nw nc oh ow (x y : tensor3 Q) :
  has_shape3 nb nh nw img → (0 < nh)%nat → (0 < nw)%nat →
  (∀ b i j c, get3 img b i j = Some c → length c = nc) →
  has_shape3 nb oh ow x → has_shape3 nb oh ow y →
  ∃ out, bilinear_sampler img x y = Some out ∧ has_shape3 nb oh ow out ∧
         ∀ b i j c, get3 out b i j = Some c → length c = nc.
Proof. apply bilinear_sampler_channels. Qed.

Lemma channels_img3x3_2ch b i j c :
  get3 img3x3_2ch b i j = Some c → length c = 2%nat.
Proof.
  intros Hc. assert (is_Some (get3 img3x3_2ch b i j)) as Hs by eauto.
  apply (has_shape3_lookup 1 3 3 img3x3_2ch b i j) in Hs.
  2:{ split; [reflexivity|]. repeat constructor. }
  destruct Hs as (Hb & Hi & Hj). destruct b as [|b]; [|lia].
  destruct i as [|[|[|i]]]; [| | |lia];
    (destruct j as [|[|[|j]]]; [| | |lia]);
    vm_compute in Hc; by injection Hc as <-.
Qed.

Lemma has_shape3_img3x3_2ch : has_shape3 1 3 3 img3x3_2ch.
Proof. split; [reflexivity|]. repeat constructor. Qed.

Lemma bilinear_sampler_shape_witness :
  ∃ out, bilinear_sampler img3x3_2ch [[[0]]] [[[1 # 3]]] = Some out ∧
         has_shape3 1 1 1 out ∧
         ∀ b i j c, get3 out b i j = Some c → length c = 2%nat.
Proof.
  exact (bilinear_sampler_shape img3x3_2ch 1 3 3 2 1 1 [[[0]]] [[[1 # 3]]]
           has_shape3_img3x3_2ch ltac:(lia) ltac:(lia) channels_img3x3_2ch
           (has_shape3_pixel _) (has_shape3_pixel _)).
Defined.

Lemma convex4 (wa wb wc wd a b c d lo hi : Q) :
  0 <= wa → 0 <= wb → 0 <= wc → 0 <= wd → wa + wb + wc + wd == 1 →
  lo <= a <= hi → lo <= b <= hi → lo <= c <= hi → lo <= d <= hi →
  lo <= wa * a + wb * b + wc * c + wd * d <= hi.
Proof.
  intros Hwa Hwb Hwc Hwd Hsum [Ha1 Ha2] [Hb1 Hb2] [Hc1 Hc2] [Hd1 Hd2].
  assert (∀ w v, 0 <= w → 0 <= v → 0 <= w * v) as Hmul
    by (intros; by apply Qmult_le_0_compat).
  split.
  - assert (0 <= wa * (a - lo) + wb * (b - lo) + wc * (c - lo) + wd * (d - lo)) as H.
    { pose proof (Hmul wa (a - lo) Hwa ltac:(lra)).
      pose proof (Hmul wb (b - lo) Hwb ltac:(lra)).
      pose proof (Hmul wc (c - lo) Hwc ltac:(lra)).
      pose proof (Hmul wd (d - lo) Hwd ltac:(lra)). lra. }
    assert (wa * (a - lo) + wb * (b - lo) + wc * (c - lo) + wd * (d - lo)
            == wa * a + wb * b + wc * c + wd * d - (wa + wb + wc + wd) * lo) as E
      by ring.
    rewrite E, Hsum in H. lra.
  - assert (0 <= wa * (hi - a) + wb * (hi - b) + wc * (hi - c) + wd * (hi - d)) as H.
    { pose proof (Hmul wa (hi - a) Hwa ltac:(lra)).
      pose proof (Hmul wb (hi - b) Hwb ltac:(lra)).
      pose proof (Hmul wc (hi - c) Hwc ltac:(lra)).
      pose proof (Hmul wd (hi - d) Hwd ltac:(lra)). lra. }
    assert (wa * (hi - a) + wb * (hi - b) + wc * (hi - c) + wd * (hi - d)
            == (wa + wb + wc + wd) * hi - (wa * a + wb * b + wc * c + wd * d)) as E
      by ring.
    rewrite E, Hsum in H. lra.
Qed.

(** Inside the image the four weights are a partition of unity into
    non-negative parts. *)
Lemma weights_at_inside max_x max_y px py :
  0 <= px → px < inject_Z max_x → 0 <= py → py < inject_Z max_y →
  let '(wa, wb, wc, wd) := weights_at max_x max_y px py in
  0 <= wa ∧ 0 <= wb ∧ 0 <= wc ∧ 0 <= wd ∧ wa + wb + wc + wd == 1.
Proof.
  intros Hx0 Hx1 Hy0 Hy1. unfold weights_at. cbv zeta.
  destruct (corners_inside max_x px Hx0 Hx1) as [-> ->].
  destruct (corners_inside max_y py Hy0 Hy1) as [-> ->].
  rewrite !inject_Z_plus.
  pose proof (Qfloor_le px). pose proof (Qlt_floor px).
  pose proof (Qfloor_le py). pose proof (Qlt_floor py).
  rewrite inject_Z_plus in *.
  split_and!; try (apply Qmult_le_0_compat; lra). ring.
Qed.

(** X8.  Interpolation never overshoots: when the rescaled position lies
    inside [0, W_in-1) x [0, H_in-1), every channel of the output pixel lies
    between any two bounds that hold for all the values of that image.  In
    particular a constant image is reproduced there. *)
Theorem interior_sample_within_bounds (img : tensor4) nb nh nw oh ow
    (x y : tensor3 Q) out b i j xn yn (lo hi : Q) :
  has_shape3 nb nh nw img → (0 < nh)%nat → (0 < nw)%nat →
  has_shape3 nb oh ow x → has_shape3 nb oh ow y →
  bilinear_sampler img x y = Some out →
  get3 x b i j = Some xn → get3 y b i j = Some yn →
  0 <= rescale (Z.of_nat nw - 1) xn →
  rescale (Z.of_nat nw - 1) xn < inject_Z (Z.of_nat nw - 1) →
  0 <= rescale (Z.of_nat nh - 1) yn →
  rescale (Z.of_nat nh - 1) yn < inject_Z (Z.of_nat nh - 1) →
  (∀ i' j' c, get3 img b i' j' = Some c → Forall (λ q, lo <= q <= hi) c) →
  ∃ v, get3 out b i j = Some v ∧ Forall (λ q, lo <= q <= hi) v.
Proof.
  intros Himg Hh Hw Hx Hy Hout Hxn Hyn Hx0 Hx1 Hy0 Hy1 Hbnd.
  destruct (bilinear_sampler_pixel img nb nh nw oh ow x y out b i j xn yn)
    as (Ia & Ib & Ic & Id & HIa & HIb & HIc & HId & Hget); [done..|].
  eexists. split; [exact Hget|].
  pose proof (weights_at_inside _ (Z.of_nat nh - 1) _ _ Hx0 Hx1 Hy0 Hy1) as Hwt.
  destruct (weights_at _ _ _ _) as [[[wa wb] wc] wd].
  destruct Hwt as (Hwa & Hwb & Hwc & Hwd & Hsum).
  apply Forall_lookup.
  intros k q (a & b' & c & d & Ha & Hb & Hc & Hd & ->)%blend_lookup.
  pose proof (Hbnd _ _ _ HIa) as Ba. pose proof (Hbnd _ _ _ HIb) as Bb.
  pose proof (Hbnd _ _ _ HIc) as Bc. pose proof (Hbnd _ _ _ HId) as Bd.
  rewrite Forall_lookup in Ba, Bb, Bc, Bd.
  apply convex4; eauto.
Qed.

Lemma bounds_img3x3 i j c :
  get3 img3x3 0 i j = Some c → Forall (λ q, 1 <= q <= 9) c.
Proof.
  intros Hc. assert (is_Some (get3 img3x3 0 i j)) as Hs by eauto.
  apply (has_shape3_lookup 1 3 3 img3x3 0 i j has_shape3_img3x3) in Hs.
  destruct Hs as (_ & Hi & Hj).
  destruct i as [|[|[|i]]]; [| | |lia];
    (destruct j as [|[|[|j]]]; [| | |lia]);
    vm_compute in Hc; injection Hc as <-;
    (constructor; [split; discriminate|constructor]).
Qed.

Lemma interior_sample_within_bounds_witness :
  ∃ out v, bilinear_sampler img3x3 [[[0]]] [[[1 # 3]]] = Some out ∧
           get3 out 0 0 0 = Some v ∧ Forall (λ q, 1 <= q <= 9) v.
Proof.
  destruct (bilinear_sampler_total img3x3 1 3 3 1 1 [[[0]]] [[[1 # 3]]]
              has_shape3_img3x3 ltac:(lia) ltac:(lia)
              (has_shape3_pixel _) (has_shape3_pixel _)) as (out & Hout & _).
  destruct (interior_sample_within_bounds img3x3 1 3 3 1 1 [[[0]]] [[[1 # 3]]]
              out 0 0 0 0 (1 # 3) 1 9 has_shape3_img3x3 ltac:(lia) ltac:(lia)
              (has_shape3_pixel _) (has_shape3_pixel _) Hout eq_refl eq_refl)
    as (v & Hv & Hb); try (vm_compute; congruence).
  { apply bounds_img3x3. }
  exists out, v. split; [exact Hout|]. split; [exact Hv|exact Hb].
Defined.

Lemma bilinear_sampler_at_grid_point (img : tensor4) nb nh nw nc oh ow
    (x y : tensor3 Q) out b i j xn yn (m n : Z) :
  has_shape3 nb nh nw img → (0 < nh)%nat → (0 < nw)%nat →
  (∀ b i j c, get3 img b i j = Some c → length c = nc) →
  has_shape3 nb oh ow x → has_shape3 nb oh ow y →
  bilinear_sampler img x y = Some out →
  get3 x b i j = Some xn → get3 y b i j = Some yn →
  rescale (Z.of_nat nw - 1) xn == inject_Z m →
  rescale (Z.of_nat nh - 1) yn == inject_Z n →
  (0 ≤ m < Z.of_nat nw - 1)%Z → (0 ≤ n < Z.of_nat nh - 1)%Z →
  ∃ v c, get3 out b i j = Some v ∧
         get3 img b (Z.to_nat n) (Z.to_nat m) = Some c ∧
         Forall2 Qeq v c.
Proof.
  intros Himg Hh Hw Hnc Hx Hy Hout Hxn Hyn Hpx Hpy Hm Hn.
  destruct (bilinear_sampler_pixel img nb nh nw oh ow x y out b i j xn yn)
    as (Ia & Ib & Ic & Id & HIa & HIb & HIc & HId & Hget); [done..|].
  cbv zeta in *.
  set (px := rescale (Z.of_nat nw - 1) xn) in *.
  set (py := rescale (Z.of_nat nh - 1) yn) in *.
  assert (corner0 (Z.of_nat nw - 1) px = m ∧
          corner1 (Z.of_nat nw - 1) px = (m + 1)%Z) as [Hx0 Hx1].
  { unfold corner0, corner1, clip_by_value. rewrite Hpx, Qfloor_Z. lia. }
  assert (corner0 (Z.of_nat nh - 1) py = n ∧
          corner1 (Z.of_nat nh - 1) py = (n + 1)%Z) as [Hy0 Hy1].
  { unfold corner0, corner1, clip_by_value. rewrite Hpy, Qfloor_Z. lia. }
  rewrite Hx0, Hy0 in HIa.
  exists (blend (weights_at (Z.of_nat nw - 1) (Z.of_nat nh - 1) px py) Ia Ib Ic Id), Ia.
  split; [done|]. split; [done|].
  apply Forall2_same_length_lookup_2.
  { rewrite blend_length, (Hnc _ _ _ _ HIa), (Hnc _ _ _ _ HIb),
            (Hnc _ _ _ _ HIc), (Hnc _ _ _ _ HId). lia. }
  unfold weights_at. cbv zeta. rewrite Hx0, Hx1, Hy0, Hy1.
  intros k v a' (a & b' & c & d & Ha & Hb & Hc & Hd & ->)%blend_lookup Ha'.
  assert (a' = a) as -> by congruence.
  rewrite !inject_Z_plus, Hpx, Hpy. ring.
Qed.

(** X9.  A sample at an integer pixel position that is not on the last
    column or row returns that pixel: if the rescaled coordinates are the
    grid point (m, n) with 0 <= m < W_in-1 and 0 <= n < H_in-1, the output
    pixel equals [img[b, n, m, :]] channel by channel. *)
Theorem grid_point_sample_is_pixel (img : tensor4) nb nh nw nc oh ow
    (x y : tensor3 Q) out b i j xn yn (m n : Z) :
  has_shape3 nb nh nw img → (0 < nh)%nat → (0 < nw)%nat →
  (∀ b i j c, get3 img b i j = Some c → length c = nc) →
  has_shape3 nb oh ow x → has_shape3 nb oh ow y →
  bilinear_sampler img x y = Some out →
  get3 x b i j = Some xn → get3 y b i j = Some yn →
  rescale (Z.of_nat nw - 1) xn == inject_Z m →
  rescale (Z.of_nat nh - 1) yn == inject_Z n →
  (0 ≤ m < Z.of_nat nw - 1)%Z → (0 ≤ n < Z.of_nat nh - 1)%Z →
  ∃ v c, get3 out b i j = Some v ∧
         get3 img b (Z.to_nat n) (Z.to_nat m) = Some c ∧
         Forall2 Qeq v c.
Proof. apply bilinear_sampler_at_grid_point. Qed.

Lemma grid_point_sample_is_pixel_witness :
  ∃ out v c, bilinear_sampler img3x3_2ch [[[1]]] [[[-1]]] = Some out ∧
             get3 out 0 0 0 = Some v ∧
             get3 img3x3_2ch 0 (Z.to_nat 0) (Z.to_nat 1) = Some c ∧
             Forall2 Qeq v c.
Proof.
  destruct (bilinear_sampler_total img3x3_2ch 1 3 3 1 1 [[[1]]] [[[-1]]]
              has_shape3_img3x3_2ch ltac:(lia) ltac:(lia)
              (has_shape3_pixel _) (has_shape3_pixel _)) as (out & Hout & _).
  destruct (grid_point_sample_is_pixel img3x3_2ch 1 3 3 2 1 1 [[[1]]] [[[-1]]]
              out 0 0 0 1 (-1) 1 0 has_shape3_img3x3_2ch ltac:(lia) ltac:(lia)
              channels_img3x3_2ch (has_shape3_pixel _) (has_shape3_pixel _)
              Hout eq_refl eq_refl)
    as (v & c & Hv & Hc & Heq); [reflexivity|reflexivity|lia|lia|].
  exists out, v, c. split; [exact Hout|]. split; [exact Hv|].
  split; [exact Hc|exact Heq].
Defined.

(** X10.  On an image with a single column the interval [0, W_in-1) is
    empty: at every position both x corners are clipped to column 0, the
    pixels are read in equal pairs with opposite weights, and over exact
    arithmetic the sampler returns 0 everywhere.  The same holds on an image
    with a single row.  Rounding is not modelled: in float32 the sum of the
    four cancelling products can leave a rounding residue in the place of an
    exact 0. *)
Theorem single_column_image_samples_zero (img : tensor4) nb nh nw oh ow
    (x y : tensor3 Q) :
  has_shape3 nb nh nw img → (0 < nh)%nat → (0 < nw)%nat →
  nw = 1%nat ∨ nh = 1%nat →
  has_shape3 nb oh ow x → has_shape3 nb oh ow y →
  let c := sampler_corners img x y in
  ∃ out, bilinear_sampler img x y = Some out ∧
    (∀ b i j v, get3 out b i j = Some v → Forall (λ q, q == 0) v) ∧
    (nw = 1%nat → ∀ b i j, (b < nb)%nat → (i < oh)%nat → (j < ow)%nat →
       get3 (c_x0 c) b i j = Some 0%Z ∧ get3 (c_x1 c) b i j = Some 0%Z) ∧
    (nh = 1%nat → ∀ b i j, (b < nb)%nat → (i < oh)%nat → (j < ow)%nat →
       get3 (c_y0 c) b i j = Some 0%Z ∧ get3 (c_y1 c) b i j = Some 0%Z).
Proof.
  intros Himg Hh Hw H1 Hx Hy c.
  destruct (bilinear_sampler_total img nb nh nw oh ow x y)
    as (out & Hout & Hshape & _); [done..|].
  exists out. split; [done|]. split_and!.
  - intros b i j v Hv.
    assert (is_Some (get3 out b i j)) as Hs by eauto.
    apply (has_shape3_lookup nb oh ow out b i j Hshape) in Hs.
    destruct (proj2 (has_shape3_lookup nb oh ow x b i j Hx) Hs) as [xn Hxn].
    destruct (proj2 (has_shape3_lookup nb oh ow y b i j Hy) Hs) as [yn Hyn].
    destruct (sampler_zero_outside img nb nh nw oh ow x y out b i j xn yn)
      as (v' & Hv' & Hzero); [done..| |by simplify_eq].
    cbv zeta. destruct H1 as [-> | ->]; simpl.
    + destruct (Qlt_le_dec (rescale 0 xn) 0); [by left|by right; left].
    + destruct (Qlt_le_dec (rescale 0 yn) 0);
        [by right; right; left|by right; right; right].
  - intros -> b i j Hb Hi Hj.
    destruct (proj2 (has_shape3_lookup nb oh ow x b i j Hx)) as [xn Hxn]; [done|].
    destruct (dims_has_shape3 img nb nh 1) as [_ HW]; [done|lia|done|].
    unfold c. rewrite get3_c_x0, get3_c_x1, Hxn, HW. simpl.
    unfold corner0, corner1, clip_by_value. split; f_equal; lia.
  - intros -> b i j Hb Hi Hj.
    destruct (proj2 (has_shape3_lookup nb oh ow y b i j Hy)) as [yn Hyn]; [done|].
    destruct (dims_has_shape3 img nb 1 nw) as [HH _]; [done|lia|done|].
    unfold c. rewrite get3_c_y0, get3_c_y1, Hyn, HH. simpl.
    unfold corner0, corner1, clip_by_value. split; f_equal; lia.
Qed.

Lemma single_column_image_samples_zero_witness :
  ∃ out, bilinear_sampler [[ [[5]]; [[6]]; [[7]] ]] [[[-1]]] [[[0]]] = Some out ∧
         ∀ b i j v, get3 out b i j = Some v → Forall (λ q, q == 0) v.
Proof.
  destruct (single_column_image_samples_zero [[ [[5]]; [[6]]; [[7]] ]] 1 3 1 1 1
              [[[-1]]] [[[0]]])
    as (out & Hout & Hzero & _);
    [split; [reflexivity|repeat constructor]|lia|lia|by left
    |apply has_shape3_pixel|apply has_shape3_pixel|].
  exists out. split; [exact Hout|exact Hzero].
Defined.

Lemma sample_pixel_Qeq_rescaled img b xn yn xn' yn' v :
  rescale (dim_W img - 1) xn == rescale (dim_W img - 1) xn' →
  rescale (dim_H img - 1) yn == rescale (dim_H img - 1) yn' →
  sample_pixel img b xn yn = Some v →
  ∃ v', sample_pixel img b xn' yn' = Some v' ∧ Forall2 Qeq v v'.
Proof.
  intros Hpx Hpy (Ia & Ib & Ic & Id & HIa & HIb & HIc & HId & ->)%sample_pixel_Some.
  cbv zeta in *.
  rewrite (corner0_Qeq _ _ _ Hpx), (corner0_Qeq _ _ _ Hpy) in HIa.
  rewrite (corner0_Qeq _ _ _ Hpx), (corner1_Qeq _ _ _ Hpy) in HIb.
  rewrite (corner1_Qeq _ _ _ Hpx), (corner0_Qeq _ _ _ Hpy) in HIc.
  rewrite (corner1_Qeq _ _ _ Hpx), (corner1_Qeq _ _ _ Hpy) in HId.
  eexists. split.
  { apply sample_pixel_Some. cbv zeta. by eexists _, _, _, _. }
  unfold weights_at.
  apply blend_Qeq;
    rewrite ?(corner0_Qeq _ _ _ Hpx), ?(corner0_Qeq _ _ _ Hpy),
            ?(corner1_Qeq _ _ _ Hpx), ?(corner1_Qeq _ _ _ Hpy), Hpx, Hpy;
    reflexivity.
Qed.

(** X11.  On an image with exactly two columns the rescale multiplies by
    (2 - 1) - 1 = 0, so every x coordinate is rescaled to 0 and the output
    does not depend on [x] at all. *)
Theorem two_column_image_ignores_x (img : tensor4) nb nh oh ow (x x' y : tensor3 Q) :
  has_shape3 nb nh 2 img → (0 < nh)%nat →
  has_shape3 nb oh ow x → has_shape3 nb oh ow x' → has_shape3 nb oh ow y →
  ∃ out out',
    bilinear_sampler img x y = Some out ∧
    bilinear_sampler img x' y = Some out' ∧
    ∀ b i j v v', get3 out b i j = Some v → get3 out' b i j = Some v' →
                  Forall2 Qeq v v'.
Proof.
  intros Himg Hh Hx Hx' Hy.
  destruct (bilinear_sampler_total img nb nh 2 oh ow x y)
    as (out & Hout & Hshape & Hget); [done|done|lia|done..|].
  destruct (bilinear_sampler_total img nb nh 2 oh ow x' y)
    as (out' & Hout' & Hshape' & Hget'); [done|done|lia|done..|].
  exists out, out'. split; [done|]. split; [done|].
  intros b i j v v' Hv Hv'.
  assert (is_Some (get3 out b i j)) as Hs by eauto.
  apply (has_shape3_lookup nb oh ow out b i j Hshape) in Hs.
  destruct (proj2 (has_shape3_lookup nb oh ow x b i j Hx) Hs) as [xn Hxn].
  destruct (proj2 (has_shape3_lookup nb oh ow x' b i j Hx') Hs) as [xn' Hxn'].
  destruct (proj2 (has_shape3_lookup nb oh ow y b i j Hy) Hs) as [yn Hyn].
  rewrite (Hget b i j xn yn) in Hv by done.
  rewrite (Hget' b i j xn' yn) in Hv' by done.
  destruct (dims_has_shape3 img nb nh 2) as [HH HW]; [done|lia|done|].
  destruct (sample_pixel_Qeq_rescaled img b xn yn xn' yn v)
    as (v'' & Hv'' & Heq); [| |done|].
  - rewrite HW. unfold rescale.
    replace (Z.of_nat 2 - 1 - 1)%Z with 0%Z by lia.
    change (inject_Z 0) with 0. ring.
  - reflexivity.
  - by simplify_eq.
Qed.

Lemma two_column_image_ignores_x_witness :
  ∃ out out',
    bilinear_sampler [[ [[1]; [2]]; [[3]; [4]] ]] [[[-5]]] [[[0]]] = Some out ∧
    bilinear_sampler [[ [[1]; [2]]; [[3]; [4]] ]] [[[7]]] [[[0]]] = Some out' ∧
    ∀ b i j v v', get3 out b i j = Some v → get3 out' b i j = Some v' →
                  Forall2 Qeq v v'.
Proof.
  apply (two_column_image_ignores_x [[ [[1]; [2]]; [[3]; [4]] ]] 1 2 1 1);
    [split; [reflexivity|repeat constructor]|lia|apply has_shape3_pixel..].
Defined.

(** X14.  [bilinear_sampler] raises when [x] and [y] do not have the same
    shape: nothing is broadcast. *)
Theorem bilinear_sampler_shape_mismatch (img : tensor4) (x y : tensor3 Q) :
  row_lengths x ≠ row_lengths y → bilinear_sampler img x y = None.
Proof.
  intros Hne. destruct (bilinear_sampler img x y) as [out|] eqn:Hout; [|done].
  by apply bilinear_sampler_same_shape in Hout.
Qed.

Lemma bilinear_sampler_shape_mismatch_witness :
  bilinear_sampler img3x3 [[[0; 0]]] [[[0]]] = None.
Proof.
  apply bilinear_sampler_shape_mismatch. vm_compute. discriminate.
Defined.

(** X15.  [bilinear_sampler] raises as soon as it has a pixel to produce
    that it cannot read: when the image has no rows or no columns, or when
    the coordinates have a batch entry that the image does not have. *)
Theorem bilinear_sampler_nothing_to_read (img : tensor4) nb nh nw nb' oh ow
    (x y : tensor3 Q) b i j :
  has_shape3 nb nh nw img → has_shape3 nb' oh ow x → has_shape3 nb' oh ow y →
  is_Some (get3 x b i j) →
  nh = 0%nat ∨ nw = 0%nat ∨ (nb ≤ b)%nat →
  bilinear_sampler img x y = None.
Proof.
  intros Himg Hx Hy Hs Hbad.
  pose proof Hs as Hs'.
  apply (has_shape3_lookup nb' oh ow x b i j Hx) in Hs'.
  apply (has_shape3_lookup nb' oh ow y b i j Hy) in Hs' as [yn Hyn].
  destruct Hs as [xn Hxn].
  destruct (sampler_corners_shape img _ _ _ _ _ Hx Hy)
    as (_ & _ & Hx0 & _ & Hy0 & _).
  assert (get_pixel_value img (c_x0 (sampler_corners img x y))
            (c_y0 (sampler_corners img x y)) = None) as Hnone.
  { apply (get_pixel_value_None img nb nh nw nb' oh ow _ _ b i j
             (corner0 (dim_W img - 1) (rescale (dim_W img - 1) xn))
             (corner0 (dim_H img - 1) (rescale (dim_H img - 1) yn)));
      [done|done|done| | |lia].
    - by rewrite get3_c_x0, Hxn.
    - by rewrite get3_c_y0, Hyn. }
  unfold bilinear_sampler. by rewrite Hnone.
Qed.

Lemma bilinear_sampler_nothing_to_read_witness :
  bilinear_sampler img3x3 [[[0]]; [[0]]] [[[0]]; [[0]]] = None.
Proof.
  apply (bilinear_sampler_nothing_to_read img3x3 1 3 3 2 1 1
           [[[0]]; [[0]]] [[[0]]; [[0]]] 1 0 0 has_shape3_img3x3).
  - split; [reflexivity|repeat constructor].
  - split; [reflexivity|repeat constructor].
  - by eexists.
  - right; right. lia.
Defined.

(** *** The image enters the sampler only through its pixels *)

Lemma dims_tmap (f : list Q → list Q) (img : tensor4) :
  dim_H (tmap f img) = dim_H img ∧ dim_W (tmap f img) = dim_W img.
Proof.
  unfold dim_H, dim_W, shape3, tmap.
  destruct img as [|p img]; [done|]. simpl.
  destruct p as [|r p]; simpl; by rewrite ?length_fmap.
Qed.

Lemma gather_nd1_tmap (f : list Q → list Q) (img : tensor4) (b y x : Z) :
  gather_nd1 (tmap f img) [b; y; x] = f <$> gather_nd1 img [b; y; x].
Proof. unfold gather_nd1. case_decide; [apply get3_tmap|done]. Qed.

(** Sampling the image whose pixels are [f c] blends the images under [f]
    of the four pixels that sampling [img] blends, with the same weights. *)
Lemma sample_pixel_tmap (f : list Q → list Q) (img : tensor4) b xn yn v :
  sample_pixel img b xn yn = Some v →
  ∃ w Ia Ib Ic Id,
    v = blend w Ia Ib Ic Id ∧
    sample_pixel (tmap f img) b xn yn = Some (blend w (f Ia) (f Ib) (f Ic) (f Id)).
Proof.
  intros (Ia & Ib & Ic & Id & HIa & HIb & HIc & HId & ->)%sample_pixel_Some.
  cbv zeta in *. eexists _, Ia, Ib, Ic, Id. split; [done|].
  destruct (dims_tmap f img) as [HH HW].
  unfold sample_pixel. cbv zeta.
  rewrite HH, HW, !gather_nd1_tmap, HIa, HIb, HIc, HId. done.
Qed.

Lemma blend_channel w (Ia Ib Ic Id : list Q) k :
  blend w (take 1 (drop k Ia)) (take 1 (drop k Ib))
          (take 1 (drop k Ic)) (take 1 (drop k Id))
  = take 1 (drop k (blend w Ia Ib Ic Id)).
Proof.
  destruct w as [[[wa wb] wc] wd]. unfold blend, bcast_mul.
  by rewrite !zip_with_drop, !zip_with_take, !fmap_take, !fmap_drop.
Qed.

(** X12.  Every channel is sampled on its own, and in the same way: sampling
    the channel [k] of the image gives the channel [k] of the sampled
    image. *)
Theorem channels_sampled_independently (img : tensor4) nb nh nw oh ow
    (x y : tensor3 Q) (k : nat) :
  has_shape3 nb nh nw img → (0 < nh)%nat → (0 < nw)%nat →
  has_shape3 nb oh ow x → has_shape3 nb oh ow y →
  ∃ out, bilinear_sampler img x y = Some out ∧
         bilinear_sampler (channel k img) x y = Some (channel k out).
Proof.
  intros Himg Hh Hw Hx Hy.
  destruct (bilinear_sampler_total img nb nh nw oh ow x y)
    as (out & Hout & Hshape & Hget); [done..|].
  destruct (bilinear_sampler_total (channel k img) nb nh nw oh ow x y)
    as (out' & Hout' & Hshape' & Hget'); [by apply has_shape3_tmap|done..|].
  exists out. split; [done|]. rewrite Hout'. f_equal.
  apply (tensor3_ext nb oh ow); [done|by apply has_shape3_tmap|].
  intros b i j. unfold channel at 1. rewrite get3_tmap.
  destruct (get3 x b i j) as [xn|] eqn:Hxn.
  2:{ transitivity (@None (list Q)).
      - apply eq_None_not_Some.
        intros Hs%(has_shape3_lookup nb oh ow out'); [|done].
        apply (has_shape3_lookup nb oh ow x) in Hs as [? ?]; [congruence|done].
      - symmetry. apply fmap_None. apply eq_None_not_Some.
        intros Hs%(has_shape3_lookup nb oh ow out); [|done].
        apply (has_shape3_lookup nb oh ow x) in Hs as [? ?]; [congruence|done]. }
  destruct (proj2 (has_shape3_lookup nb oh ow y b i j Hy)) as [yn Hyn].
  { apply (has_shape3_lookup nb oh ow x b i j Hx). eauto. }
  rewrite (Hget b i j xn yn), (Hget' b i j xn yn) by done.
  assert (b < nb)%nat as Hb.
  { apply (has_shape3_lookup nb oh ow x b i j); [done|]. eauto. }
  destruct (sample_pixel_is_Some img nb nh nw b xn yn) as [v Hv]; [done..|].
  destruct (sample_pixel_tmap (λ c, take 1 (drop k c)) img b xn yn v Hv)
    as (w & Ia & Ib & Ic & Id & -> & Hch).
  unfold channel. rewrite Hch, Hv. simpl. by rewrite blend_channel.
Qed.

Lemma channels_sampled_independently_witness :
  ∃ out, bilinear_sampler img3x3_2ch [[[1 # 3]]] [[[0]]] = Some out ∧
         bilinear_sampler (channel 1 img3x3_2ch) [[[1 # 3]]] [[[0]]]
         = Some (channel 1 out).
Proof.
  exact (channels_sampled_independently img3x3_2ch 1 3 3 1 1
           [[[1 # 3]]] [[[0]]] 1 has_shape3_img3x3_2ch ltac:(lia) ltac:(lia)
           (has_shape3_pixel _) (has_shape3_pixel _)).
Defined.

Lemma blend_scale w (s : Q) (Ia Ib Ic Id : list Q) :
  Forall2 Qeq (blend w (Qmult s <$> Ia) (Qmult s <$> Ib)
                       (Qmult s <$> Ic) (Qmult s <$> Id))
              (Qmult s <$> blend w Ia Ib Ic Id).
Proof.
  destruct w as [[[wa wb] wc] wd].
  apply Forall2_same_length_lookup_2.
  { by rewrite length_fmap, !blend_length, !length_fmap. }
  intros k v v' (a & b & c & d & Ha & Hb & Hc & Hd & ->)%blend_lookup
    (u & -> & (a' & b' & c' & d' & Ha' & Hb' & Hc' & Hd' & ->)%blend_lookup)%list_lookup_fmap_Some.
  apply list_lookup_fmap_Some in Ha as (? & -> & ?).
  apply list_lookup_fmap_Some in Hb as (? & -> & ?).
  apply list_lookup_fmap_Some in Hc as (? & -> & ?).
  apply list_lookup_fmap_Some in Hd as (? & -> & ?).
  simplify_eq. ring.
Qed.

(** X13.  The sampler is homogeneous in the image: multiplying every value
    of the image by [s] multiplies every value of the output by [s]. *)
Theorem sampler_scales_with_image (img : tensor4) nb nh nw oh ow
    (x y : tensor3 Q) (s : Q) :
  has_shape3 nb nh nw img → (0 < nh)%nat → (0 < nw)%nat →
  has_shape3 nb oh ow x → has_shape3 nb oh ow y →
  ∃ out out_s,
    bilinear_sampler img x y = Some out ∧
    bilinear_sampler (tmap4 (Qmult s) img) x y = Some out_s ∧
    ∀ b i j v vs, get3 out b i j = Some v → get3 out_s b i j = Some vs →
                  Forall2 Qeq vs (Qmult s <$> v).
Proof.
  intros Himg Hh Hw Hx Hy.
  destruct (bilinear_sampler_total img nb nh nw oh ow x y)
    as (out & Hout & Hshape & Hget); [done..|].
  destruct (bilinear_sampler_total (tmap4 (Qmult s) img) nb nh nw oh ow x y)
    as (out' & Hout' & Hshape' & Hget'); [by apply has_shape3_tmap|done..|].
  exists out, out'. split; [done|]. split; [done|].
  intros b i j v vs Hv Hvs.
  assert (is_Some (get3 out b i j)) as Hs by eauto.
  apply (has_shape3_lookup nb oh ow out b i j Hshape) in Hs.
  destruct (proj2 (has_shape3_lookup nb oh ow x b i j Hx) Hs) as [xn Hxn].
  destruct (proj2 (has_shape3_lookup nb oh ow y b i j Hy) Hs) as [yn Hyn].
  rewrite (Hget b i j xn yn) in Hv by done.
  rewrite (Hget' b i j xn yn) in Hvs by done.
  destruct (sample_pixel_tmap (fmap (Qmult s)) img b xn yn v Hv)
    as (w & Ia & Ib & Ic & Id & -> & Hsc).
  unfold tmap4 in Hvs. rewrite Hsc in Hvs. injection Hvs as <-.
  apply blend_scale.
Qed.

Lemma sampler_scales_with_image_witness :
  ∃ out out_s,
    bilinear_sampler img3x3 [[[1 # 3]]] [[[0]]] = Some out ∧
    bilinear_sampler (tmap4 (Qmult 3) img3x3) [[[1 # 3]]] [[[0]]] = Some out_s ∧
    ∀ b i j v vs, get3 out b i j = Some v → get3 out_s b i j = Some vs →
                  Forall2 Qeq vs (Qmult 3 <$> v).
Proof.
  exact (sampler_scales_with_image img3x3 1 3 3 1 1 [[[1 # 3]]] [[[0]]] 3
           has_shape3_img3x3 ltac:(lia) ltac:(lia)
           (has_shape3_pixel _) (has_shape3_pixel _)).
Defined.

(** ** The pipeline of LocNet.call *)

(** X16.  Grid generation followed by sampling returns a batch of shape
    (B, image_height, image_width, C) for an image batch (B, H, W, C) and
    one matrix per image, whatever H >= 1 and W >= 1 are: the output size
    is the configured one, not the input size. *)
Theorem locnet_resample_shape height width (img : tensor4) nb nh nw nc theta :
  has_shape3 nb nh nw img → (0 < nh)%nat → (0 < nw)%nat →
  (∀ b i j c, get3 img b i j = Some c → length c = nc) →
  length theta = nb →
  ∃ out, locnet_resample height width img theta = Some out ∧
         has_shape3 nb height width out ∧
         ∀ b i j c, get3 out b i j = Some c → length c = nc.
Proof.
  intros Himg Hh Hw Hnc Hlen. unfold locnet_resample.
  destruct (grid_slices_shape height width theta) as [Hx Hy].
  rewrite Hlen in Hx, Hy.
  by apply (bilinear_sampler_channels img nb nh nw).
Qed.

Lemma locnet_resample_shape_witness :
  ∃ out, locnet_resample 5 2 img3x3_2ch [theta_id] = Some out ∧
         has_shape3 1 5 2 out ∧
         ∀ b i j c, get3 out b i j = Some c → length c = 2%nat.
Proof.
  exact (locnet_resample_shape 5 2 img3x3_2ch 1 3 3 2 [theta_id]
           has_shape3_img3x3_2ch ltac:(lia) ltac:(lia) channels_img3x3_2ch
           eq_refl).
Defined.

(** Matrices with equal entries give equal outputs. *)
Lemma dot3_theta_eq (s t : theta23) xv yv :
  theta_eq s t →
  dot3 s.1 xv yv 1 == dot3 t.1 xv yv 1 ∧ dot3 s.2 xv yv 1 == dot3 t.2 xv yv 1.
Proof.
  destruct s as [[[a b] c] [[d e] f]], t as [[[a' b'] c'] [[d' e'] f']].
  intros (Ha & Hb & Hc & Hd & He & Hf). unfold dot3. simpl.
  split; [by rewrite Ha, Hb, Hc|by rewrite Hd, He, Hf].
Qed.

Lemma locnet_resample_theta_eq height width (img : tensor4) nb nh nw theta theta' :
  has_shape3 nb nh nw img → (0 < nh)%nat → (0 < nw)%nat →
  length theta = nb → Forall2 theta_eq theta theta' →
  ∃ out out',
    locnet_resample height width img theta = Some out ∧
    locnet_resample height width img theta' = Some out' ∧
    ∀ b i j v v', get3 out b i j = Some v → get3 out' b i j = Some v' →
                  Forall2 Qeq v v'.
Proof.
  intros Himg Hh Hw Hlen Heq.
  destruct (locnet_resample_total height width img nb nh nw theta)
    as (out & Hout & Hshape & Hget); [done..|].
  destruct (locnet_resample_total height width img nb nh nw theta')
    as (out' & Hout' & Hshape' & Hget'); [done..| |].
  { by rewrite <-(Forall2_length _ _ _ Heq). }
  exists out, out'. split; [done|]. split; [done|].
  intros b i j v v' Hv Hv'.
  assert (is_Some (get3 out b i j)) as Hs by eauto.
  apply (has_shape3_lookup nb height width out b i j Hshape) in Hs
    as (Hb & Hi & Hj).
  destruct (lookup_lt_is_Some_2 theta b) as [th Hth]; [lia|].
  destruct (Forall2_lookup_l _ _ _ _ _ Heq Hth) as (th' & Hth' & Hthe).
  destruct (lookup_lt_is_Some_2 (linspace (-1) 1 height) i) as [yv Hyv].
  { by rewrite linspace_length. }
  destruct (lookup_lt_is_Some_2 (linspace (-1) 1 width) j) as [xv Hxv].
  { by rewrite linspace_length. }
  rewrite (Hget b i j th xv yv) in Hv by done.
  rewrite (Hget' b i j th' xv yv) in Hv' by done.
  destruct (dot3_theta_eq th th' xv yv Hthe) as [E1 E2].
  destruct (sample_pixel_Qeq img b _ _ _ _ v E1 E2 Hv) as (v'' & Hv'' & Hvv).
  by simplify_eq.
Qed.

(** ** get_affine_params and LocNet.call *)

Lemma zip_with_zero n (l k : list Q) :
  length l = n ∧ Forall (λ q, q == 0) l →
  length k = n ∧ Forall (λ q, q == 0) k →
  length (zip_with Qplus l k) = n ∧ Forall (λ q, q == 0) (zip_with Qplus l k).
Proof.
  intros [Hl Hl0] [Hk Hk0]. split; [rewrite length_zip_with; lia|].
  rewrite Forall_lookup in Hl0, Hk0. apply Forall_lookup.
  intros i q (a & b & -> & Ha & Hb)%lookup_zip_with_Some.
  rewrite (Hl0 _ _ Ha), (Hk0 _ _ Hb). reflexivity.
Qed.

Lemma foldl_zero n (rows : list (list Q)) (acc : list Q) :
  Forall (λ row, length row = n ∧ Forall (λ q, q == 0) row) rows →
  length acc = n ∧ Forall (λ q, q == 0) acc →
  length (foldl (zip_with Qplus) acc rows) = n ∧
  Forall (λ q, q == 0) (foldl (zip_with Qplus) acc rows).
Proof.
  intros Hrows. revert acc.
  induction Hrows as [|row rows Hrow _ IH]; intros acc Hacc; [done|].
  simpl. apply IH. by apply zip_with_zero.
Qed.

(** A zero kernel maps every input to the zero vector. *)
Lemma vecmat_zero_kernel n m (x : list Q) :
  length (vecmat n x (replicate m (replicate n 0))) = n ∧
  Forall (λ q, q == 0) (vecmat n x (replicate m (replicate n 0))).
Proof.
  unfold vecmat. apply foldl_zero.
  - apply Forall_lookup.
    intros i row (xi & r & -> & _ & [-> _]%lookup_replicate)%lookup_zip_with_Some.
    rewrite fmap_replicate, length_replicate. split; [done|].
    apply Forall_replicate. ring.
  - rewrite length_replicate. split; [done|]. by apply Forall_replicate.
Qed.

Lemma get_affine_params_identity (kernel_1 : list (list Q)) (x : list Q) :
  ∃ th, reshape23 (sequential (get_affine_params kernel_1) x) = Some th ∧
        theta_eq th theta_id.
Proof.
  unfold sequential, get_affine_params. cbn [foldl].
  set (h := dense_call _ x). unfold dense_call at 1. cbn [units kernel bias activation].
  destruct (vecmat_zero_kernel (3 * 2) 32 h) as [Hlen Hzero].
  destruct (vecmat (3 * 2) h _) as [|r0 [|r1 [|r2 [|r3 [|r4 [|r5 [|r6 r]]]]]]];
    try (simpl in Hlen; lia).
  eexists. split; [reflexivity|].
  rewrite !Forall_cons in Hzero.
  destruct Hzero as (H0 & H1 & H2 & H3 & H4 & H5 & _).
  unfold theta_eq, theta_id.
  rewrite H0, H1, H2, H3, H4, H5. split_and!; reflexivity.
Qed.

(** X17.  As [get_affine_params] initialises it (zero kernel and bias
    [[1, 0, 0, 0, 1, 0]] in the last layer), the regressor returns the
    identity matrix [[1, 0, 0], [0, 1, 0]] for every input features and
    every first-layer kernel. *)
Theorem affine_params_initial_identity (kernel_1 : list (list Q)) (x : list Q) :
  ∃ th, reshape23 (sequential (get_affine_params kernel_1) x) = Some th ∧
        theta_eq th theta_id.
Proof. apply get_affine_params_identity. Qed.

(** ** get_localization_network *)

Lemma shape3_image (img : tensor3 Q) nh nw :
  length img = nh → Forall (λ r, length r = nw) img →
  ∃ w c, shape3 img = (nh, w, c) ∧ ((0 < nh)%nat → w = nw).
Proof.
  intros Hlen Hrows. unfold shape3. rewrite Hlen.
  eexists _, _. split; [done|]. intros Hnh.
  destruct img as [|r img]; simpl in *; [lia|].
  by apply Forall_cons in Hrows as [Hr _].
Qed.

(** A convolution with padding 'same' keeps the height and the width, and
    has one channel per filter. *)
Lemma conv2d_same_shape filters kernel_size act w (img : tensor3 Q) nh nw :
  length img = nh → Forall (λ r, length r = nw) img →
  has_shape3 nh nw filters (conv2d_same filters kernel_size act w img).
Proof.
  intros Hlen Hrows. unfold conv2d_same.
  destruct (shape3_image img nh nw Hlen Hrows) as (W & C & -> & HW).
  split; [by rewrite length_fmap, length_seq|].
  rewrite Forall_fmap. apply Forall_forall. intros i Hi%elem_of_seq. simpl.
  rewrite length_fmap, length_seq. split; [apply HW; lia|].
  rewrite Forall_fmap. apply Forall_forall. intros j _. simpl.
  by rewrite length_fmap, length_seq.
Qed.

Lemma half_size n : (2 ≤ n)%nat → ((n - 2) / 2 + 1)%nat = (n / 2)%nat.
Proof.
  intros Hn. replace n with (n - 2 + 1 * 2)%nat at 2 by lia.
  by rewrite Nat.div_add by lia.
Qed.

(** A pooling with stride 2 halves the height and the width, rounding
    down, and keeps the channels. *)
Lemma max_pool2d_Some (img : tensor3 Q) nh nw nc :
  has_shape3 nh nw nc img → (2 ≤ nh)%nat → (2 ≤ nw)%nat →
  ∃ out, max_pool2d 2 img = Some out ∧ has_shape3 (nh / 2) (nw / 2) nc out.
Proof.
  intros Himg Hh Hw. unfold max_pool2d.
  destruct (shape3_has_shape3 _ _ _ _ Himg) as (W & C & -> & HW & HC).
  rewrite HW, HC by lia.
  rewrite decide_True by lia. rewrite !half_size by done.
  eexists. split; [done|].
  split; [by rewrite length_fmap, length_seq|].
  rewrite Forall_fmap. apply Forall_forall. intros i _. simpl.
  rewrite length_fmap, length_seq. split; [done|].
  rewrite Forall_fmap. apply Forall_forall. intros j _. simpl.
  by rewrite length_fmap, length_seq.
Qed.

(** An image with fewer than two rows or two columns cannot be pooled. *)
Lemma max_pool2d_None strides (img : tensor3 Q) nh nw :
  length img = nh → Forall (λ r, length r = nw) img →
  (nh < 2)%nat ∨ (nw < 2)%nat →
  max_pool2d strides img = None.
Proof.
  intros Hlen Hrows Hsmall. unfold max_pool2d.
  destruct (shape3_image img nh nw Hlen Hrows) as (W & C & -> & HW).
  apply decide_False. intros [Hh Hw]. rewrite HW in Hw by lia. lia.
Qed.

Lemma has_shape4_weaken nb nh nw nc (t : tensor4) :
  has_shape4 nb nh nw nc t → has_shape3 nb nh nw t.
Proof.
  intros [Hlen Himgs]. split; [done|].
  eapply Forall_impl; [exact Himgs|]. intros f [Hf Hrows]. split; [done|].
  eapply Forall_impl; [exact Hrows|]. by intros r [Hr _].
Qed.

Lemma conv_layer_shape filters kernel_size act w (x : tensor4) nb nh nw :
  has_shape3 nb nh nw x →
  has_shape4 nb nh nw filters (conv2d_same filters kernel_size act w <$> x).
Proof.
  intros [Hlen Himgs]. split; [by rewrite length_fmap|].
  rewrite Forall_fmap. eapply Forall_impl; [exact Himgs|].
  intros f [Hf Hrows]. by apply conv2d_same_shape.
Qed.

Lemma pool_layer_shape (x : tensor4) nb nh nw nc :
  has_shape4 nb nh nw nc x → (2 ≤ nh)%nat → (2 ≤ nw)%nat →
  ∃ out, mapM (max_pool2d 2) x = Some out ∧
         has_shape4 nb (nh / 2) (nw / 2) nc out.
Proof.
  intros [Hlen Himgs] Hh Hw.
  destruct (mapM (max_pool2d 2) x) as [out|] eqn:Hout.
  - exists out. split; [done|]. apply mapM_Some in Hout. split.
    { by rewrite <-(Forall2_length _ _ _ Hout). }
    apply Forall_lookup. intros b g Hg.
    destruct (Forall2_lookup_r _ _ _ _ _ Hout Hg) as (f & Hf & Hfg).
    rewrite Forall_lookup in Himgs.
    destruct (max_pool2d_Some f nh nw nc) as (g' & Hg' & Hshape); [by eauto|done..|].
    by simplify_eq.
  - exfalso. apply mapM_None in Hout. apply Exists_exists in Hout.
    destruct Hout as (f & Hf & Hnone). rewrite Forall_forall in Himgs.
    destruct (max_pool2d_Some f nh nw nc) as (g & Hg & _); [by eauto|done..|].
    congruence.
Qed.

Lemma pool_layer_None strides (x : tensor4) nb nh nw :
  has_shape3 nb nh nw x → (0 < nb)%nat → (nh < 2)%nat ∨ (nw < 2)%nat →
  mapM (max_pool2d strides) x = None.
Proof.
  intros [Hlen Himgs] Hnb Hsmall. apply mapM_None.
  destruct x as [|f x]; simpl in *; [lia|].
  apply Forall_cons in Himgs as [[Hf Hrows] _].
  apply Exists_cons_hd. by eapply max_pool2d_None.
Qed.

Lemma quarter_size n : (n / 2 / 2)%nat = (n / 4)%nat.
Proof. by rewrite Nat.Div0.div_div. Qed.

(** The features are not negative: they come out of a 'relu' and a
    maximum. *)
Lemma conv2d_relu_nonneg filters kernel_size w (img : tensor3 Q) i j o v :
  get3 (conv2d_same filters kernel_size relu w img) i j o = Some v → 0 <= v.
Proof.
  unfold conv2d_same. destruct (shape3 img) as [[H W] C].
  intros (p & r & Hp & Hr & Hv)%get3_Some.
  apply list_lookup_fmap_Some in Hp as (i' & -> & _).
  apply list_lookup_fmap_Some in Hr as (j' & -> & _).
  apply list_lookup_fmap_Some in Hv as (o' & -> & _).
  apply Q.le_max_l.
Qed.

Lemma max_pool2d_nonneg strides (img out : tensor3 Q) :
  (∀ i j c v, get3 img i j c = Some v → 0 <= v) →
  max_pool2d strides img = Some out →
  ∀ i j c v, get3 out i j c = Some v → 0 <= v.
Proof.
  intros Himg. unfold max_pool2d. destruct (shape3 img) as [[H W] C].
  destruct (decide _); [|done]. intros [= <-] i j c v.
  intros (p & r & Hp & Hr & Hv)%get3_Some.
  apply list_lookup_fmap_Some in Hp as (i' & -> & _).
  apply list_lookup_fmap_Some in Hr as (j' & -> & _).
  apply list_lookup_fmap_Some in Hv as (c' & -> & _).
  eapply Qle_trans; [|apply Q.le_max_l]. eapply Qle_trans; [|apply Q.le_max_l].
  destruct (get3 img _ _ c') as [q|] eqn:Hq; simpl; [by eapply Himg|done].
Qed.

(** The whole network on a batch of images that are at least 4x4. *)
Lemma localization_features w_1 w_2 (x : tensor4) nb nh nw :
  has_shape3 nb nh nw x → (4 ≤ nh)%nat → (4 ≤ nw)%nat →
  ∃ xs, sequential_features (get_localization_network w_1 w_2) x = Some xs ∧
        has_shape4 nb (nh / 4) (nw / 4) 20 xs ∧
        ∀ b f i j c v, xs !! b = Some f → get3 f i j c = Some v → 0 <= v.
Proof.
  intros Hx Hh Hw. unfold sequential_features, get_localization_network.
  cbn [foldl mbind option_bind layer_call].
  pose proof (conv_layer_shape 16 7 relu w_1 x nb nh nw Hx) as Hc1.
  destruct (pool_layer_shape _ nb nh nw 16 Hc1) as (p1 & -> & Hp1); [lia..|].
  cbn [mbind option_bind layer_call].
  pose proof (conv_layer_shape 20 5 relu w_2 p1 nb (nh / 2) (nw / 2)
                (has_shape4_weaken _ _ _ _ _ Hp1)) as Hc2.
  assert (2 ≤ nh / 2)%nat as Hh2 by (apply Nat.div_le_lower_bound; lia).
  assert (2 ≤ nw / 2)%nat as Hw2 by (apply Nat.div_le_lower_bound; lia).
  destruct (mapM (max_pool2d 2) (conv2d_same 20 5 relu w_2 <$> p1))
    as [p2|] eqn:Hpool2.
  2:{ destruct (pool_layer_shape _ nb (nh / 2) (nw / 2) 20 Hc2) as (p2 & Hp2 & _);
        [done..|]. congruence. }
  destruct (pool_layer_shape _ nb (nh / 2) (nw / 2) 20 Hc2) as (p2' & Hp2' & Hp2);
    [done..|].
  assert (p2' = p2) as -> by congruence.
  rewrite !quarter_size in Hp2.
  exists p2. split; [done|]. split; [done|].
  intros b f i j c v Hf. apply mapM_Some in Hpool2.
  destruct (Forall2_lookup_r _ _ _ _ _ Hpool2 Hf) as (g & Hg & Hgf).
  apply list_lookup_fmap_Some in Hg as (g' & -> & _).
  eapply max_pool2d_nonneg; [|exact Hgf].
  intros ????. apply conv2d_relu_nonneg.
Qed.

(** Below 4x4 one of the two poolings has no window. *)
Lemma localization_small w_1 w_2 (x : tensor4) nb nh nw :
  has_shape3 nb nh nw x → (0 < nb)%nat → (nh < 4)%nat ∨ (nw < 4)%nat →
  sequential_features (get_localization_network w_1 w_2) x = None.
Proof.
  intros Hx Hnb Hsmall. unfold sequential_features, get_localization_network.
  cbn [foldl mbind option_bind layer_call].
  pose proof (conv_layer_shape 16 7 relu w_1 x nb nh nw Hx) as Hc1.
  destruct (decide (2 ≤ nh ∧ 2 ≤ nw)%nat) as [[Hh Hw]|Hno].
  - destruct (pool_layer_shape _ nb nh nw 16 Hc1) as (p1 & -> & Hp1); [lia..|].
    cbn [mbind option_bind layer_call].
    pose proof (conv_layer_shape 20 5 relu w_2 p1 nb (nh / 2) (nw / 2)
                  (has_shape4_weaken _ _ _ _ _ Hp1)) as Hc2.
    rewrite (pool_layer_None 2 _ nb (nh / 2) (nw / 2)); [done| |done|].
    { by eapply has_shape4_weaken. }
    destruct Hsmall as [Hs|Hs]; [left|right];
      apply Nat.Div0.div_lt_upper_bound; lia.
  - rewrite (pool_layer_None 2 _ nb nh nw); [done| |done|lia].
    by eapply has_shape4_weaken.
Qed.

(** X21.  On a batch of images of at least 4x4 pixels the localization
    network succeeds, whatever the weights of its two convolutions, and
    returns 20 feature maps of a quarter of the height and of the width
    (rounded down) per image; no feature is negative. *)
Theorem localization_network_features w_1 w_2 (x : tensor4) nb nh nw :
  has_shape3 nb nh nw x → (4 ≤ nh)%nat → (4 ≤ nw)%nat →
  ∃ xs, sequential_features (get_localization_network w_1 w_2) x = Some xs ∧
        has_shape4 nb (nh / 4) (nw / 4) 20 xs ∧
        ∀ b f i j c v, xs !! b = Some f → get3 f i j c = Some v → 0 <= v.
Proof. apply localization_features. Qed.

Lemma localization_network_features_witness :
  ∃ xs, sequential_features
          (get_localization_network conv_example conv_example) img4x4 = Some xs ∧
        has_shape4 1 1 1 20 xs.
Proof.
  destruct (localization_network_features conv_example conv_example
              img4x4 1 4 4 has_shape3_img4x4 ltac:(lia) ltac:(lia))
    as (xs & Hxs & Hshape & _).
  exists xs. split; [exact Hxs|exact Hshape].
Defined.

(** ** LocNet.call *)

(** X18.  Before training, on a batch of images of at least 4x4 pixels,
    [LocNet.call] succeeds and resamples every image with the identity
    matrix, whatever the weights of the convolutions and of the first dense
    layer: its output has the shape (B, image_height, image_width) and is,
    position by position, the output of grid generation and sampling under
    the identity matrix. *)
Theorem LocNet_call_initial_identity (w : locnet_weights) width height
    (img : tensor4) nb nh nw :
  has_shape3 nb nh nw img → (4 ≤ nh)%nat → (4 ≤ nw)%nat →
  ∃ out out_id,
    LocNet_call (LocNet_init w width height) img = Some out ∧
    locnet_resample height width img (replicate nb theta_id) = Some out_id ∧
    has_shape3 nb height width out ∧ has_shape3 nb height width out_id ∧
    ∀ b i j, (b < nb)%nat → (i < height)%nat → (j < width)%nat →
      ∃ v v', get3 out b i j = Some v ∧ get3 out_id b i j = Some v' ∧
              Forall2 Qeq v v'.
Proof.
  intros Himg Hh Hw. unfold LocNet_call, LocNet_init.
  cbn [localization affine_params image_width image_height].
  destruct (localization_features (conv_1 w) (conv_2 w) img nb nh nw)
    as (xs & -> & [Hxs _] & _); [done..|].
  cbn [mbind option_bind].
  set (rows := sequential (get_affine_params (dense_1 w)) <$> _).
  assert (length rows = nb) as Hrows by (unfold rows; by rewrite !length_fmap).
  destruct (mapM reshape23 rows) as [theta|] eqn:Htheta.
  2:{ exfalso. apply mapM_None in Htheta. apply Exists_exists in Htheta.
      destruct Htheta as (row & Hrow & Hnone). unfold rows in Hrow.
      apply list_elem_of_fmap in Hrow as (f & -> & _).
      destruct (get_affine_params_identity (dense_1 w) f) as (th & Hth & _).
      congruence. }
  apply mapM_Some in Htheta.
  assert (length theta = nb) as Hlen.
  { by rewrite <-(Forall2_length _ _ _ Htheta). }
  assert (Forall2 theta_eq theta (replicate nb theta_id)) as Heq.
  { apply Forall2_same_length_lookup_2; [by rewrite length_replicate|].
    intros b th th' Hth [-> _]%lookup_replicate.
    destruct (Forall2_lookup_r _ _ _ _ _ Htheta Hth) as (row & Hrow & Hre).
    unfold rows in Hrow. apply list_lookup_fmap_Some in Hrow as (f & -> & _).
    destruct (get_affine_params_identity (dense_1 w) f) as (th' & Hth' & Hid).
    congruence. }
  destruct (locnet_resample_theta_eq height width img nb nh nw theta
              (replicate nb theta_id)) as (out & out_id & Hout & Hid & Hsame);
    [done|lia|lia|done|done|].
  destruct (locnet_resample_total height width img nb nh nw theta)
    as (out' & Hout' & Hshape & _); [done|lia|lia|done|].
  destruct (locnet_resample_total height width img nb nh nw (replicate nb theta_id))
    as (out_id' & Hid' & Hshape_id & _); [done|lia|lia|by rewrite length_replicate|].
  assert (out' = out) as -> by congruence.
  assert (out_id' = out_id) as -> by congruence.
  exists out, out_id. split_and!; [done..|].
  intros b i j Hb Hi Hj.
  destruct (proj2 (has_shape3_lookup nb height width out b i j Hshape))
    as [v Hv]; [done|].
  destruct (proj2 (has_shape3_lookup nb height width out_id b i j Hshape_id))
    as [v' Hv']; [done|].
  exists v, v'. split_and!; [done..|]. by eapply Hsame.
Qed.

Lemma LocNet_call_initial_identity_witness :
  ∃ out out_id,
    LocNet_call (LocNet_init weights_example 2 3) img4x4 = Some out ∧
    locnet_resample 3 2 img4x4 (replicate 1 theta_id) = Some out_id ∧
    has_shape3 1 3 2 out ∧
    ∀ b i j, (b < 1)%nat → (i < 3)%nat → (j < 2)%nat →
      ∃ v v', get3 out b i j = Some v ∧ get3 out_id b i j = Some v' ∧
              Forall2 Qeq v v'.
Proof.
  destruct (LocNet_call_initial_identity weights_example 2 3 img4x4 1 4 4
              has_shape3_img4x4 ltac:(lia) ltac:(lia))
    as (out & out_id & Hout & Hid & Hshape & _ & Hsame).
  exists out, out_id.
  split; [exact Hout|]. split; [exact Hid|]. split; [exact Hshape|exact Hsame].
Defined.

(** X22.  On a batch that holds an image, [LocNet.call] raises when the
    images have fewer than 4 rows or fewer than 4 columns, whatever the
    weights and the output size: after the first pooling fewer than two rows
    (or columns) are left, and the second pooling has no window. *)
Theorem LocNet_call_small_image (w : locnet_weights) width height
    (img : tensor4) nb nh nw :
  has_shape3 nb nh nw img → (0 < nb)%nat → (nh < 4)%nat ∨ (nw < 4)%nat →
  LocNet_call (LocNet_init w width height) img = None.
Proof.
  intros Himg Hnb Hsmall. unfold LocNet_call, LocNet_init.
  cbn [localization affine_params image_width image_height].
  by rewrite (localization_small _ _ img nb nh nw).
Qed.

Lemma LocNet_call_small_image_witness :
  LocNet_call (LocNet_init weights_example 3 3) img3x3 = None.
Proof.
  apply (LocNet_call_small_image weights_example 3 3 img3x3 1 3 3
           has_shape3_img3x3); [lia|left; lia].
Defined.

(** ** The identity matrix, pixel by pixel *)

Lemma linspace_head start stop num :
  (0 < num)%nat → linspace start stop num !! 0%nat = Some start.
Proof. intros Hn. unfold linspace. by rewrite lookup_take_lt by lia. Qed.

(** X19.  Under the identity matrix, with the output size equal to the
    input size (two rows and two columns or more), the first output pixel is
    the first pixel of the image, and the last output pixel is the pixel
    (H-2, W-2) of the image, not its last pixel (H-1, W-1). *)
Theorem identity_first_and_last_pixel (img : tensor4) nb nh nw nc b :
  has_shape3 nb nh nw img → (2 ≤ nh)%nat → (2 ≤ nw)%nat →
  (∀ b i j c, get3 img b i j = Some c → length c = nc) →
  (b < nb)%nat →
  ∃ out v0 c0 v1 c1,
    locnet_resample nh nw img (replicate nb theta_id) = Some out ∧
    get3 out b 0 0 = Some v0 ∧ get3 img b 0 0 = Some c0 ∧ Forall2 Qeq v0 c0 ∧
    get3 out b (nh - 1) (nw - 1) = Some v1 ∧
    get3 img b (nh - 2) (nw - 2) = Some c1 ∧ Forall2 Qeq v1 c1.
Proof.
  intros Himg Hh Hw Hnc Hb.
  destruct (locnet_resample_total nh nw img nb nh nw (replicate nb theta_id))
    as (out & Hout & _ & _); [done|lia|lia|by rewrite length_replicate|].
  pose proof Hout as Hsamp. unfold locnet_resample in Hsamp.
  destruct (grid_slices_shape nh nw (replicate nb theta_id)) as [Hx Hy].
  rewrite length_replicate in Hx, Hy.
  assert (replicate nb theta_id !! b = Some theta_id) as Hth
    by by apply lookup_replicate_2.
  assert (∀ i j xv yv,
            linspace (-1) 1 nh !! i = Some yv → linspace (-1) 1 nw !! j = Some xv →
            get3 (grid_slice 0 (affine_grid_generator nh nw (replicate nb theta_id)))
                 b i j = Some (dot3 theta_id.1 xv yv 1) ∧
            get3 (grid_slice 1 (affine_grid_generator nh nw (replicate nb theta_id)))
                 b i j = Some (dot3 theta_id.2 xv yv 1)) as Hgrid.
  { intros i j xv yv Hyv Hxv.
    destruct (grid_slices_closed nh nw (replicate nb theta_id)) as [-> ->].
    split; [apply (get3_grid_of nh nw fst)|apply (get3_grid_of nh nw snd)];
      by exists theta_id, xv, yv. }
  destruct (Hgrid 0%nat 0%nat (-1) (-1)) as [Hx00 Hy00];
    [apply linspace_head; lia..|].
  destruct (Hgrid (nh - 1)%nat (nw - 1)%nat 1 1) as [Hx11 Hy11];
    [by apply linspace_last..|].
  destruct (bilinear_sampler_at_grid_point img nb nh nw nc nh nw _ _ out
              b 0 0 _ _ 0 0 Himg ltac:(lia) ltac:(lia) Hnc Hx Hy Hsamp Hx00 Hy00)
    as (v0 & c0 & Hv0 & Hc0 & Heq0); [| |lia|lia|].
  { rewrite rescale_formula. unfold dot3, theta_id. cbn [fst snd].
    change (inject_Z 0) with 0. ring. }
  { rewrite rescale_formula. unfold dot3, theta_id. cbn [fst snd].
    change (inject_Z 0) with 0. ring. }
  destruct (bilinear_sampler_at_grid_point img nb nh nw nc nh nw _ _ out
              b (nh - 1) (nw - 1) _ _ (Z.of_nat nw - 2) (Z.of_nat nh - 2)
              Himg ltac:(lia) ltac:(lia) Hnc Hx Hy Hsamp Hx11 Hy11)
    as (v1 & c1 & Hv1 & Hc1 & Heq1); [| |lia|lia|].
  { rewrite rescale_formula. unfold dot3, theta_id. cbn [fst snd].
    replace (Z.of_nat nw - 1 + 1 - 2)%Z with (Z.of_nat nw - 2)%Z by lia. ring. }
  { rewrite rescale_formula. unfold dot3, theta_id. cbn [fst snd].
    replace (Z.of_nat nh - 1 + 1 - 2)%Z with (Z.of_nat nh - 2)%Z by lia. ring. }
  replace (Z.to_nat (Z.of_nat nh - 2)) with (nh - 2)%nat in Hc1 by lia.
  replace (Z.to_nat (Z.of_nat nw - 2)) with (nw - 2)%nat in Hc1 by lia.
  by exists out, v0, c0, v1, c1.
Qed.

Lemma identity_first_and_last_pixel_witness :
  ∃ out v0 c0 v1 c1,
    locnet_resample 3 3 img3x3_2ch (replicate 1 theta_id) = Some out ∧
    get3 out 0 0 0 = Some v0 ∧ get3 img3x3_2ch 0 0 0 = Some c0 ∧
    Forall2 Qeq v0 c0 ∧
    get3 out 0 (3 - 1) (3 - 1) = Some v1 ∧
    get3 img3x3_2ch 0 (3 - 2) (3 - 2) = Some c1 ∧ Forall2 Qeq v1 c1.
Proof.
  exact (identity_first_and_last_pixel img3x3_2ch 1 3 3 2 0
           has_shape3_img3x3_2ch ltac:(lia) ltac:(lia) channels_img3x3_2ch
           ltac:(lia)).
Defined.

(** ** Coordinates over fewer batch entries than the image *)

(** X20.  Coordinate tensors with fewer batch entries than the image are not
    rejected: the sampler samples the first B' images and ignores the
    others, as if the image batch had been cut to B' entries. *)
Theorem bilinear_sampler_smaller_batch (img : tensor4) nb nh nw nb' oh ow
    (x y : tensor3 Q) :
  has_shape3 nb nh nw img → (0 < nh)%nat → (0 < nw)%nat → (nb' ≤ nb)%nat →
  has_shape3 nb' oh ow x → has_shape3 nb' oh ow y →
  ∃ out, bilinear_sampler img x y = Some out ∧ has_shape3 nb' oh ow out ∧
         bilinear_sampler (take nb' img) x y = Some out.
Proof.
  intros Himg Hh Hw Hle Hx Hy.
  assert (has_shape3 nb' nh nw (take nb' img)) as Himg'.
  { destruct Himg as [Hlen Hall]. split; [rewrite length_take; lia|].
    by apply Forall_take. }
  assert (∀ b i j, is_Some (get3 x b i j) → (b < nb')%nat) as Hbx.
  { intros b i j Hs. by apply (has_shape3_lookup nb' oh ow x b i j Hx) in Hs as [? _]. }
  destruct (bilinear_sampler_pixelwise img nb' oh ow x y Hx Hy)
    as (out & Hout & Hshape & Hget).
  { intros b i j xn yn Hxn Hyn.
    apply (sample_pixel_is_Some img nb nh nw); [done..|].
    specialize (Hbx b i j ltac:(eauto)). lia. }
  destruct (bilinear_sampler_total (take nb' img) nb' nh nw oh ow x y)
    as (out' & Hout' & Hshape' & Hget'); [done..|].
  exists out. split; [done|]. split; [done|]. rewrite Hout'. f_equal.
  apply (tensor3_ext nb' oh ow); [done..|]. intros b i j.
  destruct (get3 x b i j) as [xn|] eqn:Hxn.
  2:{ transitivity (@None (list Q)); [|symmetry]; apply eq_None_not_Some.
      - intros Hs%(has_shape3_lookup nb' oh ow out'); [|done].
        apply (has_shape3_lookup nb' oh ow x) in Hs as [? ?]; [congruence|done].
      - intros Hs%(has_shape3_lookup nb' oh ow out); [|done].
        apply (has_shape3_lookup nb' oh ow x) in Hs as [? ?]; [congruence|done]. }
  destruct (proj2 (has_shape3_lookup nb' oh ow y b i j Hy)) as [yn Hyn].
  { apply (has_shape3_lookup nb' oh ow x b i j Hx). eauto. }
  rewrite (Hget b i j xn yn), (Hget' b i j xn yn) by done.
  specialize (Hbx b i j ltac:(eauto)).
  destruct (dims_has_shape3 img nb nh nw) as [HH HW]; [done|lia|done|].
  destruct (dims_has_shape3 (take nb' img) nb' nh nw) as [HH' HW']; [done|lia|done|].
  apply sample_pixel_local; [congruence..|].
  by rewrite lookup_take_lt.
Qed.

Lemma bilinear_sampler_smaller_batch_witness :
  ∃ out, bilinear_sampler batch2 [[[0]]] [[[0]]] = Some out ∧
         has_shape3 1 1 1 out ∧
         bilinear_sampler (take 1 batch2) [[[0]]] [[[0]]] = Some out.
Proof.
  apply (bilinear_sampler_smaller_batch batch2 2 3 3 1 1 1);
    [split; [reflexivity|repeat constructor]|lia|lia|lia
    |apply has_shape3_pixel|apply has_shape3_pixel].
Defined.
